(** * ackspoofing: a paced tun/tap tunnel with TCP-ACK spoofing

    Shallow embedding of [queue.c], [process_pkt.c] and the scheduler and
    event loop of [simpletun_advanced.c], with the properties of the
    design document proved (or refuted) on the embedded code.

    Conventions of the embedding.
    - Target: Linux on a little-endian LP64 machine (x86-64, AArch64):
      [int] is 32 bits, [long] is 64 bits, [unsigned short] is 16 bits.
    - A C integer is a [Z]; every arithmetic result is passed through the
      wrap-around of its C type ([to_int], [to_uint], [to_ushort], ...).
    - A byte buffer is a [list byte]; a C pointer into a buffer is the
      buffer together with a byte offset.
    - A pointer to a heap object is represented by the object it points
      to.  Storage that C leaves indeterminate (a fresh [malloc] block, an
      uninitialised local) is an arbitrary value handed to the model from
      outside, so that every theorem quantifies over it.
    - A system call is an entry in a log kept in the program state; what a
      system call returns is an input of the model. *)

From Stdlib Require Import ZArith List Lia Bool String Strings.Byte SpecFloat.
From stdpp Require Import base list.

Local Open Scope Z_scope.

(** ** Machine integers *)

Module CInt.

Definition wrap_unsigned (w x : Z) : Z := x mod 2 ^ w.

Definition wrap_signed (w x : Z) : Z :=
  (x + 2 ^ (w - 1)) mod 2 ^ w - 2 ^ (w - 1).

Definition INT_MAX : Z := 2147483647.
Definition INT_MIN : Z := -2147483648.
Definition UINT_MAX : Z := 4294967295.

(** conversions to [int], [unsigned int], [unsigned short]/[uint16_t],
    [long], [unsigned long] *)
Definition to_int : Z -> Z := wrap_signed 32.
Definition to_uint : Z -> Z := wrap_unsigned 32.
Definition to_ushort : Z -> Z := wrap_unsigned 16.
Definition to_long : Z -> Z := wrap_signed 64.
Definition to_ulong : Z -> Z := wrap_unsigned 64.

(** C's [%] truncates towards zero. *)
Definition c_rem (x y : Z) : Z := Z.rem x y.

End CInt.
Export CInt.

(** ** [float]: IEEE 754 binary32 *)

Module Float32.

Definition prec : Z := 24.
Definition emax : Z := 128.

Definition of_int (n : Z) : spec_float := binary_normalize prec emax n 0 false.
Definition add : spec_float -> spec_float -> spec_float := SFadd prec emax.
Definition sub : spec_float -> spec_float -> spec_float := SFsub prec emax.
Definition mul : spec_float -> spec_float -> spec_float := SFmul prec emax.

(** the constant [0.5] *)
Definition half : spec_float := binary_normalize prec emax 1 (-1) false.

End Float32.

(** ** queue.h: packets and the circular queue *)

Record timeval := { tv_sec : Z; tv_usec : Z }.

(** [struct packet_t]; the field [length] is called [p_length] here so
    that it does not hide the length of lists. *)
Record packet_t := {
  p_length : Z;
  p_ptimein : timeval;
  p_data : list byte
}.

#[global] Instance packet_t_inhabited : Inhabited packet_t :=
  populate {| p_length := 0; p_ptimein := {| tv_sec := 0; tv_usec := 0 |}; p_data := [] |}.

Record pktqueue_t := {
  arr : list packet_t;
  Qname : string;
  buffer_size : Z;
  rear : Z;
  front : Z;
  fullness : Z;
  sfullness : spec_float;
  bfullness : Z
}.

(** ** queue.c *)

(** [float a = 0.5;] *)
Definition a : spec_float := Float32.half.

(** [(1-a)*ewma_last + a*Qcurrent], evaluated in [float]. *)
Definition ewma (a ewma_last : spec_float) (Qcurrent : Z) : spec_float :=
  Float32.add
    (Float32.mul (Float32.sub (Float32.of_int 1) a) ewma_last)
    (Float32.mul a (Float32.of_int Qcurrent)).

Definition isempty (p : pktqueue_t) : Z :=
  if front p =? rear p then 1 else 0.

(** [malloc(n * sizeof(packet_t * ))]: [n] slots whose initial content
    [heap] is indeterminate. *)
Definition malloc_slots (heap : nat -> packet_t) (n : Z) : list packet_t :=
  map heap (seq 0 (Z.to_nat n)).

Definition queue_init (heap : nat -> packet_t) (queuesize : Z) (name : string)
  : pktqueue_t :=
  {| arr := malloc_slots heap queuesize;
     Qname := name;
     buffer_size := queuesize;
     rear := 0;
     front := 0;
     fullness := 0;
     sfullness := Float32.of_int 0;
     bfullness := 0 |}.

(** [p->arr[i]] *)
Definition slot (p : pktqueue_t) (i : Z) : packet_t := arr p !!! Z.to_nat i.

(** Returns the int result and the queue after the call. *)
Definition enqueue_packet (p : pktqueue_t) (pkt : packet_t) : Z * pktqueue_t :=
  let t := to_int (c_rem (to_int (rear p + 1)) (buffer_size p)) in
  if t =? front p then (0, p)
  else
    let fullness' := to_int (fullness p + 1) in
    (1, {| arr := <[Z.to_nat t := pkt]> (arr p);
           Qname := Qname p;
           buffer_size := buffer_size p;
           rear := t;
           front := front p;
           fullness := fullness';
           sfullness := ewma a (sfullness p) fullness';
           bfullness := to_int (bfullness p + p_length pkt) |}).

(** [None] is the NULL pointer. *)
Definition read_packet (p : pktqueue_t) : option packet_t :=
  if negb (isempty p =? 0) then None else Some (slot p (front p)).

Definition dequeue_packet (p : pktqueue_t) : option packet_t * pktqueue_t :=
  if negb (isempty p =? 0) then (None, p)
  else
    let front' := to_int (c_rem (to_int (front p + 1)) (buffer_size p)) in
    let fullness' := to_int (fullness p - 1) in
    (Some (slot p front'),
     {| arr := arr p;
        Qname := Qname p;
        buffer_size := buffer_size p;
        rear := rear p;
        front := front';
        fullness := fullness';
        sfullness := ewma a (sfullness p) fullness';
        bfullness := to_int (bfullness p - p_length (slot p front')) |}).

(** ** Byte buffers *)

#[global] Instance byte_inhabited : Inhabited byte := populate x00.

Module Mem.

Definition byte_val (b : byte) : Z := Z.of_N (Byte.to_N b).

(** the byte holding the low eight bits of [z] *)
Definition byte_of (z : Z) : byte :=
  match Byte.of_N (Z.to_N (z mod 256)) with
  | Some b => b
  | None => x00
  end.

(** [*(uint8_t * )(buf + off)] *)
Definition load8 (buf : list byte) (off : Z) : Z :=
  byte_val (buf !!! Z.to_nat off).

(** [*(uint16_t * )(buf + off)] and [*(uint32_t * )(buf + off)], read in
    the byte order of the (little-endian) host *)
Definition load16 (buf : list byte) (off : Z) : Z :=
  load8 buf off + 256 * load8 buf (off + 1).

Definition load32 (buf : list byte) (off : Z) : Z :=
  load16 buf off + 65536 * load16 buf (off + 2).

Definition store8 (buf : list byte) (off v : Z) : list byte :=
  <[Z.to_nat off := byte_of v]> buf.

Definition store16 (buf : list byte) (off v : Z) : list byte :=
  store8 (store8 buf off v) (off + 1) (Z.shiftr v 8).

Definition store32 (buf : list byte) (off v : Z) : list byte :=
  store16 (store16 buf off v) (off + 2) (Z.shiftr v 16).

(** the [n] bytes at [src + off] *)
Definition bytes_at (src : list byte) (off : Z) (n : Z) : list byte :=
  map (fun k => src !!! (Z.to_nat off + k)%nat) (seq 0 (Z.to_nat n)).

(** [memcpy(dst + doff, src + soff, n)] *)
Definition memcpy (dst : list byte) (doff : Z) (src : list byte) (soff n : Z)
  : list byte :=
  list_inserts (Z.to_nat doff) (bytes_at src soff n) dst.

(** [memset(malloc(n), 0, n)] *)
Definition zeroed (n : Z) : list byte := replicate (Z.to_nat n) x00.

(** [malloc(n)] for a block of which every byte is written before it is
    read; the initial content is immaterial and taken to be zero. *)
Definition malloc_bytes (n : Z) : list byte := replicate (Z.to_nat n) x00.

(** [ntohs]/[htons] and [ntohl]/[htonl] on a little-endian host: the two
    bytes of a 16-bit value, the four bytes of a 32-bit value, in the
    opposite order *)
Definition bswap16 (x : Z) : Z :=
  (x mod 256) * 256 + (x / 256) mod 256.

Definition bswap32 (x : Z) : Z :=
  bswap16 (x mod 65536) * 65536 + bswap16 ((x / 65536) mod 65536).

Definition ntohs := bswap16.
Definition htons := bswap16.
Definition ntohl := bswap32.
Definition htonl := bswap32.

(** a bit-field of [width] bits starting at bit [lo] of a byte *)
Definition bitfield (b lo width : Z) : Z :=
  Z.land (Z.shiftr b lo) (Z.ones width).

End Mem.
Export Mem.

(** ** The header views of <netinet/ip.h>, <netinet/tcp.h>, process_pkt.h

    Every accessor takes the buffer and the offset of the structure in it.
    The layouts are those of glibc on a little-endian host. *)

Module iphdr.
Definition sizeof : Z := 20.
Definition ihl (buf : list byte) (p : Z) : Z := bitfield (load8 buf p) 0 4.
Definition version (buf : list byte) (p : Z) : Z := bitfield (load8 buf p) 4 4.
Definition tot_len (buf : list byte) (p : Z) : Z := load16 buf (p + 2).
Definition id (buf : list byte) (p : Z) : Z := load16 buf (p + 4).
Definition protocol (buf : list byte) (p : Z) : Z := load8 buf (p + 9).
Definition check (buf : list byte) (p : Z) : Z := load16 buf (p + 10).
Definition saddr (buf : list byte) (p : Z) : Z := load32 buf (p + 12).
Definition daddr (buf : list byte) (p : Z) : Z := load32 buf (p + 16).
Definition set_id (buf : list byte) (p v : Z) : list byte := store16 buf (p + 4) v.
Definition set_check (buf : list byte) (p v : Z) : list byte := store16 buf (p + 10) v.
End iphdr.

Module tcphdr.
Definition sizeof : Z := 20.
Definition source (buf : list byte) (p : Z) : Z := load16 buf p.
Definition dest (buf : list byte) (p : Z) : Z := load16 buf (p + 2).
Definition seq (buf : list byte) (p : Z) : Z := load32 buf (p + 4).
Definition ack_seq (buf : list byte) (p : Z) : Z := load32 buf (p + 8).
Definition doff (buf : list byte) (p : Z) : Z := bitfield (load8 buf (p + 12)) 4 4.
Definition fin (buf : list byte) (p : Z) : Z := bitfield (load8 buf (p + 13)) 0 1.
Definition syn (buf : list byte) (p : Z) : Z := bitfield (load8 buf (p + 13)) 1 1.
Definition rst (buf : list byte) (p : Z) : Z := bitfield (load8 buf (p + 13)) 2 1.
Definition psh (buf : list byte) (p : Z) : Z := bitfield (load8 buf (p + 13)) 3 1.
Definition ack (buf : list byte) (p : Z) : Z := bitfield (load8 buf (p + 13)) 4 1.
Definition urg (buf : list byte) (p : Z) : Z := bitfield (load8 buf (p + 13)) 5 1.
Definition check (buf : list byte) (p : Z) : Z := load16 buf (p + 16).
Definition set_check (buf : list byte) (p v : Z) : list byte := store16 buf (p + 16) v.
End tcphdr.

(** [struct tshdr], packed *)
Module tshdr.
Definition sizeof : Z := 12.
Definition pad1 (buf : list byte) (p : Z) : Z := load8 buf p.
Definition pad2 (buf : list byte) (p : Z) : Z := load8 buf (p + 1).
Definition ok (buf : list byte) (p : Z) : Z := load8 buf (p + 2).
Definition ol (buf : list byte) (p : Z) : Z := load8 buf (p + 3).
Definition sts (buf : list byte) (p : Z) : Z := load32 buf (p + 4).
Definition ets (buf : list byte) (p : Z) : Z := load32 buf (p + 8).
Definition set_sts (buf : list byte) (p v : Z) : list byte := store32 buf (p + 4) v.
End tshdr.

Module pseudo_header.
Definition sizeof : Z := 12.
Definition set_source_address (buf : list byte) (p v : Z) := store32 buf p v.
Definition set_dest_address (buf : list byte) (p v : Z) := store32 buf (p + 4) v.
Definition set_placeholder (buf : list byte) (p v : Z) := store8 buf (p + 8) v.
Definition set_protocol (buf : list byte) (p v : Z) := store8 buf (p + 9) v.
Definition set_tcp_length (buf : list byte) (p v : Z) := store16 buf (p + 10) v.
End pseudo_header.

Definition IPPROTO_TCP : Z := 6.

(** ** process_pkt.c *)

Definition CheckPureTCPAck (buffer : list byte) : Z :=
  let iph := 0 in
  if iphdr.protocol buffer iph =? 6 then
    let iphdrlen := to_ushort (iphdr.ihl buffer iph * 4) in
    let tcph := iphdrlen in
    if to_uint (tcphdr.ack buffer tcph) =? 0 then 0
    else if to_uint (tcphdr.urg buffer tcph) =? 1 then 0
    else if to_uint (tcphdr.psh buffer tcph) =? 1 then 0
    else if to_uint (tcphdr.rst buffer tcph) =? 1 then 0
    else if to_uint (tcphdr.syn buffer tcph) =? 1 then 0
    else if to_uint (tcphdr.fin buffer tcph) =? 1 then 0
    else
      let payload_size :=
        to_uint (to_uint (ntohs (iphdr.tot_len buffer iph)
                          - to_uint (to_uint (iphdr.ihl buffer iph) * 4))
                 - to_uint (to_uint (tcphdr.doff buffer tcph) * 4)) in
      if payload_size =? 0 then 1 else 0
  else 0.

Definition getACKSeq (buffer : list byte) : Z :=
  let iph := 0 in
  let iphdrlen := to_ushort (iphdr.ihl buffer iph * 4) in
  let tcph := iphdrlen in
  if tcphdr.ack buffer tcph =? 1 then to_int (ntohl (tcphdr.ack_seq buffer tcph))
  else -1.

Definition getTCPSeq (buffer : list byte) : Z :=
  let iph := 0 in
  let iphdrlen := to_ushort (iphdr.ihl buffer iph * 4) in
  let tcph := iphdrlen in
  to_int (ntohl (tcphdr.seq buffer tcph)).

Definition getTimestampVal (buffer : list byte) : Z :=
  let iph := 0 in
  let iphdrlen := to_ushort (iphdr.ihl buffer iph * 4) in
  let tsh := iphdrlen + tcphdr.sizeof in
  ntohl (tshdr.sts buffer tsh).

(** The [while (nbytes > 1)] loop of [csum]; it returns the pointer (as an
    offset into [ptr]), [nbytes] and [sum] on exit.  [fuel] bounds the number
    of iterations; [csum] supplies more than the loop can use. *)
Fixpoint csum_while (fuel : nat) (ptr : list byte) (off nbytes sum : Z) : Z * Z * Z :=
  match fuel with
  | O => (off, nbytes, sum)
  | S fuel' =>
      if nbytes >? 1 then
        csum_while fuel' ptr (off + 2) (to_int (nbytes - 2))
                   (to_long (sum + load16 ptr off))
      else (off, nbytes, sum)
  end.

Definition csum (ptr : list byte) (nbytes : Z) : Z :=
  let '(off, nbytes, sum) := csum_while (Z.to_nat nbytes) ptr 0 nbytes 0 in
  let sum :=
    if nbytes =? 1 then
      (* the odd byte is stored in the first (low) byte of [oddbyte] *)
      let oddbyte := load8 ptr off in
      to_long (sum + oddbyte)
    else sum in
  let sum := to_long (Z.shiftr sum 16 + Z.land sum 65535) in
  let sum := to_long (sum + Z.shiftr sum 16) in
  let answer := wrap_signed 16 (Z.lnot sum) in
  to_ushort answer.

Definition create_dupack (pkt : list byte) (plus timestamp : Z) : list byte :=
  let plus := to_int plus in
  let timestamp := to_uint timestamp in
  let ip := 0 in
  let tcp := iphdr.sizeof in
  let ts := iphdr.sizeof + tcphdr.sizeof in
  let psize := iphdr.sizeof + tcphdr.sizeof + tshdr.sizeof in
  let dpkt := zeroed psize in
  let dip := 0 in
  let dtcp := iphdr.sizeof in
  let dts := iphdr.sizeof + tcphdr.sizeof in
  let dpkt := memcpy dpkt dip pkt ip iphdr.sizeof in
  let dpkt := iphdr.set_id dpkt dip
                (htons (to_ushort (to_int (ntohs (iphdr.id pkt ip) + plus)))) in
  let dpkt := iphdr.set_check dpkt dip 0 in
  let dpkt := iphdr.set_check dpkt dip (csum dpkt psize) in
  let dpkt := memcpy dpkt dtcp pkt tcp tcphdr.sizeof in
  let dpkt := memcpy dpkt dts pkt ts tshdr.sizeof in
  let psh := malloc_bytes pseudo_header.sizeof in
  let psh := pseudo_header.set_source_address psh 0 (iphdr.saddr dpkt dip) in
  let psh := pseudo_header.set_dest_address psh 0 (iphdr.daddr dpkt dip) in
  let psh := pseudo_header.set_placeholder psh 0 0 in
  let psh := pseudo_header.set_protocol psh 0 IPPROTO_TCP in
  let psh := pseudo_header.set_tcp_length psh 0
               (htons (to_ushort (tcphdr.sizeof + tshdr.sizeof))) in
  let dpkt := tcphdr.set_check dpkt dtcp 0 in
  let dpkt := tshdr.set_sts dpkt dts (htonl timestamp) in
  let pseudosize := pseudo_header.sizeof + tcphdr.sizeof + tshdr.sizeof in
  let pseudogram := malloc_bytes pseudosize in
  let pseudogram := memcpy pseudogram 0 psh 0 pseudo_header.sizeof in
  let pseudogram := memcpy pseudogram pseudo_header.sizeof dpkt dtcp tcphdr.sizeof in
  let pseudogram := memcpy pseudogram (pseudo_header.sizeof + tcphdr.sizeof)
                           dpkt dts tshdr.sizeof in
  let dpkt := tcphdr.set_check dpkt dtcp (csum pseudogram pseudosize) in
  dpkt.

(** ** simpletun_advanced.c: reading from a descriptor *)

(** What one call of [read] answers: an error (a negative result), or the
    bytes it delivers, none at the end of the file. *)
Inductive read_answer :=
| ReadError
| ReadBytes (bytes : list byte).

(** The result of a function that may call [exit]. *)
Inductive outcome (A : Type) :=
| Returned (a : A)
| Exited.

Arguments Returned {A} a.
Arguments Exited {A}.

(** [cread(fd, buf + off, n)]: [read] delivers at most [n] of the bytes; the
    result is their number and the buffer that holds them, or the process
    exits when [read] fails. *)
Definition cread (answer : read_answer) (buf : list byte) (off n : Z)
  : outcome (Z * list byte) :=
  match answer with
  | ReadError => Exited
  | ReadBytes bytes =>
      let delivered := take (Z.to_nat n) bytes in
      Returned (Z.of_nat (length delivered),
                list_inserts (Z.to_nat off) delivered buf)
  end.

(** The loop [while (left > 0)] of [read_n], with [buf] advanced by [off]
    bytes so far.  [answers] is what the successive calls of [read] answer;
    the result is [None] when the loop asks for more answers than there are,
    and otherwise the outcome and the answers not used. *)
Fixpoint read_n_while (answers : list read_answer) (buf : list byte)
    (off left n : Z) : option (outcome (Z * list byte) * list read_answer) :=
  match answers with
  | [] => if left >? 0 then None else Some (Returned (n, buf), [])
  | answer :: answers' =>
      if left >? 0 then
        match cread answer buf off left with
        | Exited => Some (Exited, answers')
        | Returned (nread, buf) =>
            if nread =? 0 then Some (Returned (0, buf), answers')
            else read_n_while answers' buf (off + nread) (to_int (left - nread)) n
        end
      else Some (Returned (n, buf), answers)
  end.

Definition read_n (answers : list read_answer) (buf : list byte) (n : Z)
  : option (outcome (Z * list byte) * list read_answer) :=
  read_n_while answers buf 0 n n.

(** ** simpletun_advanced.c: the scheduler *)

Definition FDTAP_IN_RDY : Z := 1.
Definition FDSOCK_IN_RDY : Z := 2.
Definition FDTAP_OUT_OK : Z := 4.
Definition FDSOCK_OUT_OK : Z := 8.
Definition FDTAP_OUT_OVERRUN : Z := 16.
Definition FDSOCK_OUT_OVERRUN : Z := 32.

(** [static long int T = 50000;] *)
Definition T : Z := 50000.

Definition set_tv_sec (tv : timeval) (v : Z) : timeval :=
  {| tv_sec := v; tv_usec := tv_usec tv |}.

(** The timeout-related variables of [io_timeout]: the locals
    [use_null_timeout] and [which] and the global [timeout]. *)
Record schedule := {
  use_null_timeout : Z;
  timeout : timeval;
  which : Z
}.

(** [(next.tv_sec - start_tv.tv_sec)*1000000 + (next.tv_usec - start_tv.tv_usec)]
    in [long] *)
Definition remain_usec (next start_tv : timeval) : Z :=
  to_long (to_long (to_long (tv_sec next - tv_sec start_tv) * 1000000)
           + to_long (tv_usec next - tv_usec start_tv)).

(** [if (remain_usec < 0) remain_usec = 0;] *)
Definition clamp0 (remain : Z) : Z := if remain <? 0 then 0 else remain.

(** [io_timeout] from the computation of the remaining times to the last of
    the four [if] statements that choose the timeout.  [s0] holds what the
    three variables contain on entry: the locals are uninitialised, the
    global keeps the value of the previous call. *)
Definition io_timeout_schedule
    (qtap_next_pkt_out qsock_next_pkt_out start_tv : timeval) (s0 : schedule)
  : schedule :=
  let remain_usec_1 := remain_usec qtap_next_pkt_out start_tv in
  let remain_usec_2 := remain_usec qsock_next_pkt_out start_tv in
  let remain_usec_1 := clamp0 remain_usec_1 in
  let remain_usec_2 := clamp0 remain_usec_2 in
  let s :=
    if (tv_sec qtap_next_pkt_out =? -1) && (tv_sec qsock_next_pkt_out =? -1)
    then {| use_null_timeout := 1; timeout := timeout s0; which := which s0 |}
    else s0 in
  let s :=
    if (tv_sec qtap_next_pkt_out =? -1) && (tv_sec qsock_next_pkt_out >=? 0)
    then {| use_null_timeout := 0;
            timeout := {| tv_sec := 0; tv_usec := remain_usec_2 |};
            which := 2 |}
    else s in
  let s :=
    if (tv_sec qsock_next_pkt_out =? -1) && (tv_sec qtap_next_pkt_out >=? 0)
    then {| use_null_timeout := 0;
            timeout := {| tv_sec := 0; tv_usec := remain_usec_1 |};
            which := 1 |}
    else s in
  let s :=
    if (tv_sec qtap_next_pkt_out >=? 0) && (tv_sec qsock_next_pkt_out >=? 0)
    then
      if remain_usec_1 <? remain_usec_2
      then {| use_null_timeout := 0;
              timeout := {| tv_sec := 0; tv_usec := remain_usec_1 |};
              which := 1 |}
      else {| use_null_timeout := 0;
              timeout := {| tv_sec := 0; tv_usec := remain_usec_2 |};
              which := 2 |}
    else s in
  s.

(** The last argument of the first [select]: [None] is the NULL pointer
    (wait for input for ever), [Some tv] is [&timeout]. *)
Definition select_timeout (s : schedule) : option timeval :=
  if negb (use_null_timeout s =? 0) then None else Some (timeout s).

(** What the environment answers during one call of [io_timeout]. *)
Record io_env := {
  e_start_tv : timeval;          (* the first gettimeofday *)
  e_locals : schedule;           (* content of the variables on entry *)
  e_srv : Z;                     (* result of the first select *)
  e_timeout_left : timeval;      (* what that select leaves in timeout *)
  e_tap_readable : bool;         (* FD_ISSET(fdtap, &readfds) *)
  e_sock_readable : bool;        (* FD_ISSET(fdsock, &readfds) *)
  e_tv_tap_in : timeval;         (* gettimeofday when tap is readable *)
  e_tv_sock_in : timeval;        (* gettimeofday when sock is readable *)
  e_tap_writable : bool;         (* FD_ISSET(fdtap, &writefds) *)
  e_sock_writable : bool;        (* FD_ISSET(fdsock, &writefds) *)
  e_tv_out : timeval             (* gettimeofday when an output is scheduled *)
}.

(** The global pacing deadlines. *)
Record deadlines := {
  qtap_next_pkt_out : timeval;
  qsock_next_pkt_out : timeval
}.

(** [start_tv] plus one pacing interval, as the code stores it *)
Definition next_out (start_tv : timeval) : timeval :=
  {| tv_sec := tv_sec start_tv; tv_usec := to_long (tv_usec start_tv + T) |}.

(** Returns [return_value], the deadlines and the global [timeout] after the
    call. *)
Definition io_timeout (e : io_env) (d : deadlines) (timeout0 : timeval)
  : Z * deadlines * timeval :=
  let return_value := 0 in
  let s := io_timeout_schedule (qtap_next_pkt_out d) (qsock_next_pkt_out d)
             (e_start_tv e)
             {| use_null_timeout := use_null_timeout (e_locals e);
                timeout := timeout0;
                which := which (e_locals e) |} in
  let srv := e_srv e in
  let '(d, return_value) :=
    if e_tap_readable e then
      (if tv_sec (qtap_next_pkt_out d) =? -1
       then {| qtap_next_pkt_out := next_out (e_tv_tap_in e);
               qsock_next_pkt_out := qsock_next_pkt_out d |}
       else d,
       Z.lor return_value FDTAP_IN_RDY)
    else (d, return_value) in
  let '(d, return_value) :=
    if e_sock_readable e then
      (if tv_sec (qsock_next_pkt_out d) =? -1
       then {| qtap_next_pkt_out := qtap_next_pkt_out d;
               qsock_next_pkt_out := next_out (e_tv_sock_in e) |}
       else d,
       Z.lor return_value FDSOCK_IN_RDY)
    else (d, return_value) in
  if srv =? 0 then
    let timeout1 := {| tv_sec := 0; tv_usec := 0 |} in
    let '(d, return_value) :=
      if which s =? 1 then
        if e_sock_writable e
        then ({| qtap_next_pkt_out := next_out (e_tv_out e);
                 qsock_next_pkt_out := qsock_next_pkt_out d |},
              Z.lor return_value FDSOCK_OUT_OK)
        else (d, Z.lor return_value FDSOCK_OUT_OVERRUN)
      else (d, return_value) in
    let '(d, return_value) :=
      if which s =? 2 then
        if e_tap_writable e
        then ({| qtap_next_pkt_out := qtap_next_pkt_out d;
                 qsock_next_pkt_out := next_out (e_tv_out e) |},
              Z.lor return_value FDTAP_OUT_OK)
        else (d, Z.lor return_value FDTAP_OUT_OVERRUN)
      else (d, return_value) in
    (return_value, d, timeout1)
  else (return_value, d,
        if negb (use_null_timeout s =? 0) then timeout s else e_timeout_left e).

(** ** simpletun_advanced.c: the event loop of [main] *)

(** One call [cwrite(fd, buf, n)]: the buffer passed and the byte count. *)
Record write_call := { w_buf : list byte; w_n : Z }.

(** The variables of [main] that the loop uses, the two global deadlines and
    the global [timeout], and the logs of the calls of [cwrite] on each file
    descriptor and of [free] on packets. *)
Record main_state := {
  Qsock : pktqueue_t;
  Qtap : pktqueue_t;
  next_pkt_out : deadlines;
  g_timeout : timeval;
  trigger_seq : Z;              (* unsigned int *)
  dupack : packet_t;            (* packet_t * *)
  in_backward_cc : Z;           (* int *)
  pkt_count : Z;                (* unsigned short *)
  tap2net : Z;                  (* unsigned long *)
  tap_fd_writes : list write_call;
  net_fd_writes : list write_call;
  freed : list packet_t
}.

Definition with_Qsock (q : pktqueue_t) (s : main_state) : main_state :=
  {| Qsock := q; Qtap := Qtap s; next_pkt_out := next_pkt_out s;
     g_timeout := g_timeout s; trigger_seq := trigger_seq s; dupack := dupack s;
     in_backward_cc := in_backward_cc s; pkt_count := pkt_count s;
     tap2net := tap2net s; tap_fd_writes := tap_fd_writes s;
     net_fd_writes := net_fd_writes s; freed := freed s |}.

Definition with_Qtap (q : pktqueue_t) (s : main_state) : main_state :=
  {| Qsock := Qsock s; Qtap := q; next_pkt_out := next_pkt_out s;
     g_timeout := g_timeout s; trigger_seq := trigger_seq s; dupack := dupack s;
     in_backward_cc := in_backward_cc s; pkt_count := pkt_count s;
     tap2net := tap2net s; tap_fd_writes := tap_fd_writes s;
     net_fd_writes := net_fd_writes s; freed := freed s |}.

Definition with_next_pkt_out (d : deadlines) (s : main_state) : main_state :=
  {| Qsock := Qsock s; Qtap := Qtap s; next_pkt_out := d;
     g_timeout := g_timeout s; trigger_seq := trigger_seq s; dupack := dupack s;
     in_backward_cc := in_backward_cc s; pkt_count := pkt_count s;
     tap2net := tap2net s; tap_fd_writes := tap_fd_writes s;
     net_fd_writes := net_fd_writes s; freed := freed s |}.

Definition with_g_timeout (tv : timeval) (s : main_state) : main_state :=
  {| Qsock := Qsock s; Qtap := Qtap s; next_pkt_out := next_pkt_out s;
     g_timeout := tv; trigger_seq := trigger_seq s; dupack := dupack s;
     in_backward_cc := in_backward_cc s; pkt_count := pkt_count s;
     tap2net := tap2net s; tap_fd_writes := tap_fd_writes s;
     net_fd_writes := net_fd_writes s; freed := freed s |}.

Definition with_trigger_seq (v : Z) (s : main_state) : main_state :=
  {| Qsock := Qsock s; Qtap := Qtap s; next_pkt_out := next_pkt_out s;
     g_timeout := g_timeout s; trigger_seq := v; dupack := dupack s;
     in_backward_cc := in_backward_cc s; pkt_count := pkt_count s;
     tap2net := tap2net s; tap_fd_writes := tap_fd_writes s;
     net_fd_writes := net_fd_writes s; freed := freed s |}.

Definition with_dupack (p : packet_t) (s : main_state) : main_state :=
  {| Qsock := Qsock s; Qtap := Qtap s; next_pkt_out := next_pkt_out s;
     g_timeout := g_timeout s; trigger_seq := trigger_seq s; dupack := p;
     in_backward_cc := in_backward_cc s; pkt_count := pkt_count s;
     tap2net := tap2net s; tap_fd_writes := tap_fd_writes s;
     net_fd_writes := net_fd_writes s; freed := freed s |}.

Definition with_in_backward_cc (v : Z) (s : main_state) : main_state :=
  {| Qsock := Qsock s; Qtap := Qtap s; next_pkt_out := next_pkt_out s;
     g_timeout := g_timeout s; trigger_seq := trigger_seq s; dupack := dupack s;
     in_backward_cc := v; pkt_count := pkt_count s;
     tap2net := tap2net s; tap_fd_writes := tap_fd_writes s;
     net_fd_writes := net_fd_writes s; freed := freed s |}.

Definition with_pkt_count (v : Z) (s : main_state) : main_state :=
  {| Qsock := Qsock s; Qtap := Qtap s; next_pkt_out := next_pkt_out s;
     g_timeout := g_timeout s; trigger_seq := trigger_seq s; dupack := dupack s;
     in_backward_cc := in_backward_cc s; pkt_count := v;
     tap2net := tap2net s; tap_fd_writes := tap_fd_writes s;
     net_fd_writes := net_fd_writes s; freed := freed s |}.

Definition with_tap2net (v : Z) (s : main_state) : main_state :=
  {| Qsock := Qsock s; Qtap := Qtap s; next_pkt_out := next_pkt_out s;
     g_timeout := g_timeout s; trigger_seq := trigger_seq s; dupack := dupack s;
     in_backward_cc := in_backward_cc s; pkt_count := pkt_count s;
     tap2net := v; tap_fd_writes := tap_fd_writes s;
     net_fd_writes := net_fd_writes s; freed := freed s |}.

(** [cwrite(tap_fd, buf, n)] and [cwrite(net_fd, buf, n)] *)
Definition cwrite_tap (buf : list byte) (n : Z) (s : main_state) : main_state :=
  {| Qsock := Qsock s; Qtap := Qtap s; next_pkt_out := next_pkt_out s;
     g_timeout := g_timeout s; trigger_seq := trigger_seq s; dupack := dupack s;
     in_backward_cc := in_backward_cc s; pkt_count := pkt_count s;
     tap2net := tap2net s;
     tap_fd_writes := tap_fd_writes s ++ [{| w_buf := buf; w_n := n |}];
     net_fd_writes := net_fd_writes s; freed := freed s |}.

Definition cwrite_net (buf : list byte) (n : Z) (s : main_state) : main_state :=
  {| Qsock := Qsock s; Qtap := Qtap s; next_pkt_out := next_pkt_out s;
     g_timeout := g_timeout s; trigger_seq := trigger_seq s; dupack := dupack s;
     in_backward_cc := in_backward_cc s; pkt_count := pkt_count s;
     tap2net := tap2net s; tap_fd_writes := tap_fd_writes s;
     net_fd_writes := net_fd_writes s ++ [{| w_buf := buf; w_n := n |}];
     freed := freed s |}.

(** [free(p)] for a packet *)
Definition free (p : packet_t) (s : main_state) : main_state :=
  {| Qsock := Qsock s; Qtap := Qtap s; next_pkt_out := next_pkt_out s;
     g_timeout := g_timeout s; trigger_seq := trigger_seq s; dupack := dupack s;
     in_backward_cc := in_backward_cc s; pkt_count := pkt_count s;
     tap2net := tap2net s; tap_fd_writes := tap_fd_writes s;
     net_fd_writes := net_fd_writes s; freed := freed s ++ [p] |}.

(** [qsock_next_pkt_out.tv_sec = -1;] and [qtap_next_pkt_out.tv_sec = -1;] *)
Definition disable_qsock (s : main_state) : main_state :=
  with_next_pkt_out
    {| qtap_next_pkt_out := qtap_next_pkt_out (next_pkt_out s);
       qsock_next_pkt_out := set_tv_sec (qsock_next_pkt_out (next_pkt_out s)) (-1) |} s.

Definition disable_qtap (s : main_state) : main_state :=
  with_next_pkt_out
    {| qtap_next_pkt_out := set_tv_sec (qtap_next_pkt_out (next_pkt_out s)) (-1);
       qsock_next_pkt_out := qsock_next_pkt_out (next_pkt_out s) |} s.

(** The state of [main] when the loop is entered.  [heap_sock] and
    [heap_tap] are the content of the two fresh slot arrays, [d0], [tv0] and
    [dupack0] the content of the deadlines (of which only [tv_sec] is
    assigned), of [timeout] and of the uninitialised pointer [dupack]. *)
Definition main_init (heap_sock heap_tap : nat -> packet_t) (d0 : deadlines)
    (tv0 : timeval) (dupack0 : packet_t) : main_state :=
  {| Qsock := queue_init heap_sock 100 "Qsock";
     Qtap := queue_init heap_tap 100 "Qtap";
     next_pkt_out :=
       {| qtap_next_pkt_out := set_tv_sec (qtap_next_pkt_out d0) (-1);
          qsock_next_pkt_out := set_tv_sec (qsock_next_pkt_out d0) (-1) |};
     g_timeout := tv0;
     trigger_seq := to_uint (-1);
     dupack := dupack0;
     in_backward_cc := -1;
     pkt_count := 0;
     tap2net := 0;
     tap_fd_writes := [];
     net_fd_writes := [];
     freed := [] |}.

(** [packet->length = nread;] with [uint16_t nread] holding what the read
    returned *)
Definition set_length (packet : packet_t) (nread : Z) : packet_t :=
  {| p_length := to_ushort nread;
     p_ptimein := p_ptimein packet;
     p_data := p_data packet |}.

(** The block [if (j & FDTAP_IN_RDY)].  [packet] is the packet allocated
    there once [cread] has filled its [data]; [nread] is what [cread]
    returned.  When the packet has been freed (its sequence number equals
    [trigger_seq], or Qtap is full) and the last [if] is entered, the source
    reads [packet->data] after [free(packet)]: what it reads then is not
    determined by C, and this definition takes the bytes as they were before
    the call of [free].  No property below concludes anything from the value
    read in that case. *)
Definition main_FDTAP_IN_RDY (packet : packet_t) (nread : Z) (s : main_state)
  : main_state :=
  let packet := set_length packet nread in
  let s := with_tap2net (to_ulong (tap2net s + 1)) s in
  let s := if in_backward_cc s =? -3
           then with_pkt_count (to_ushort (pkt_count s + 1)) s else s in
  let s :=
    if to_uint (getTCPSeq (p_data packet)) =? trigger_seq s then free packet s
    else
      let '(r, q) := enqueue_packet (Qtap s) packet in
      let s := with_Qtap q s in
      if r =? 0 then free packet s else s in
  if (fullness (Qtap s) >? 20) && (in_backward_cc s =? -1) then
    let s := with_trigger_seq (to_uint (getTCPSeq (p_data packet))) s in
    with_in_backward_cc (-2) s
  else s.

(** The two calls of [read_n] in the block [if (j & FDSOCK_IN_RDY)]: the
    first fills the two bytes of [plength], the second fills [packet->data]
    with as many bytes as [plength] says; the result of the first is
    overwritten by that of the second.  [plength0] and [data0] are the
    content of [plength] and of the fresh [packet->data] before. *)
Definition main_read_frame (answers : list read_answer)
    (plength0 data0 : list byte)
  : option (outcome (Z * list byte) * list read_answer) :=
  match read_n answers plength0 2 with
  | None => None
  | Some (Exited, rest) => Some (Exited, rest)
  | Some (Returned (_, plength), rest) =>
      read_n rest data0 (ntohs (load16 plength 0))
  end.

(** The block [if (j & FDSOCK_IN_RDY)].  [packet] is the packet allocated
    there once the second [read_n] has filled its [data]; [nread] is what
    that [read_n] returned. *)
Definition main_FDSOCK_IN_RDY (packet : packet_t) (nread : Z) (s : main_state)
  : main_state :=
  let packet := set_length packet nread in
  let '(r, q) := enqueue_packet (Qsock s) packet in
  let s := with_Qsock q s in
  if r =? 0 then free packet s else s.

(** [(in_backward_cc*pkt_count)-pkt_count+i+1] in [int] *)
Definition dupack_plus (in_backward_cc pkt_count i : Z) : Z :=
  to_int (to_int (to_int (to_int (in_backward_cc * pkt_count) - pkt_count) + i) + 1).

(** The loop [for (i = 0; i < pkt_count; i++)] entered with the given [i];
    [fuel] bounds the number of iterations. *)
Fixpoint main_dupack_for (fuel : nat) (i : Z) (packet : packet_t) (s : main_state)
  : main_state :=
  match fuel with
  | O => s
  | S fuel' =>
      if i <? pkt_count s then
        let ptr := create_dupack (p_data (dupack s))
                     (dupack_plus (in_backward_cc s) (pkt_count s) i)
                     (getTimestampVal (p_data packet)) in
        let s := cwrite_tap ptr (p_length (dupack s)) s in
        main_dupack_for fuel' (to_int (i + 1)) packet s
      else s
  end.

(** The block [if (j & FDTAP_OUT_OK)]. *)
Definition main_FDTAP_OUT_OK (s : main_state) : main_state :=
  let s := if in_backward_cc s =? -3 then with_in_backward_cc 0 s else s in
  if in_backward_cc s >? -1 then
    let '(r, q) := dequeue_packet (Qsock s) in
    let s := with_Qsock q s in
    match r with
    | None => disable_qsock s
    | Some packet =>
        if in_backward_cc s =? 0 then
          if CheckPureTCPAck (p_data packet) =? 1 then
            let s := with_dupack packet s in
            let s := with_in_backward_cc (to_int (in_backward_cc s + 1)) s in
            cwrite_tap (p_data packet) (p_length packet) s
          else s
        else if (to_uint (getACKSeq (p_data packet)) >=? trigger_seq s)
                && negb (trigger_seq s =? to_uint (-1)) then
          let s := cwrite_tap (p_data packet) (p_length packet) s in
          let s := with_trigger_seq (to_uint (-1)) s in
          let s := with_in_backward_cc (-1) s in
          let s := with_pkt_count 0 s in
          free (dupack s) s
        else
          let s := main_dupack_for (Z.to_nat (pkt_count s)) 0 packet s in
          with_in_backward_cc (to_int (in_backward_cc s + 1)) s
    end
  else
    let '(r, q) := dequeue_packet (Qsock s) in
    let s := with_Qsock q s in
    match r with
    | None => disable_qsock s
    | Some packet =>
        let s := if in_backward_cc s =? -2 then with_in_backward_cc (-3) s else s in
        let s := cwrite_tap (p_data packet) (p_length packet) s in
        if in_backward_cc s =? -1 then free packet s else s
    end.

(** The two bytes of [plength = htons(packet->length)], as they lie in
    memory *)
Definition plength_bytes (len : Z) : list byte :=
  store16 (malloc_bytes 2) 0 (htons (to_ushort len)).

(** The block [if (j & FDSOCK_OUT_OK)]. *)
Definition main_FDSOCK_OUT_OK (s : main_state) : main_state :=
  let '(r, q) := dequeue_packet (Qtap s) in
  let s := with_Qtap q s in
  match r with
  | None => disable_qtap s
  | Some packet =>
      let s := cwrite_net (plength_bytes (p_length packet)) 2 s in
      let s := cwrite_net (p_data packet) (p_length packet) s in
      free packet s
  end.

(** What one iteration of [while(1)] receives from outside: the answers to
    [io_timeout] and the packets that the two reads would deliver. *)
Record iteration_input := {
  in_io : io_env;
  in_tap_packet : packet_t;
  in_tap_nread : Z;
  in_sock_packet : packet_t;
  in_sock_nread : Z
}.

Definition flag_set (j flag : Z) : bool := negb (Z.land j flag =? 0).

(** One iteration of the [while(1)] loop of [main]. *)
Definition main_iteration (i : iteration_input) (s : main_state) : main_state :=
  let '(j, d, tv) := io_timeout (in_io i) (next_pkt_out s) (g_timeout s) in
  let s := with_g_timeout tv (with_next_pkt_out d s) in
  let s := if flag_set j FDTAP_IN_RDY
           then main_FDTAP_IN_RDY (in_tap_packet i) (in_tap_nread i) s else s in
  let s := if flag_set j FDSOCK_IN_RDY
           then main_FDSOCK_IN_RDY (in_sock_packet i) (in_sock_nread i) s else s in
  let s := if flag_set j FDTAP_OUT_OK then main_FDTAP_OUT_OK s else s in
  let s := if flag_set j FDSOCK_OUT_OK then main_FDSOCK_OUT_OK s else s in
  s.


(** * Notions used to state the properties *)

(** ** The queue as a sequence *)

(** The packets a queue holds, oldest first: [fullness] slots starting after
    [front]. *)
Definition queued (p : pktqueue_t) : list packet_t :=
  map (fun k => slot p ((front p + 1 + Z.of_nat k) mod buffer_size p))
      (seq 0 (Z.to_nat (fullness p))).

Definition total_length (l : list packet_t) : Z :=
  fold_right (fun pkt acc => p_length pkt + acc) 0 l.

(** [(rear+1) % buffer_size == front] *)
Definition is_full (p : pktqueue_t) : Prop :=
  (rear p + 1) mod buffer_size p = front p.

Inductive queue_call :=
| Enqueue (pkt : packet_t)
| Dequeue.

(** A queue together with the packets that [enqueue_packet] has accepted
    (returned 1 for) and the packets that [dequeue_packet] has returned, both
    in the order of the calls. *)
Record queue_log := {
  l_queue : pktqueue_t;
  l_accepted : list packet_t;
  l_returned : list packet_t
}.

Definition queue_call_run (l : queue_log) (c : queue_call) : queue_log :=
  match c with
  | Enqueue pkt =>
      let '(r, q) := enqueue_packet (l_queue l) pkt in
      {| l_queue := q;
         l_accepted := if r =? 0 then l_accepted l else l_accepted l ++ [pkt];
         l_returned := l_returned l |}
  | Dequeue =>
      let '(r, q) := dequeue_packet (l_queue l) in
      {| l_queue := q;
         l_accepted := l_accepted l;
         l_returned := match r with
                       | Some pkt => l_returned l ++ [pkt]
                       | None => l_returned l
                       end |}
  end.

Definition queue_calls_run (calls : list queue_call) (q : pktqueue_t) : queue_log :=
  fold_left queue_call_run calls
            {| l_queue := q; l_accepted := []; l_returned := [] |}.

(** What every queue reached from [queue_init] satisfies. *)
Record queue_inv (p : pktqueue_t) : Prop := {
  inv_size : 1 <= buffer_size p <= INT_MAX;
  inv_arr : length (arr p) = Z.to_nat (buffer_size p);
  inv_front : 0 <= front p < buffer_size p;
  inv_rear : 0 <= rear p < buffer_size p;
  inv_fullness : fullness p = (rear p - front p) mod buffer_size p;
  inv_bfullness : bfullness p = to_int (total_length (queued p))
}.

(** What [sfullness] becomes when [k] packets are enqueued one after the
    other into a queue that starts empty with [sfullness] zero. *)
Fixpoint smoothed (k : nat) : spec_float :=
  match k with
  | O => Float32.of_int 0
  | S k' => ewma a (smoothed k') (Z.of_nat k)
  end.

#[global] Instance spec_float_eq_dec : EqDecision spec_float.
Proof. solve_decision. Defined.

(** ** The Internet checksum as a sum of words *)

(** The sum of the [k] 16-bit words that [buf] holds from offset [off] on. *)
Fixpoint sum16 (buf : list byte) (off : Z) (k : nat) : Z :=
  match k with
  | O => 0
  | S k' => load16 buf off + sum16 buf (off + 2) k'
  end.

(** What [csum] does with the sum once the loop is over: fold twice, invert,
    keep sixteen bits. *)
Definition csum_fold (sum : Z) : Z :=
  let sum := Z.shiftr sum 16 + Z.land sum 65535 in
  let sum := sum + Z.shiftr sum 16 in
  Z.lnot sum mod 65536.

(** ** Verification of the checksums of a datagram *)

(** The IPv4 header checksum is right when the checksum of the header, its
    checksum field included, is zero (RFC 791, RFC 1071); the header is
    [ihl] 32-bit words long. *)
Definition ip_checksum_ok (buf : list byte) : Prop :=
  csum buf (iphdr.ihl buf 0 * 4) = 0.

(** The length of the TCP segment of a datagram. *)
Definition tcp_segment_length (buf : list byte) : Z :=
  ntohs (iphdr.tot_len buf 0) - iphdr.ihl buf 0 * 4.

(** The bytes over which the TCP checksum of a segment is checked
    (RFC 793): a pseudo header made of the addresses of the datagram, a zero
    byte, the protocol and the segment length, followed by the segment, which
    lies [seg_len] bytes long at offset [seg_off]. *)
Definition tcp_checked_bytes_at (buf : list byte) (protocol seg_off seg_len : Z)
  : list byte :=
  let psh := zeroed pseudo_header.sizeof in
  let psh := pseudo_header.set_source_address psh 0 (iphdr.saddr buf 0) in
  let psh := pseudo_header.set_dest_address psh 0 (iphdr.daddr buf 0) in
  let psh := pseudo_header.set_placeholder psh 0 0 in
  let psh := pseudo_header.set_protocol psh 0 protocol in
  let psh := pseudo_header.set_tcp_length psh 0 (htons (to_ushort seg_len)) in
  psh ++ bytes_at buf seg_off seg_len.

(** The TCP checksum of a datagram is right when the checksum of those
    bytes, taken with the protocol, header length and total length that the
    datagram itself declares, is zero. *)
Definition tcp_checksum_ok (buf : list byte) : Prop :=
  csum (tcp_checked_bytes_at buf (iphdr.protocol buf 0) (iphdr.ihl buf 0 * 4)
          (tcp_segment_length buf))
       (pseudo_header.sizeof + tcp_segment_length buf) = 0.

(** ** The checksums as the RFCs define them *)

(** These notions follow RFC 1071, RFC 791 and RFC 793 and use nothing of
    [csum]: they say what a receiver checks. *)

(** The 16-bit words of a byte sequence in network order, an odd last byte
    padded with a zero byte. *)
Fixpoint be_words (l : list byte) : list Z :=
  match l with
  | hi :: lo :: rest => (256 * byte_val hi + byte_val lo) :: be_words rest
  | [hi] => [256 * byte_val hi]
  | [] => []
  end.

(** One's complement addition of two 16-bit words: the carry out of bit 15
    is added back in. *)
Definition ones_add (x y : Z) : Z :=
  let sum := x + y in if sum >? 65535 then sum - 65535 else sum.

Definition ones_sum (ws : list Z) : Z := fold_left ones_add ws 0.

(** A checksummed byte sequence verifies when the one's complement sum of
    its words, the checksum among them, is all ones. *)
Definition rfc1071_verifies (l : list byte) : Prop :=
  ones_sum (be_words l) = 65535.

(** The header length in bytes and the total length that a datagram
    declares. *)
Definition header_length (d : list byte) : Z :=
  (byte_val (d !!! 0%nat) mod 16) * 4.

Definition total_length_field (d : list byte) : Z :=
  256 * byte_val (d !!! 2%nat) + byte_val (d !!! 3%nat).

(** The bytes that the receiver of a datagram sums for the TCP checksum:
    source and destination address, a zero byte, the protocol, the length of
    the segment, and the segment, which extends from the end of the header
    to the total length declared. *)
Definition rfc793_checked_bytes (d : list byte) : list byte :=
  let seg := total_length_field d - header_length d in
  bytes_at d 12 8 ++ [x00; d !!! 9%nat]
  ++ [byte_of (seg / 256); byte_of (seg mod 256)]
  ++ bytes_at d (header_length d) seg.

Definition rfc791_header_verifies (d : list byte) : Prop :=
  rfc1071_verifies (bytes_at d 0 (header_length d)).

Definition rfc793_verifies (d : list byte) : Prop :=
  rfc1071_verifies (rfc793_checked_bytes d).

(** ** The stages of [create_dupack] *)

(** [dpkt] when the IP checksum is computed: the copied IP header with the
    new [id] and a zero [check], followed by zeros *)
Definition dupack_ip_stage (pkt : list byte) (plus : Z) : list byte :=
  iphdr.set_check
    (iphdr.set_id (memcpy (zeroed 52) 0 pkt 0 20) 0
       (htons (to_ushort (to_int (ntohs (iphdr.id pkt 0) + to_int plus)))))
    0 0.

(** [dpkt] when the TCP checksum is computed *)
Definition dupack_tcp_stage (pkt : list byte) (plus timestamp : Z) : list byte :=
  tshdr.set_sts
    (tcphdr.set_check
       (memcpy
          (memcpy
             (iphdr.set_check (dupack_ip_stage pkt plus) 0
                (csum (dupack_ip_stage pkt plus) 52))
             20 pkt 20 20)
          40 pkt 40 12)
       20 0)
    40 (htonl (to_uint timestamp)).

(** [pseudogram] when the TCP checksum is computed *)
Definition dupack_pseudogram (pkt : list byte) (plus timestamp : Z) : list byte :=
  let dpkt := dupack_tcp_stage pkt plus timestamp in
  let psh := malloc_bytes 12 in
  let psh := pseudo_header.set_source_address psh 0 (iphdr.saddr dpkt 0) in
  let psh := pseudo_header.set_dest_address psh 0 (iphdr.daddr dpkt 0) in
  let psh := pseudo_header.set_placeholder psh 0 0 in
  let psh := pseudo_header.set_protocol psh 0 IPPROTO_TCP in
  let psh := pseudo_header.set_tcp_length psh 0 (htons (to_ushort 32)) in
  memcpy (memcpy (memcpy (malloc_bytes 44) 0 psh 0 12) 12 dpkt 20 20) 32 dpkt 40 12.

(** ** Runs of the event loop *)

(** The state after some more calls of [cwrite] on the tap. *)
Definition tap_written (ws : list write_call) (s : main_state) : main_state :=
  {| Qsock := Qsock s; Qtap := Qtap s; next_pkt_out := next_pkt_out s;
     g_timeout := g_timeout s; trigger_seq := trigger_seq s; dupack := dupack s;
     in_backward_cc := in_backward_cc s; pkt_count := pkt_count s;
     tap2net := tap2net s; tap_fd_writes := tap_fd_writes s ++ ws;
     net_fd_writes := net_fd_writes s; freed := freed s |}.

(** The blocks of one iteration, as events; [main_iteration] runs those whose
    flag [io_timeout] has set, in this order. *)
Inductive main_event :=
| TapIn (packet : packet_t) (nread : Z)
| SockIn (packet : packet_t) (nread : Z)
| TapOut
| SockOut.

Definition main_event_run (s : main_state) (e : main_event) : main_state :=
  match e with
  | TapIn packet nread => main_FDTAP_IN_RDY packet nread s
  | SockIn packet nread => main_FDSOCK_IN_RDY packet nread s
  | TapOut => main_FDTAP_OUT_OK s
  | SockOut => main_FDSOCK_OUT_OK s
  end.

Definition main_events_run (es : list main_event) (s : main_state) : main_state :=
  fold_left main_event_run es s.

(** ** Acknowledgement numbers *)

(** The packet is a TCP acknowledgement (its ACK flag is set) for at least
    [t]. *)
Definition acknowledges_at_least (buffer : list byte) (t : Z) : Prop :=
  tcphdr.ack buffer (iphdr.ihl buffer 0 * 4) = 1
  /\ t <= ntohl (tcphdr.ack_seq buffer (iphdr.ihl buffer 0 * 4)).

(** ** What the loop reads and writes *)



(** The two calls of [cwrite] that send a packet over the socket: its length
    in two bytes, then its data. *)
Definition frame (p : packet_t) : list write_call :=
  [ {| w_buf := plength_bytes (p_length p); w_n := 2 |};
    {| w_buf := p_data p; w_n := p_length p |} ].

(** The bytes that a call of [cwrite] puts on the descriptor when [write]
    takes them all. *)
Definition written_bytes (w : write_call) : list byte :=
  take (Z.to_nat (w_n w)) (w_buf w).

(** The call of [cwrite] that hands a packet to the tap as it is. *)
Definition verbatim (p : packet_t) : write_call :=
  {| w_buf := p_data p; w_n := p_length p |}.


(** What holds of the two queues of [main] all along the loop. *)
Record main_queue_inv (q : pktqueue_t) : Prop := {
  mq_inv : queue_inv q;
  mq_size : buffer_size q = 100;
  mq_lengths : Forall (fun p => 0 <= p_length p <= 65535) (queued q)
}.


(** ** Concrete data for the examples *)

Definition bytes_of (l : list Z) : list byte := map byte_of l.

Definition tv_zero : timeval := {| tv_sec := 0; tv_usec := 0 |}.

Definition mk_packet (len : Z) (l : list Z) : packet_t :=
  {| p_length := len; p_ptimein := tv_zero; p_data := bytes_of l |}.

(** what an unwritten slot happens to hold *)
Definition ex_junk : packet_t := mk_packet 0 [].
Definition ex_heap (_ : nat) : packet_t := ex_junk.

Definition ex_pkt_A : packet_t := mk_packet 100 [65].
Definition ex_pkt_B : packet_t := mk_packet 100 [66].
Definition ex_pkt_C : packet_t := mk_packet 100 [67].

Definition ex_calls : list queue_call :=
  [Enqueue ex_pkt_A; Enqueue ex_pkt_B; Enqueue ex_pkt_C; Dequeue].

(** a queue of three slots after: enqueue A, dequeue, enqueue B *)
Definition ex_queue_B : pktqueue_t :=
  snd (enqueue_packet
         (snd (dequeue_packet
                 (snd (enqueue_packet (queue_init ex_heap 3 "Q") ex_pkt_A))))
         ex_pkt_B).

(** a pure ACK of 52 bytes: IPv4 header without options, TCP header with
    the ACK flag, acknowledgement number 0x1005, and the time-stamp option
    behind two bytes of padding *)
Definition ex_ack_bytes : list Z :=
  [69; 0; 0; 52; 18; 52; 64; 0; 64; 6; 0; 0; 10; 0; 0; 1; 10; 0; 0; 2;
   4; 210; 0; 80; 0; 0; 0; 1; 0; 0; 16; 5; 128; 16; 1; 0; 0; 0; 0; 0;
   1; 1; 8; 10; 0; 0; 0; 7; 0; 0; 0; 9].

Definition ex_ack : packet_t := mk_packet 52 ex_ack_bytes.

(** deadlines and a clock for the scheduler examples: Qtap is due 30 ms
    from now, Qsock 10 ms from now *)
Definition ex_now : timeval := {| tv_sec := 1000; tv_usec := 500000 |}.
Definition ex_qtap_due : timeval := {| tv_sec := 1000; tv_usec := 530000 |}.
Definition ex_qsock_due : timeval := {| tv_sec := 1000; tv_usec := 510000 |}.
Definition ex_no_deadline : timeval := {| tv_sec := -1; tv_usec := 0 |}.
Definition ex_locals : schedule :=
  {| use_null_timeout := 7; timeout := tv_zero; which := 9 |}.




(** big-endian bytes of a 16-bit and of a 32-bit value *)
Definition be16 (v : Z) : list Z := [(v / 256) mod 256; v mod 256].
Definition be32 (v : Z) : list Z := be16 (v / 65536) ++ be16 (v mod 65536).

(** a 52-byte TCP segment from 10.0.0.1:1234 to 10.0.0.2:80 with the
    time-stamp option: IPv4 header without options, data offset 8 *)
Definition ex_tcp (seq ack flags tsval : Z) : packet_t :=
  mk_packet 52
    ([69; 0] ++ be16 52 ++ be16 4660 ++ [64; 0; 64; 6; 0; 0]
     ++ [10; 0; 0; 1; 10; 0; 0; 2]
     ++ be16 1234 ++ be16 80 ++ be32 seq ++ be32 ack
     ++ [128; flags] ++ be16 256 ++ [0; 0; 0; 0]
     ++ [1; 1; 8; 10] ++ be32 tsval ++ be32 9).

(** a segment of the local sender (PSH and ACK set) with the given sequence
    number, a pure ACK of the remote side with the given acknowledgement
    number and time stamp, and a SYN without ACK *)
Definition ex_data (seq : Z) : packet_t := ex_tcp seq 1 24 5.
Definition ex_pure_ack (ack tsval : Z) : packet_t := ex_tcp 1 ack 16 tsval.
Definition ex_syn : packet_t := ex_tcp 1 0 2 5.

Definition ex_start : main_state :=
  main_init ex_heap ex_heap
    {| qtap_next_pkt_out := tv_zero; qsock_next_pkt_out := tv_zero |}
    tv_zero ex_junk.

(** Twenty-one segments from the tap (sequence numbers 1000 to 1020) arm the
    mechanism with trigger 1020; a packet from the socket is paced out
    (phase -3); two more segments are counted; the next packet from the
    socket, a pure ACK, becomes the template (phase 1). *)
Definition ex_to_active : list main_event :=
  map (fun k => TapIn (ex_data (1000 + k)) 52) (seqZ 0 21)
  ++ [SockIn (ex_pure_ack 500 1) 52; TapOut;
      TapIn (ex_data 1021) 52; TapIn (ex_data 1022) 52;
      SockIn (ex_pure_ack 500 2) 52; TapOut].

Definition ex_active : main_state := main_events_run ex_to_active ex_start.

(** ACTIVE with an ACK for 600 < 1020 waiting in Qsock *)
Definition ex_burst_ready : main_state :=
  main_events_run [SockIn (ex_pure_ack 600 77) 52] ex_active.

(** ACTIVE with an ACK for 0x1005 >= 1020 waiting in Qsock *)
Definition ex_end_ready : main_state :=
  main_events_run [SockIn (ex_pure_ack 4101 78) 52] ex_active.

(** ACTIVE with a SYN that carries no ACK waiting in Qsock *)
Definition ex_syn_ready : main_state :=
  main_events_run [SockIn ex_syn 52] ex_active.

(** A pure ACK of 40 bytes from 10.0.0.1:1234 to 10.0.0.2:80: IPv4 header
    without options, TCP header without options (data offset 5), no time
    stamp.  In [packet->data] the 40 bytes read are followed by zero
    bytes. *)
Definition ex_short_ack (ack : Z) : packet_t :=
  mk_packet 40
    ([69; 0] ++ be16 40 ++ be16 4660 ++ [64; 0; 64; 6; 0; 0]
     ++ [10; 0; 0; 1; 10; 0; 0; 2]
     ++ be16 1234 ++ be16 80 ++ be32 1 ++ be32 ack
     ++ [80; 16] ++ be16 256 ++ [0; 0; 0; 0]
     ++ [0; 0; 0; 0; 0; 0; 0; 0; 0; 0; 0; 0]).

(** The run of [ex_to_active] with such a pure ACK as the template, and
    another one, for 600 < 1020, waiting in Qsock. *)
Definition ex_short_ready : main_state :=
  main_events_run
    (map (fun k => TapIn (ex_data (1000 + k)) 52) (seqZ 0 21)
     ++ [SockIn (ex_pure_ack 500 1) 52; TapOut;
         TapIn (ex_data 1021) 52; TapIn (ex_data 1022) 52;
         SockIn (ex_short_ack 500) 40; TapOut;
         SockIn (ex_short_ack 600) 40])
    ex_start.

(** Armed and counting (phase -3), with a data segment of the remote side
    waiting in Qsock *)
Definition ex_wait_ready : main_state :=
  main_events_run
    (map (fun k => TapIn (ex_data (1000 + k)) 52) (seqZ 0 21)
     ++ [SockIn (ex_pure_ack 500 1) 52; TapOut; SockIn (ex_data 7) 52])
    ex_start.



(** No episode runs and Qtap holds twenty packets. *)
Definition ex_twenty : main_state :=
  main_events_run (map (fun k => TapIn (ex_data (1000 + k)) 52) (seqZ 0 20))
    ex_start.

(** * Properties *)

(** ** Machine integers *)

Lemma to_int_small x : INT_MIN <= x <= INT_MAX -> to_int x = x.
Proof.
  unfold to_int, wrap_signed, INT_MIN, INT_MAX. intros H.
  change (2 ^ (32 - 1)) with 2147483648. change (2 ^ 32) with 4294967296.
  rewrite Z.mod_small; lia.
Qed.

Lemma to_long_small x : - 2 ^ 63 <= x < 2 ^ 63 -> to_long x = x.
Proof.
  unfold to_long, wrap_signed. intros H.
  change (2 ^ (64 - 1)) with (2 ^ 63). change (2 ^ 64) with (2 * 2 ^ 63).
  rewrite Z.mod_small; lia.
Qed.

Lemma to_uint_small x : 0 <= x <= UINT_MAX -> to_uint x = x.
Proof.
  unfold to_uint, wrap_unsigned, UINT_MAX. intros H.
  change (2 ^ 32) with 4294967296. rewrite Z.mod_small; lia.
Qed.

Lemma to_ushort_small x : 0 <= x <= 65535 -> to_ushort x = x.
Proof.
  unfold to_ushort, wrap_unsigned. intros H.
  change (2 ^ 16) with 65536. rewrite Z.mod_small; lia.
Qed.

Lemma to_int_range x : INT_MIN <= to_int x <= INT_MAX.
Proof.
  unfold to_int, wrap_signed, INT_MIN, INT_MAX.
  change (2 ^ (32 - 1)) with 2147483648. change (2 ^ 32) with 4294967296.
  pose proof (Z.mod_pos_bound (x + 2147483648) 4294967296). lia.
Qed.

Lemma to_uint_range x : 0 <= to_uint x <= UINT_MAX.
Proof.
  unfold to_uint, wrap_unsigned, UINT_MAX. change (2 ^ 32) with 4294967296.
  pose proof (Z.mod_pos_bound x 4294967296). lia.
Qed.

Lemma to_ushort_range x : 0 <= to_ushort x <= 65535.
Proof.
  unfold to_ushort, wrap_unsigned. change (2 ^ 16) with 65536.
  pose proof (Z.mod_pos_bound x 65536). lia.
Qed.

Lemma to_int_add_l x y : to_int (to_int x + y) = to_int (x + y).
Proof.
  unfold to_int, wrap_signed.
  change (2 ^ (32 - 1)) with 2147483648. change (2 ^ 32) with 4294967296.
  f_equal.
  replace ((x + 2147483648) mod 4294967296 - 2147483648 + y + 2147483648)
    with ((x + 2147483648) mod 4294967296 + y) by lia.
  rewrite Zplus_mod_idemp_l. f_equal. lia.
Qed.

Lemma to_int_sub_l x y : to_int (to_int x - y) = to_int (x - y).
Proof. apply (to_int_add_l x (- y)). Qed.

Lemma to_uint_to_int x : to_uint (to_int x) = to_uint x.
Proof.
  unfold to_uint, to_int, wrap_unsigned, wrap_signed.
  change (2 ^ (32 - 1)) with 2147483648. change (2 ^ 32) with 4294967296.
  rewrite Zminus_mod_idemp_l. f_equal. lia.
Qed.

Lemma c_rem_mod x y : 0 <= x -> 0 < y -> c_rem x y = x mod y.
Proof. intros. unfold c_rem. apply Z.rem_mod_nonneg; lia. Qed.

(** ** The circular queue *)

Lemma mod_diff_cases x y c :
  0 <= x < c -> 0 <= y < c ->
  (x - y) mod c = if y <=? x then x - y else x - y + c.
Proof.
  intros Hx Hy. destruct (Z.leb_spec y x).
  - apply Z.mod_small. lia.
  - symmetry. apply (Z.mod_unique_pos _ _ (-1)); lia.
Qed.

Lemma mod_succ_cases x c :
  0 <= x < c -> (x + 1) mod c = if x + 1 =? c then 0 else x + 1.
Proof.
  intros Hx. destruct (Z.eqb_spec (x + 1) c) as [->|Hne].
  - apply Z_mod_same_full.
  - apply Z.mod_small. lia.
Qed.

Lemma mod_add_inj x i j c :
  0 <= i < c -> 0 <= j < c -> (x + i) mod c = (x + j) mod c -> i = j.
Proof.
  intros Hi Hj H.
  assert (E : ((x + i) - (x + j)) mod c = 0).
  { rewrite Zminus_mod, H, Z.sub_diag. apply Z.mod_0_l. lia. }
  replace (x + i - (x + j)) with (i - j) in E by lia.
  destruct (Z.leb_spec j i).
  - rewrite Z.mod_small in E; lia.
  - assert (E' : (j - i) mod c = 0).
    { replace (j - i) with (- (i - j)) by lia. apply Z.mod_opp_l_z; lia. }
    rewrite Z.mod_small in E'; lia.
Qed.

(** The index arithmetic of the two operations stays inside [int]. *)
Lemma next_index x c :
  1 <= c <= INT_MAX -> 0 <= x < c ->
  to_int (c_rem (to_int (x + 1)) c) = (x + 1) mod c.
Proof.
  intros Hc Hx. unfold INT_MAX in Hc.
  rewrite (to_int_small (x + 1)) by (unfold INT_MIN, INT_MAX; lia).
  rewrite c_rem_mod by lia.
  pose proof (Z.mod_pos_bound (x + 1) c).
  apply to_int_small. unfold INT_MIN, INT_MAX. lia.
Qed.

Lemma queue_inv_fullness_range p :
  queue_inv p -> 0 <= fullness p <= buffer_size p - 1.
Proof.
  intros [Hc _ _ _ Hf _]. rewrite Hf.
  pose proof (Z.mod_pos_bound (rear p - front p) (buffer_size p)). lia.
Qed.

Lemma queue_inv_empty_iff p :
  queue_inv p -> (front p = rear p <-> fullness p = 0).
Proof.
  intros [Hc _ Hfr Hre Hf _]. rewrite Hf, mod_diff_cases by lia.
  destruct (Z.leb_spec (front p) (rear p)); lia.
Qed.

Lemma queue_inv_rear p :
  queue_inv p -> rear p = (front p + fullness p) mod buffer_size p.
Proof.
  intros [Hc _ Hfr Hre Hf _]. rewrite Hf, Zplus_mod_idemp_r.
  replace (front p + (rear p - front p)) with (rear p) by lia.
  symmetry. apply Z.mod_small. lia.
Qed.

Lemma queue_inv_is_full_iff p :
  queue_inv p -> (is_full p <-> fullness p = buffer_size p - 1).
Proof.
  intros Hinv. pose proof Hinv as [Hc _ Hfr Hre Hf _]. unfold is_full.
  rewrite Hf, mod_diff_cases, mod_succ_cases by lia.
  destruct (Z.eqb_spec (rear p + 1) (buffer_size p));
    destruct (Z.leb_spec (front p) (rear p)); lia.
Qed.

Lemma queued_length p : length (queued p) = Z.to_nat (fullness p).
Proof. unfold queued. now rewrite length_map, length_seq. Qed.

Lemma queue_init_inv heap queuesize name :
  1 <= queuesize <= INT_MAX -> queue_inv (queue_init heap queuesize name).
Proof.
  intros Hc. split; simpl; try lia.
  - unfold malloc_slots. now rewrite length_map, length_seq.
  - rewrite Z.mod_0_l; lia.
  - reflexivity.
Qed.

Lemma queue_init_queued heap queuesize name :
  queued (queue_init heap queuesize name) = [].
Proof. reflexivity. Qed.

Lemma total_length_app l1 l2 :
  total_length (l1 ++ l2) = total_length l1 + total_length l2.
Proof. induction l1 as [|x l1 IH]; simpl; [|rewrite IH]; lia. Qed.

Lemma enqueue_packet_full p pkt :
  queue_inv p -> is_full p -> enqueue_packet p pkt = (0, p).
Proof.
  intros [Hc _ Hfr Hre _ _] Hfull. unfold enqueue_packet.
  rewrite next_index by assumption. unfold is_full in Hfull.
  now rewrite Hfull, Z.eqb_refl.
Qed.

Lemma enqueue_packet_room p pkt :
  queue_inv p -> ~ is_full p ->
  exists q, enqueue_packet p pkt = (1, q)
            /\ queue_inv q
            /\ queued q = queued p ++ [pkt]
            /\ buffer_size q = buffer_size p.
Proof.
  intros Hinv Hroom.
  pose proof (queue_inv_fullness_range p Hinv) as Hrange.
  pose proof (queue_inv_rear p Hinv) as Hrear.
  pose proof (proj1 (queue_inv_is_full_iff p Hinv)) as Hfull.
  pose proof Hinv as [Hc Harr Hfr Hre Hf Hb].
  unfold is_full in Hroom, Hfull.
  unfold enqueue_packet. rewrite next_index by assumption.
  destruct (Z.eqb_spec ((rear p + 1) mod buffer_size p) (front p)) as [E|_];
    [contradiction|].
  set (t := (rear p + 1) mod buffer_size p).
  assert (Ht : 0 <= t < buffer_size p) by (apply Z.mod_pos_bound; lia).
  assert (Hlt : fullness p < buffer_size p - 1).
  { destruct (Z.eq_dec (fullness p) (buffer_size p - 1)) as [E|]; [|lia].
    exfalso. apply Hroom. apply (queue_inv_is_full_iff p Hinv), E. }
  assert (Hfull' : to_int (fullness p + 1) = fullness p + 1).
  { apply to_int_small. unfold INT_MIN, INT_MAX in *. lia. }
  assert (Ht' : t = (front p + 1 + fullness p) mod buffer_size p).
  { unfold t. rewrite Hrear at 1. rewrite Zplus_mod_idemp_l. f_equal. lia. }
  eexists. split; [reflexivity|].
  match goal with |- queue_inv ?Q /\ _ => set (q := Q) end.
  assert (Hq : queued q = queued p ++ [pkt]).
  { unfold queued at 1. subst q. cbn [fullness front buffer_size].
    rewrite Hfull'.
    replace (Z.to_nat (fullness p + 1)) with (S (Z.to_nat (fullness p))) by lia.
    rewrite seq_S, map_app. simpl. f_equal.
    - unfold queued. apply map_ext_in. intros k Hk. apply in_seq in Hk.
      unfold slot. cbn [arr]. apply list_lookup_total_insert_ne.
      intros E. apply Z2Nat.inj in E; try lia.
      + rewrite Ht' in E. apply mod_add_inj in E; lia.
      + apply Z.mod_pos_bound. lia.
    - f_equal. unfold slot. cbn [arr]. rewrite Z2Nat.id by lia. rewrite <- Ht'.
      apply list_lookup_total_insert_eq. lia. }
  split; [|split; [exact Hq|reflexivity]].
  split; try assumption.
  - subst q. cbn [arr buffer_size]. now rewrite length_insert.
  - subst q. cbn [fullness rear front buffer_size]. rewrite Hfull', Hf. unfold t.
    rewrite !mod_diff_cases, mod_succ_cases by (try apply Z.mod_pos_bound; lia).
    rewrite Hf, mod_diff_cases in Hlt by lia.
    destruct (Z.eqb_spec (rear p + 1) (buffer_size p));
      destruct (Z.leb_spec (front p) (rear p));
      destruct (Z.leb_spec (front p) 0);
      destruct (Z.leb_spec (front p) (rear p + 1)); lia.
  - rewrite Hq, total_length_app.
    change (bfullness q) with (to_int (bfullness p + p_length pkt)).
    rewrite Hb, to_int_add_l. f_equal. cbn [total_length fold_right]. lia.
Qed.

Lemma classic_full p : is_full p \/ ~ is_full p.
Proof. unfold is_full. destruct (Z.eq_dec ((rear p + 1) mod buffer_size p) (front p)); auto. Qed.

Lemma dequeue_packet_empty p :
  front p = rear p -> dequeue_packet p = (None, p).
Proof.
  intros E. unfold dequeue_packet, isempty. now rewrite E, Z.eqb_refl.
Qed.

Lemma dequeue_packet_nonempty p :
  queue_inv p -> front p <> rear p ->
  exists pkt q, dequeue_packet p = (Some pkt, q)
                /\ queue_inv q
                /\ queued p = pkt :: queued q
                /\ buffer_size q = buffer_size p.
Proof.
  intros Hinv Hne.
  pose proof (queue_inv_fullness_range p Hinv) as Hrange.
  pose proof (queue_inv_empty_iff p Hinv) as Hempty.
  pose proof Hinv as [Hc Harr Hfr Hre Hf Hb].
  assert (Hpos : 1 <= fullness p) by (destruct (Z.eq_dec (fullness p) 0); tauto || lia).
  unfold dequeue_packet, isempty.
  destruct (Z.eqb_spec (front p) (rear p)) as [|_]; [contradiction|]. simpl negb. cbv iota.
  rewrite next_index by assumption.
  set (f := (front p + 1) mod buffer_size p).
  assert (Hf' : 0 <= f < buffer_size p) by (apply Z.mod_pos_bound; lia).
  assert (Hfull' : to_int (fullness p - 1) = fullness p - 1).
  { apply to_int_small. unfold INT_MIN, INT_MAX in *. lia. }
  do 2 eexists. split; [reflexivity|].
  match goal with |- queue_inv ?Q /\ _ => set (q := Q) end.
  assert (Hq : queued p = slot p f :: queued q).
  { unfold queued. subst q. cbn [fullness front buffer_size]. rewrite Hfull'.
    replace (Z.to_nat (fullness p)) with (S (Z.to_nat (fullness p - 1))) by lia.
    cbn [seq]. rewrite <- seq_shift. cbn [map]. rewrite map_map. f_equal.
    - unfold f. do 2 f_equal. lia.
    - apply map_ext. intros k. unfold slot. cbn [arr]. do 2 f_equal.
      unfold f. rewrite <- (Z.add_assoc (_ mod _)), Zplus_mod_idemp_l.
      f_equal. lia. }
  split; [|split; [exact Hq|reflexivity]].
  split; try assumption.
  - subst q. cbn [fullness rear front buffer_size]. rewrite Hfull', Hf. unfold f.
    rewrite !mod_diff_cases, mod_succ_cases by (try apply Z.mod_pos_bound; lia).
    rewrite Hf, mod_diff_cases in Hpos by lia.
    destruct (Z.eqb_spec (front p + 1) (buffer_size p));
      destruct (Z.leb_spec (front p) (rear p));
      destruct (Z.leb_spec 0 (rear p));
      destruct (Z.leb_spec (front p + 1) (rear p)); lia.
  - change (bfullness q) with (to_int (bfullness p - p_length (slot p f))).
    rewrite Hb, Hq. cbn [total_length fold_right].
    rewrite to_int_sub_l. f_equal. fold (total_length (queued q)). lia.
Qed.

Lemma read_packet_unfold p :
  read_packet p = if front p =? rear p then None else Some (slot p (front p)).
Proof. unfold read_packet, isempty. now destruct (front p =? rear p). Qed.

(** The log of a run from a queue that satisfies the invariant. *)
Lemma queue_calls_run_inv calls :
  forall l, queue_inv (l_queue l) ->
            l_accepted l = l_returned l ++ queued (l_queue l) ->
  let l' := fold_left queue_call_run calls l in
  queue_inv (l_queue l')
  /\ l_accepted l' = l_returned l' ++ queued (l_queue l')
  /\ buffer_size (l_queue l') = buffer_size (l_queue l).
Proof.
  induction calls as [|c calls IH]; intros l Hinv Hlog; simpl.
  - auto.
  - assert (Hstep : queue_inv (l_queue (queue_call_run l c))
                    /\ l_accepted (queue_call_run l c)
                       = l_returned (queue_call_run l c)
                           ++ queued (l_queue (queue_call_run l c))
                    /\ buffer_size (l_queue (queue_call_run l c))
                       = buffer_size (l_queue l)).
    { destruct c as [pkt|]; unfold queue_call_run.
      - destruct (classic_full (l_queue l)) as [Hfull|Hroom].
        + rewrite (enqueue_packet_full _ pkt Hinv Hfull). simpl. auto.
        + destruct (enqueue_packet_room _ pkt Hinv Hroom) as (q & -> & Hq & Hqq & Hsz).
          simpl. rewrite Hqq, Hlog, app_assoc. auto.
      - destruct (Z.eq_dec (front (l_queue l)) (rear (l_queue l))) as [E|Hne].
        + rewrite (dequeue_packet_empty _ E). simpl. auto.
        + destruct (dequeue_packet_nonempty _ Hinv Hne) as (pkt & q & -> & Hq & Hqq & Hsz).
          simpl. rewrite Hlog, Hqq, <- app_assoc. auto. }
    destruct Hstep as (H1 & H2 & H3).
    destruct (IH _ H1 H2) as (H4 & H5 & H6). rewrite <- H3. auto.
Qed.

(** C4. From [queue_init] with a capacity that [int] can hold, after any
    sequence of calls of [enqueue_packet] and [dequeue_packet]: [fullness]
    lies in [0, capacity-1] and is the number of queued packets; [bfullness]
    is the sum of their [length] (computed in [int]: it is that sum exactly
    whenever the sum fits in an [int]); [front == rear] iff [fullness == 0];
    enqueueing into a full queue returns 0 and leaves the whole queue as it
    was, enqueueing otherwise returns 1 and appends the packet; a dequeue
    returns the oldest packet; and the packets accepted so far are, in order,
    the packets returned so far followed by the packets still queued. *)
Theorem queue_bounded_fifo (heap : nat -> packet_t) (queuesize : Z)
    (name : string) (calls : list queue_call) :
  1 <= queuesize <= INT_MAX ->
  let l := queue_calls_run calls (queue_init heap queuesize name) in
  let q := l_queue l in
  buffer_size q = queuesize
  /\ 0 <= fullness q <= queuesize - 1
  /\ length (queued q) = Z.to_nat (fullness q)
  /\ bfullness q = to_int (total_length (queued q))
  /\ (INT_MIN <= total_length (queued q) <= INT_MAX ->
      bfullness q = total_length (queued q))
  /\ (front q = rear q <-> fullness q = 0)
  /\ (forall pkt, is_full q -> enqueue_packet q pkt = (0, q))
  /\ (forall pkt, ~ is_full q ->
        fst (enqueue_packet q pkt) = 1
        /\ queued (snd (enqueue_packet q pkt)) = queued q ++ [pkt])
  /\ (forall pkt q', dequeue_packet q = (Some pkt, q') ->
        queued q = pkt :: queued q')
  /\ (dequeue_packet q = (None, q) <-> queued q = [])
  /\ l_accepted l = l_returned l ++ queued q.
Proof.
  intros Hc l q.
  destruct (queue_calls_run_inv calls
              {| l_queue := queue_init heap queuesize name;
                 l_accepted := []; l_returned := [] |}
              (queue_init_inv heap queuesize name Hc) eq_refl)
    as (Hinv & Hlog & Hsz).
  fold (queue_calls_run calls (queue_init heap queuesize name)) in Hinv, Hlog, Hsz.
  fold l in Hinv, Hlog, Hsz. fold q in Hinv, Hlog, Hsz. simpl in Hsz.
  pose proof (queue_inv_fullness_range q Hinv) as Hrange.
  pose proof (queue_inv_empty_iff q Hinv) as Hempty.
  repeat split.
  - exact Hsz.
  - lia.
  - lia.
  - apply queued_length.
  - apply Hinv.
  - intros Hfit. rewrite (inv_bfullness q Hinv). now apply to_int_small.
  - apply Hempty.
  - apply Hempty.
  - intros pkt Hfull. now apply enqueue_packet_full.
  - destruct (enqueue_packet_room q pkt Hinv H) as (q' & -> & _). reflexivity.
  - destruct (enqueue_packet_room q pkt Hinv H) as (q' & -> & _ & Hq & _). exact Hq.
  - intros pkt q' Hd.
    destruct (Z.eq_dec (front q) (rear q)) as [E|Hne].
    + rewrite (dequeue_packet_empty q E) in Hd. discriminate.
    + destruct (dequeue_packet_nonempty q Hinv Hne) as (pkt' & q'' & Hd' & _ & Hq & _).
      rewrite Hd in Hd'. injection Hd' as E1 E2. now rewrite E1, E2.
  - intros Hd. destruct (Z.eq_dec (front q) (rear q)) as [E|Hne].
    + apply Hempty in E. pose proof (queued_length q) as Hl. rewrite E in Hl.
      now destruct (queued q).
    + destruct (dequeue_packet_nonempty q Hinv Hne) as (pkt' & q'' & Hd' & _).
      rewrite Hd in Hd'. discriminate.
  - intros Hq. apply dequeue_packet_empty, Hempty.
    pose proof (queued_length q) as Hl. rewrite Hq in Hl. simpl in Hl. lia.
  - exact Hlog.
Qed.

Lemma queue_bounded_fifo_witness :
  1 <= 3 <= INT_MAX
  /\ l_accepted (queue_calls_run ex_calls (queue_init ex_heap 3 "Q"))
     = l_returned (queue_calls_run ex_calls (queue_init ex_heap 3 "Q"))
       ++ queued (l_queue (queue_calls_run ex_calls (queue_init ex_heap 3 "Q"))).
Proof.
  assert (H : 1 <= 3 <= INT_MAX) by (unfold INT_MAX; lia).
  split; [exact H|].
  apply (queue_bounded_fifo ex_heap 3 "Q" ex_calls H).
Defined.

(** The parts of the documented behaviour of [read_packet] that hold: it
    returns NULL on an empty queue, and otherwise the content of slot
    [front]; being a read, it leaves the queue as it is. *)
Lemma read_packet_empty p : front p = rear p -> read_packet p = None.
Proof. intros E. rewrite read_packet_unfold, E. now rewrite Z.eqb_refl. Qed.

(** On a non-empty queue [read_packet] returns slot [front], the slot the
    queue has last vacated, where [dequeue_packet] returns the slot after
    it. *)
Lemma read_packet_vs_dequeue p :
  queue_inv p -> front p <> rear p ->
  read_packet p = Some (slot p (front p))
  /\ fst (dequeue_packet p)
     = Some (slot p ((front p + 1) mod buffer_size p)).
Proof.
  intros Hinv Hne. pose proof Hinv as [Hc _ Hfr _ _ _]. split.
  - rewrite read_packet_unfold. now destruct (Z.eqb_spec (front p) (rear p)).
  - unfold dequeue_packet, isempty.
    destruct (Z.eqb_spec (front p) (rear p)); [contradiction|]. simpl.
    now rewrite next_index.
Qed.

(** C5 (evaluation at the failing input).  A queue of capacity 3 after
    enqueue A, dequeue, enqueue B holds exactly B; [read_packet] returns A,
    the packet already dequeued, and the [dequeue_packet] that follows
    returns B. *)
Theorem read_packet_returns_stale_slot :
  queued ex_queue_B = [ex_pkt_B]
  /\ read_packet ex_queue_B = Some ex_pkt_A
  /\ fst (dequeue_packet ex_queue_B) = Some ex_pkt_B
  /\ ex_pkt_A <> ex_pkt_B.
Proof.
  repeat split; try (vm_compute; reflexivity). discriminate.
Qed.

(** ** Bytes and buffers *)

Lemma byte_val_range b : 0 <= byte_val b <= 255.
Proof.
  unfold byte_val. pose proof (Byte.to_N_bounded b). lia.
Qed.

Lemma byte_val_of z : byte_val (byte_of z) = z mod 256.
Proof.
  unfold byte_val, byte_of.
  pose proof (Z.mod_pos_bound z 256 eq_refl) as Hz.
  destruct (Byte.of_N (Z.to_N (z mod 256))) as [b|] eqn:E.
  - apply Byte.to_of_N in E. rewrite E. lia.
  - apply Byte.of_N_None_iff in E. lia.
Qed.

Lemma load8_range buf off : 0 <= load8 buf off <= 255.
Proof. apply byte_val_range. Qed.

Lemma load16_range buf off : 0 <= load16 buf off <= 65535.
Proof.
  unfold load16. pose proof (load8_range buf off).
  pose proof (load8_range buf (off + 1)). lia.
Qed.

Lemma load32_range buf off : 0 <= load32 buf off <= 4294967295.
Proof.
  unfold load32. pose proof (load16_range buf off).
  pose proof (load16_range buf (off + 2)). lia.
Qed.

Lemma store8_length buf off v : length (store8 buf off v) = length buf.
Proof. apply length_insert. Qed.

Lemma store16_length buf off v : length (store16 buf off v) = length buf.
Proof. unfold store16. now rewrite !store8_length. Qed.

Lemma load8_store8_eq buf off v :
  0 <= off -> (Z.to_nat off < length buf)%nat ->
  load8 (store8 buf off v) off = v mod 256.
Proof.
  intros H0 Hlen. unfold load8, store8.
  rewrite list_lookup_total_insert_eq by assumption. apply byte_val_of.
Qed.

Lemma load8_store8_ne buf off off' v :
  0 <= off -> 0 <= off' -> off <> off' ->
  load8 (store8 buf off v) off' = load8 buf off'.
Proof.
  intros H0 H0' Hne. unfold load8, store8.
  rewrite list_lookup_total_insert_ne; [reflexivity|]. lia.
Qed.

Lemma load16_store16_eq buf off v :
  0 <= off -> (Z.to_nat off + 1 < length buf)%nat ->
  load16 (store16 buf off v) off = v mod 65536.
Proof.
  intros H0 Hlen. unfold load16, store16.
  rewrite load8_store8_ne by lia.
  rewrite load8_store8_eq by lia.
  rewrite load8_store8_eq by (rewrite ?store8_length; lia).
  rewrite Z.shiftr_div_pow2 by lia. change (2 ^ 8) with 256.
  Z.div_mod_to_equations. lia.
Qed.

Lemma load8_store16_ne buf off off' v :
  0 <= off -> 0 <= off' -> off' <> off -> off' <> off + 1 ->
  load8 (store16 buf off v) off' = load8 buf off'.
Proof.
  intros. unfold store16. rewrite !load8_store8_ne by lia. reflexivity.
Qed.

Lemma load16_store16_ne buf off off' v :
  0 <= off -> 0 <= off' -> off' + 2 <= off \/ off + 2 <= off' ->
  load16 (store16 buf off v) off' = load16 buf off'.
Proof.
  intros. unfold load16. rewrite !load8_store16_ne by lia. reflexivity.
Qed.

(** ** The checksum *)

Lemma sum16_range buf off k : 0 <= sum16 buf off k <= 65535 * Z.of_nat k.
Proof.
  revert off. induction k as [|k IH]; intros off; cbn [sum16]; [lia|].
  pose proof (load16_range buf off). specialize (IH (off + 2)). lia.
Qed.

Lemma sum16_store16_after buf c v off k :
  0 <= c -> c + 2 <= off ->
  sum16 (store16 buf c v) off k = sum16 buf off k.
Proof.
  intros Hc. revert off. induction k as [|k IH]; intros off Hoff; cbn [sum16].
  - reflexivity.
  - rewrite load16_store16_ne by lia. rewrite IH by lia. reflexivity.
Qed.

(** Storing a word at an even distance inside the summed range replaces
    its contribution to the sum. *)
Lemma sum16_store16_inside buf v off k j :
  0 <= off -> (j < k)%nat ->
  (Z.to_nat (off + 2 * Z.of_nat j) + 1 < length buf)%nat ->
  sum16 (store16 buf (off + 2 * Z.of_nat j) v) off k
  = sum16 buf off k - load16 buf (off + 2 * Z.of_nat j) + v mod 65536.
Proof.
  revert off j. induction k as [|k IH]; intros off j Hoff Hj Hlen; [lia|].
  cbn [sum16]. destruct j as [|j].
  - replace (off + 2 * Z.of_nat 0) with off in * by lia.
    rewrite load16_store16_eq by lia.
    rewrite sum16_store16_after by lia. lia.
  - replace (off + 2 * Z.of_nat (S j)) with (off + 2 + 2 * Z.of_nat j) in * by lia.
    rewrite load16_store16_ne by lia.
    rewrite IH by lia. lia.
Qed.

Lemma csum_while_spec buf fuel :
  forall off nbytes sum,
    0 <= nbytes <= INT_MAX -> (Z.to_nat nbytes <= fuel)%nat ->
    0 <= sum -> sum + 65535 * (nbytes / 2) < 2 ^ 63 ->
    csum_while fuel buf off nbytes sum
    = (off + 2 * (nbytes / 2), nbytes mod 2,
       sum + sum16 buf off (Z.to_nat (nbytes / 2))).
Proof.
  induction fuel as [|fuel IH]; intros off nbytes sum Hn Hfuel Hsum Hbound.
  - assert (nbytes = 0) as -> by lia. cbn [csum_while].
    change (0 / 2) with 0. change (0 mod 2) with 0.
    change (Z.to_nat 0) with 0%nat. cbn [sum16].
    f_equal; [f_equal|]; lia.
  - cbn [csum_while]. destruct (Z.gtb_spec nbytes 1) as [Hgt|Hle].
    + pose proof (load16_range buf off) as Hw.
      assert (Hdiv : (nbytes - 2) / 2 = nbytes / 2 - 1)
        by (Z.div_mod_to_equations; lia).
      assert (Hmod : (nbytes - 2) mod 2 = nbytes mod 2)
        by (Z.div_mod_to_equations; lia).
      assert (Hpos : 1 <= nbytes / 2) by (Z.div_mod_to_equations; lia).
      rewrite (to_int_small (nbytes - 2)) by (unfold INT_MIN, INT_MAX in *; lia).
      rewrite to_long_small by lia.
      rewrite IH by (rewrite ?Hdiv; lia).
      rewrite Hdiv, Hmod.
      replace (Z.to_nat (nbytes / 2)) with (S (Z.to_nat (nbytes / 2 - 1))) by lia.
      cbn [sum16]. f_equal; [f_equal|]; lia.
    + assert (Hd : nbytes / 2 = 0) by (Z.div_mod_to_equations; lia).
      assert (Hm : nbytes mod 2 = nbytes) by (Z.div_mod_to_equations; lia).
      rewrite Hd, Hm. change (Z.to_nat 0) with 0%nat. cbn [sum16].
      f_equal; [f_equal|]; lia.
Qed.

Lemma to_ushort_wrap_signed x : to_ushort (wrap_signed 16 x) = x mod 65536.
Proof.
  unfold to_ushort, wrap_unsigned, wrap_signed.
  change (2 ^ (16 - 1)) with 32768. change (2 ^ 16) with 65536.
  rewrite Zminus_mod_idemp_l. f_equal. lia.
Qed.

(** [csum] over an even number of bytes, small enough for the two folds to
    absorb every carry, is [csum_fold] of the sum of the words. *)
Lemma csum_even buf nbytes :
  0 <= nbytes <= 131070 -> nbytes mod 2 = 0 ->
  csum buf nbytes = csum_fold (sum16 buf 0 (Z.to_nat (nbytes / 2))).
Proof.
  intros Hn Heven. unfold csum.
  assert (Hdiv : 0 <= nbytes / 2 <= 65535) by (Z.div_mod_to_equations; lia).
  rewrite csum_while_spec; try (unfold INT_MAX; lia).
  rewrite Heven. cbn [Z.eqb]. cbv zeta. rewrite Z.add_0_l.
  pose proof (sum16_range buf 0 (Z.to_nat (nbytes / 2))) as Hs.
  set (S0 := sum16 buf 0 (Z.to_nat (nbytes / 2))) in *.
  assert (HS0 : 0 <= S0 < 2 ^ 32) by lia.
  unfold csum_fold. rewrite to_ushort_wrap_signed.
  set (X := Z.shiftr S0 16 + Z.land S0 65535).
  assert (HX : 0 <= X < 131072).
  { subst X. rewrite Z.shiftr_div_pow2 by lia. change 65535 with (Z.ones 16).
    rewrite Z.land_ones by lia. change (2 ^ 16) with 65536.
    change (2 ^ 32) with 4294967296 in HS0. Z.div_mod_to_equations. lia. }
  assert (HX' : 0 <= Z.shiftr X 16 <= 1).
  { rewrite Z.shiftr_div_pow2 by lia. change (2 ^ 16) with 65536.
    Z.div_mod_to_equations. lia. }
  change (2 ^ 63) with 9223372036854775808 in *.
  rewrite (to_long_small X) by (change (2 ^ 63) with 9223372036854775808; lia).
  rewrite to_long_small by (change (2 ^ 63) with 9223372036854775808; lia).
  reflexivity.
Qed.

(** The folded sum is the one's complement of a representative of the sum
    modulo 65535, and that representative is zero only for a zero sum. *)
Lemma csum_fold_spec S0 :
  0 <= S0 < 2 ^ 32 ->
  exists f k, csum_fold S0 = 65535 - f /\ 0 <= f <= 65535 /\ 0 <= k
              /\ S0 = 65535 * k + f /\ (f = 0 -> S0 = 0).
Proof.
  intros HS. change (2 ^ 32) with 4294967296 in HS. unfold csum_fold.
  rewrite (Z.shiftr_div_pow2 S0) by lia.
  change (Z.land S0 65535) with (Z.land S0 (Z.ones 16)).
  rewrite Z.land_ones by lia.
  rewrite Z.shiftr_div_pow2 by lia. change (2 ^ 16) with 65536.
  unfold Z.lnot, Z.pred.
  set (hi := S0 / 65536). set (lo := S0 mod 65536).
  assert (Hhi : 0 <= hi < 65536) by (subst hi; Z.div_mod_to_equations; lia).
  assert (Hlo : 0 <= lo < 65536) by (subst lo; Z.div_mod_to_equations; lia).
  assert (HS0 : S0 = 65536 * hi + lo) by (subst hi lo; Z.div_mod_to_equations; lia).
  destruct (Z.ltb_spec (hi + lo) 65536) as [Hlt|Hge].
  - exists (hi + lo), hi.
    rewrite (Z.div_small (hi + lo)) by lia. rewrite Z.add_0_r.
    split; [|lia].
    symmetry. apply (Z.mod_unique_pos _ _ (-1)); lia.
  - exists (hi + lo - 65535), (hi + 1).
    assert (Hd : (hi + lo) / 65536 = 1) by (Z.div_mod_to_equations; lia).
    rewrite Hd. split; [|lia].
    symmetry. apply (Z.mod_unique_pos _ _ (-2)); lia.
Qed.

(** Adding its own checksum to a sum brings the checksum to zero. *)
Lemma csum_fold_roundtrip S0 :
  0 <= S0 -> S0 + 65535 < 2 ^ 32 -> csum_fold (S0 + csum_fold S0) = 0.
Proof.
  intros H0 Hb. change (2 ^ 32) with 4294967296 in Hb.
  destruct (csum_fold_spec S0) as (f & k & Hc & Hf & Hk & HS & Hz);
    [change (2 ^ 32) with 4294967296; lia|].
  rewrite Hc.
  destruct (csum_fold_spec (S0 + (65535 - f))) as (f' & k' & Hc' & Hf' & Hk' & HS' & Hz');
    [change (2 ^ 32) with 4294967296; lia|].
  rewrite Hc'.
  assert (f' <> 0) by (intros E; specialize (Hz' E); lia).
  assert (f' = 65535); [|lia].
  assert (E : 65535 * (k + 1 - k') = f') by lia.
  assert (k + 1 - k' = 1) by nia. lia.
Qed.

Lemma bitfield_low b width :
  0 <= width -> bitfield b 0 width = b mod 2 ^ width.
Proof.
  intros Hw. unfold bitfield. rewrite Z.shiftr_0_r. now apply Z.land_ones.
Qed.

Lemma bitfield_range b lo width :
  0 <= width -> 0 <= bitfield b lo width < 2 ^ width.
Proof.
  intros Hw. unfold bitfield. rewrite Z.land_ones by assumption.
  apply Z.mod_pos_bound. now apply Z.pow_pos_nonneg.
Qed.

Lemma ihl_range buf p : 0 <= iphdr.ihl buf p <= 15.
Proof.
  unfold iphdr.ihl. pose proof (bitfield_range (load8 buf p) 0 4).
  change (2 ^ 4) with 16 in *. lia.
Qed.

Lemma ihl_set_check buf v : iphdr.ihl (iphdr.set_check buf 0 v) 0 = iphdr.ihl buf 0.
Proof.
  unfold iphdr.ihl, iphdr.set_check. now rewrite load8_store16_ne by lia.
Qed.

Lemma csum_fold_range S0 : 0 <= csum_fold S0 < 65536.
Proof. unfold csum_fold. now apply Z.mod_pos_bound. Qed.

(** Filling in the checksum field of a range of words makes the range sum
    to a zero checksum. *)
Lemma csum_fill buf j nbytes :
  0 <= nbytes <= 131068 -> nbytes mod 2 = 0 ->
  0 <= j -> 2 * j + 2 <= nbytes ->
  (Z.to_nat nbytes <= length buf)%nat ->
  load16 buf (2 * j) = 0 ->
  csum (store16 buf (2 * j) (csum buf nbytes)) nbytes = 0.
Proof.
  intros Hn Heven Hj Hjn Hlen Hzero.
  assert (Hk : 0 <= nbytes / 2 <= 65534) by (Z.div_mod_to_equations; lia).
  assert (Hjk : j < nbytes / 2) by (Z.div_mod_to_equations; lia).
  rewrite !csum_even by lia.
  set (k := Z.to_nat (nbytes / 2)).
  pose proof (sum16_range buf 0 k) as Hs.
  replace (2 * j) with (0 + 2 * Z.of_nat (Z.to_nat j)) by lia.
  rewrite sum16_store16_inside by lia.
  replace (0 + 2 * Z.of_nat (Z.to_nat j)) with (2 * j) by lia.
  rewrite Hzero, Z.sub_0_r.
  rewrite (Z.mod_small (csum_fold _)) by apply csum_fold_range.
  apply csum_fold_roundtrip; [lia|].
  change (2 ^ 32) with 4294967296. lia.
Qed.

(** C7. For a buffer that holds an IPv4 header with a valid [ihl] (five
    words at least) entirely: after [h->check = 0] and then
    [h->check = csum(h, ihl*4)], [csum(h, ihl*4)] is 0. *)
Theorem ip_checksum_roundtrip (h : list byte) :
  5 <= iphdr.ihl h 0 ->
  (Z.to_nat (iphdr.ihl h 0 * 4) <= length h)%nat ->
  let h0 := iphdr.set_check h 0 0 in
  let h1 := iphdr.set_check h0 0 (csum h0 (iphdr.ihl h0 0 * 4)) in
  csum h1 (iphdr.ihl h1 0 * 4) = 0.
Proof.
  intros Hihl Hlen h0 h1. pose proof (ihl_range h 0) as Hr.
  subst h1. rewrite !ihl_set_check. subst h0. rewrite ihl_set_check.
  unfold iphdr.set_check. change (0 + 10) with (2 * 5).
  apply csum_fill; try lia.
  - Z.div_mod_to_equations. lia.
  - rewrite store16_length. lia.
  - change (2 * 5) with 10. rewrite load16_store16_eq by lia. reflexivity.
Qed.

Lemma ip_checksum_roundtrip_witness :
  5 <= iphdr.ihl (p_data ex_ack) 0
  /\ csum (iphdr.set_check (iphdr.set_check (p_data ex_ack) 0 0) 0
             (csum (iphdr.set_check (p_data ex_ack) 0 0) 20)) 20 = 0.
Proof.
  assert (H1 : 5 <= iphdr.ihl (p_data ex_ack) 0) by (vm_compute; discriminate).
  assert (H2 : (Z.to_nat (iphdr.ihl (p_data ex_ack) 0 * 4)
                <= length (p_data ex_ack))%nat) by (vm_compute; lia).
  split; [exact H1|].
  exact (ip_checksum_roundtrip (p_data ex_ack) H1 H2).
Defined.

(** ** Byte order *)

Lemma bswap16_range x : 0 <= bswap16 x <= 65535.
Proof. unfold bswap16. Z.div_mod_to_equations. lia. Qed.

Lemma bswap16_involutive x : 0 <= x <= 65535 -> bswap16 (bswap16 x) = x.
Proof. intros H. unfold bswap16. Z.div_mod_to_equations. lia. Qed.

Lemma bswap32_range x : 0 <= bswap32 x <= 4294967295.
Proof.
  unfold bswap32. pose proof (bswap16_range (x mod 65536)).
  pose proof (bswap16_range ((x / 65536) mod 65536)). lia.
Qed.

Lemma bswap32_involutive x : 0 <= x <= 4294967295 -> bswap32 (bswap32 x) = x.
Proof.
  intros H. unfold bswap32.
  pose proof (bswap16_range (x mod 65536)) as H1.
  pose proof (bswap16_range ((x / 65536) mod 65536)) as H2.
  set (lo := bswap16 (x mod 65536)) in *.
  set (hi := bswap16 ((x / 65536) mod 65536)) in *.
  replace ((lo * 65536 + hi) mod 65536) with hi by (Z.div_mod_to_equations; lia).
  replace (((lo * 65536 + hi) / 65536) mod 65536) with lo
    by (Z.div_mod_to_equations; lia).
  subst lo hi. rewrite !bswap16_involutive by (Z.div_mod_to_equations; lia).
  Z.div_mod_to_equations. lia.
Qed.

(** ** The packet codec *)

Lemma flag_range b lo : bitfield b lo 1 = 0 \/ bitfield b lo 1 = 1.
Proof.
  pose proof (bitfield_range b lo 1). change (2 ^ 1) with 2 in *. lia.
Qed.

Lemma doff_range buf p : 0 <= tcphdr.doff buf p <= 15.
Proof.
  unfold tcphdr.doff. pose proof (bitfield_range (load8 buf (p + 12)) 4 4).
  change (2 ^ 4) with 16 in *. lia.
Qed.

Lemma iphdrlen_exact buf : to_ushort (iphdr.ihl buf 0 * 4) = iphdr.ihl buf 0 * 4.
Proof. pose proof (ihl_range buf 0). apply to_ushort_small. lia. Qed.

(** The payload size that [CheckPureTCPAck] computes in [unsigned int] is
    zero exactly when the integer it stands for is zero. *)
Lemma payload_size_zero tot ihl doff :
  0 <= tot <= 65535 -> 0 <= ihl <= 15 -> 0 <= doff <= 15 ->
  (to_uint (to_uint (tot - to_uint (to_uint ihl * 4)) - to_uint (to_uint doff * 4)) = 0
   <-> tot - ihl * 4 - doff * 4 = 0).
Proof.
  intros Ht Hi Hd. unfold UINT_MAX in *.
  rewrite (to_uint_small ihl), (to_uint_small doff) by (unfold UINT_MAX; lia).
  rewrite (to_uint_small (ihl * 4)), (to_uint_small (doff * 4))
    by (unfold UINT_MAX; lia).
  unfold to_uint, wrap_unsigned. change (2 ^ 32) with 4294967296.
  rewrite Zminus_mod_idemp_l. split.
  - intros H. Z.div_mod_to_equations. lia.
  - intros H. replace (tot - ihl * 4 - doff * 4) with 0 by lia. reflexivity.
Qed.

(** C6. [CheckPureTCPAck] returns 1 exactly for a buffer whose IPv4
    protocol is 6 and whose TCP header (found [ihl] words into the buffer)
    has ACK set, URG, PSH, RST, SYN and FIN clear, and leaves no payload:
    [tot_len - ihl*4 - doff*4 = 0]; for every other buffer it returns 0. *)
Theorem CheckPureTCPAck_spec (buffer : list byte) :
  let tcph := iphdr.ihl buffer 0 * 4 in
  (CheckPureTCPAck buffer = 1 <->
     iphdr.protocol buffer 0 = 6
     /\ tcphdr.ack buffer tcph = 1
     /\ tcphdr.urg buffer tcph = 0
     /\ tcphdr.psh buffer tcph = 0
     /\ tcphdr.rst buffer tcph = 0
     /\ tcphdr.syn buffer tcph = 0
     /\ tcphdr.fin buffer tcph = 0
     /\ ntohs (iphdr.tot_len buffer 0)
        - iphdr.ihl buffer 0 * 4 - tcphdr.doff buffer tcph * 4 = 0)
  /\ (CheckPureTCPAck buffer <> 1 -> CheckPureTCPAck buffer = 0).
Proof.
  intros tcph. unfold CheckPureTCPAck. rewrite iphdrlen_exact. fold tcph.
  pose proof (ihl_range buffer 0) as Hihl.
  pose proof (doff_range buffer tcph) as Hdoff.
  pose proof (bswap16_range (iphdr.tot_len buffer 0)) as Htot.
  pose proof (payload_size_zero _ _ _ Htot Hihl Hdoff) as Hpay.
  unfold ntohs in *.
  set (payload := to_uint (to_uint (bswap16 (iphdr.tot_len buffer 0)
                                    - to_uint (to_uint (iphdr.ihl buffer 0) * 4))
                           - to_uint (to_uint (tcphdr.doff buffer tcph) * 4))) in *.
  unfold tcphdr.ack, tcphdr.urg, tcphdr.psh, tcphdr.rst, tcphdr.syn, tcphdr.fin.
  set (flags := load8 buffer (tcph + 13)).
  destruct (Z.eqb_spec (iphdr.protocol buffer 0) 6) as [Hp|Hp];
    [|split; [split; [discriminate|tauto]|reflexivity]].
  assert (Hu : forall lo, to_uint (bitfield flags lo 1) = bitfield flags lo 1).
  { intros lo. apply to_uint_small.
    destruct (flag_range flags lo) as [-> | ->]; unfold UINT_MAX; lia. }
  rewrite !Hu.
  destruct (flag_range flags 4) as [-> | ->];
    destruct (flag_range flags 5) as [-> | ->];
    destruct (flag_range flags 3) as [-> | ->];
    destruct (flag_range flags 2) as [-> | ->];
    destruct (flag_range flags 1) as [-> | ->];
    destruct (flag_range flags 0) as [-> | ->];
    cbn [Z.eqb Pos.eqb];
    try (split; [split; [discriminate|intros; lia]|reflexivity]).
  destruct (Z.eqb_spec payload 0) as [E|E].
  - split; [|intros H; now contradiction H]. split; [intros _|reflexivity].
    repeat split; try reflexivity; try assumption. now apply Hpay.
  - split; [|reflexivity]. split; [discriminate|].
    intros H. exfalso. apply E, Hpay. tauto.
Qed.

(** ** Fabrication of a duplicate ACK *)

Lemma sum16_ext buf1 buf2 k :
  forall off,
    (forall i, off <= i < off + 2 * Z.of_nat k -> load8 buf1 i = load8 buf2 i) ->
    sum16 buf1 off k = sum16 buf2 off k.
Proof.
  induction k as [|k IH]; intros off H; cbn [sum16]; [reflexivity|].
  unfold load16. rewrite (H off), (H (off + 1)) by lia.
  rewrite (IH (off + 2)); [reflexivity|]. intros i Hi. apply H. lia.
Qed.

Lemma sum16_zero buf k :
  forall off,
    (forall i, off <= i < off + 2 * Z.of_nat k -> load8 buf i = 0) ->
    sum16 buf off k = 0.
Proof.
  induction k as [|k IH]; intros off H; cbn [sum16]; [reflexivity|].
  unfold load16. rewrite (H off), (H (off + 1)) by lia.
  rewrite (IH (off + 2)); [reflexivity|]. intros i Hi. apply H. lia.
Qed.

Lemma sum16_split buf k1 k2 :
  forall off,
    sum16 buf off (k1 + k2)
    = sum16 buf off k1 + sum16 buf (off + 2 * Z.of_nat k1) k2.
Proof.
  induction k1 as [|k1 IH]; intros off.
  - cbn [sum16 Nat.add]. replace (off + 2 * Z.of_nat 0) with off by lia. lia.
  - cbn [sum16 Nat.add]. rewrite IH. replace (off + 2 + 2 * Z.of_nat k1)
      with (off + 2 * Z.of_nat (S k1)) by lia. lia.
Qed.

Lemma csum_ext buf1 buf2 nbytes :
  0 <= nbytes <= 131070 -> nbytes mod 2 = 0 ->
  (forall i, 0 <= i < nbytes -> load8 buf1 i = load8 buf2 i) ->
  csum buf1 nbytes = csum buf2 nbytes.
Proof.
  intros Hn Heven H. rewrite !csum_even by assumption. f_equal.
  apply sum16_ext. intros i Hi. apply H.
  assert (0 <= nbytes / 2) by (Z.div_mod_to_equations; lia).
  assert (2 * (nbytes / 2) = nbytes) by (Z.div_mod_to_equations; lia). lia.
Qed.

(** Case analysis on an offset that lies in a small interval. *)
Lemma in_range_cases (P : Z -> Prop) (n : nat) :
  (forall k, (k < n)%nat -> P (Z.of_nat k)) ->
  forall i, 0 <= i < Z.of_nat n -> P i.
Proof.
  intros H i Hi. replace i with (Z.of_nat (Z.to_nat i)) by lia. apply H. lia.
Qed.

Lemma below_cases (P : nat -> Prop) (n : nat) :
  Forall P (seq 0 n) -> forall k, (k < n)%nat -> P k.
Proof.
  intros H k Hk. rewrite Forall_forall in H. apply H. apply elem_of_seq. lia.
Qed.

Lemma create_dupack_stages pkt plus timestamp :
  create_dupack pkt plus timestamp
  = tcphdr.set_check (dupack_tcp_stage pkt plus timestamp) 20
      (csum (dupack_pseudogram pkt plus timestamp) 44).
Proof.
  unfold create_dupack, dupack_pseudogram, dupack_tcp_stage, dupack_ip_stage.
  cbv zeta.
  unfold iphdr.sizeof, tcphdr.sizeof, tshdr.sizeof, pseudo_header.sizeof.
  change (20 + 20 + 12) with 52. change (20 + 20) with 40.
  change (12 + 20 + 12) with 44. change (12 + 20) with 32. change (20 + 12) with 32.
  reflexivity.
Qed.
Ltac each_offset n :=
  apply (in_range_cases _ n); apply below_cases; cbn [seq];
  repeat (constructor;
          [lazy -[csum byte_of byte_val bswap16 bswap32 to_int to_ushort to_uint];
           reflexivity|]);
  constructor.

Lemma word16_bytes v :
  byte_val (byte_of v) + 256 * byte_val (byte_of (Z.shiftr v 8)) = v mod 65536.
Proof.
  rewrite !byte_val_of, Z.shiftr_div_pow2 by lia. change (2 ^ 8) with 256.
  Z.div_mod_to_equations. lia.
Qed.

Lemma to_ushort_to_int x : to_ushort (to_int x) = to_ushort x.
Proof.
  unfold to_ushort, to_int, wrap_unsigned, wrap_signed.
  change (2 ^ (32 - 1)) with 2147483648. change (2 ^ 32) with (65536 * 65536).
  change (2 ^ 16) with 65536.
  rewrite <- (Zminus_mod_idemp_l ((x + 2147483648) mod (65536 * 65536))).
  rewrite Z.mod_mod_divide by (exists 65536; lia).
  rewrite Zminus_mod_idemp_l. f_equal. lia.
Qed.

(** The fabricated packet has the size of the three structures. *)
Lemma create_dupack_length pkt plus timestamp :
  length (create_dupack pkt plus timestamp)
  = Z.to_nat (iphdr.sizeof + tcphdr.sizeof + tshdr.sizeof).
Proof. reflexivity. Qed.

(** It carries the bytes of the template everywhere but in the IP [id] and
    [check], the TCP [check] and the option's [sts]. *)
Lemma create_dupack_copied pkt plus timestamp :
  let d := create_dupack pkt plus timestamp in
  iphdr.ihl d 0 = iphdr.ihl pkt 0
  /\ iphdr.version d 0 = iphdr.version pkt 0
  /\ iphdr.tot_len d 0 = iphdr.tot_len pkt 0
  /\ iphdr.protocol d 0 = iphdr.protocol pkt 0
  /\ iphdr.saddr d 0 = iphdr.saddr pkt 0
  /\ iphdr.daddr d 0 = iphdr.daddr pkt 0
  /\ tcphdr.source d 20 = tcphdr.source pkt 20
  /\ tcphdr.dest d 20 = tcphdr.dest pkt 20
  /\ tcphdr.seq d 20 = tcphdr.seq pkt 20
  /\ tcphdr.ack_seq d 20 = tcphdr.ack_seq pkt 20
  /\ load8 d 32 = load8 pkt 32
  /\ load8 d 33 = load8 pkt 33
  /\ tshdr.ets d 40 = tshdr.ets pkt 40.
Proof. repeat split; reflexivity. Qed.

Lemma create_dupack_id pkt plus timestamp :
  ntohs (iphdr.id (create_dupack pkt plus timestamp) 0)
  = (ntohs (iphdr.id pkt 0) + plus) mod 65536.
Proof.
  change (iphdr.id (create_dupack pkt plus timestamp) 0)
    with (let idv := htons (to_ushort (to_int (ntohs (iphdr.id pkt 0) + to_int plus))) in
          byte_val (byte_of idv) + 256 * byte_val (byte_of (Z.shiftr idv 8))).
  cbv zeta. rewrite word16_bytes. unfold htons, ntohs.
  rewrite (Z.mod_small (bswap16 _)) by (pose proof (bswap16_range
    (to_ushort (to_int (bswap16 (iphdr.id pkt 0) + to_int plus)))); lia).
  rewrite bswap16_involutive by apply to_ushort_range.
  rewrite (Z.add_comm _ (to_int plus)), to_int_add_l, to_ushort_to_int.
  unfold to_ushort, wrap_unsigned. f_equal. lia.
Qed.

Lemma word32_bytes v :
  load32 (store32 (zeroed 4) 0 v) 0 = v mod 4294967296.
Proof.
  change (load32 (store32 (zeroed 4) 0 v) 0)
    with ((byte_val (byte_of v) + 256 * byte_val (byte_of (Z.shiftr v 8)))
          + 65536 * (byte_val (byte_of (Z.shiftr v 16))
                     + 256 * byte_val (byte_of (Z.shiftr (Z.shiftr v 16) 8)))).
  rewrite !word16_bytes, Z.shiftr_div_pow2 by lia. change (2 ^ 16) with 65536.
  Z.div_mod_to_equations. lia.
Qed.

Lemma create_dupack_sts pkt plus timestamp :
  ntohl (tshdr.sts (create_dupack pkt plus timestamp) 40) = to_uint timestamp.
Proof.
  change (tshdr.sts (create_dupack pkt plus timestamp) 40)
    with (load32 (store32 (zeroed 4) 0 (htonl (to_uint timestamp))) 0).
  rewrite word32_bytes. unfold htonl, ntohl.
  rewrite (Z.mod_small (bswap32 _))
    by (pose proof (bswap32_range (to_uint timestamp)); lia).
  apply bswap32_involutive. pose proof (to_uint_range timestamp).
  unfold UINT_MAX in *. lia.
Qed.

(** The IP checksum: computed over the 52 bytes of [dpkt] while only its
    first 20 are filled in, it is the checksum of the 20-byte header. *)
Lemma create_dupack_ip_checksum pkt plus timestamp :
  csum (create_dupack pkt plus timestamp) iphdr.sizeof = 0.
Proof.
  set (X := dupack_ip_stage pkt plus).
  assert (Hfinal : csum (create_dupack pkt plus timestamp) 20
                   = csum (store16 X 10 (csum X 52)) 20).
  { apply csum_ext; [lia|reflexivity|]. subst X. each_offset 20%nat. }
  assert (Htail : csum X 52 = csum X 20).
  { rewrite !csum_even by (reflexivity || lia).
    change (Z.to_nat (52 / 2)) with (10 + 16)%nat.
    change (Z.to_nat (20 / 2)) with 10%nat.
    rewrite sum16_split.
    rewrite (sum16_zero X 16); [now rewrite Z.add_0_r|].
    intros i Hi. replace i with (20 + (i - 20)) by lia.
    generalize (i - 20) (ltac:(lia) : 0 <= i - 20 < Z.of_nat 32).
    subst X. each_offset 32%nat. }
  change iphdr.sizeof with 20. rewrite Hfinal, Htail.
  assert (Hlen : length X = 52%nat) by reflexivity.
  assert (Hzero : load16 X (2 * 5) = 0) by (vm_compute; reflexivity).
  change 10 with (2 * 5). apply csum_fill; first [assumption | lia | reflexivity].
Qed.

(** The TCP checksum: the checksum of the pseudo header for a 32-byte
    segment followed by the 32 bytes that follow the IP header is zero. *)
Lemma create_dupack_tcp_checksum pkt plus timestamp :
  csum (tcp_checked_bytes_at (create_dupack pkt plus timestamp) IPPROTO_TCP
          iphdr.sizeof (tcphdr.sizeof + tshdr.sizeof))
       (pseudo_header.sizeof + tcphdr.sizeof + tshdr.sizeof) = 0.
Proof.
  set (P := dupack_pseudogram pkt plus timestamp).
  assert (Hfinal : csum (tcp_checked_bytes_at (create_dupack pkt plus timestamp)
                           IPPROTO_TCP 20 32) 44
                   = csum (store16 P 28 (csum P 44)) 44).
  { apply csum_ext; [lia|reflexivity|]. subst P. each_offset 44%nat. }
  change (pseudo_header.sizeof + tcphdr.sizeof + tshdr.sizeof) with 44.
  change iphdr.sizeof with 20. change (tcphdr.sizeof + tshdr.sizeof) with 32.
  rewrite Hfinal.
  assert (Hlen : length P = 44%nat) by reflexivity.
  assert (Hzero : load16 P (2 * 14) = 0) by (vm_compute; reflexivity).
  change 28 with (2 * 14). apply csum_fill; first [assumption | lia | reflexivity].
Qed.

(** ** The scheduler *)

Lemma clamp0_nonneg r : 0 <= clamp0 r.
Proof. unfold clamp0. destruct (Z.ltb_spec r 0); lia. Qed.

Lemma clamp0_max r : clamp0 r = Z.max 0 r.
Proof. unfold clamp0. destruct (Z.ltb_spec r 0); lia. Qed.


(** C8. With [remain_tap] and [remain_sock] the remaining times of the two
    deadlines clamped at zero, and a deadline absent when its [tv_sec] is -1
    and present when its [tv_sec] is not negative: with both absent the wait
    is given no timeout; with one present the timeout is the clamped
    remaining time of that one; with both present it is the smaller of the
    two, and [which] is 1 (Qtap) when Qtap's is strictly smaller and 2 (Qsock)
    otherwise. *)
Theorem io_timeout_decision (qtap_next qsock_next start_tv : timeval)
    (s0 : schedule) :
  let s := io_timeout_schedule qtap_next qsock_next start_tv s0 in
  let remain_tap := clamp0 (remain_usec qtap_next start_tv) in
  let remain_sock := clamp0 (remain_usec qsock_next start_tv) in
  0 <= remain_tap /\ 0 <= remain_sock
  /\ (tv_sec qtap_next = -1 -> tv_sec qsock_next = -1 ->
      select_timeout s = None)
  /\ (tv_sec qtap_next = -1 -> 0 <= tv_sec qsock_next ->
      select_timeout s = Some {| tv_sec := 0; tv_usec := remain_sock |}
      /\ which s = 2)
  /\ (0 <= tv_sec qtap_next -> tv_sec qsock_next = -1 ->
      select_timeout s = Some {| tv_sec := 0; tv_usec := remain_tap |}
      /\ which s = 1)
  /\ (0 <= tv_sec qtap_next -> 0 <= tv_sec qsock_next ->
      select_timeout s
      = Some {| tv_sec := 0; tv_usec := Z.min remain_tap remain_sock |}
      /\ which s = (if remain_tap <? remain_sock then 1 else 2)).
Proof.
  intros s remain_tap remain_sock. subst s. unfold io_timeout_schedule.
  fold remain_tap remain_sock.
  split; [apply clamp0_nonneg|]. split; [apply clamp0_nonneg|].
  repeat split.
  - intros -> ->. reflexivity.
  - rewrite H. destruct (Z.geb_spec (tv_sec qsock_next) 0); [|lia].
    destruct (Z.eqb_spec (tv_sec qsock_next) (-1)); [lia|]. reflexivity.
  - rewrite H. destruct (Z.geb_spec (tv_sec qsock_next) 0); [|lia].
    destruct (Z.eqb_spec (tv_sec qsock_next) (-1)); [lia|]. reflexivity.
  - rewrite H0. destruct (Z.geb_spec (tv_sec qtap_next) 0); [|lia].
    destruct (Z.eqb_spec (tv_sec qtap_next) (-1)); [lia|]. reflexivity.
  - rewrite H0. destruct (Z.geb_spec (tv_sec qtap_next) 0); [|lia].
    destruct (Z.eqb_spec (tv_sec qtap_next) (-1)); [lia|]. reflexivity.
  - destruct (Z.geb_spec (tv_sec qtap_next) 0); [|lia].
    destruct (Z.geb_spec (tv_sec qsock_next) 0); [|lia].
    rewrite !andb_true_r. cbn [andb].
    destruct (Z.ltb_spec remain_tap remain_sock).
    + rewrite Z.min_l by lia. reflexivity.
    + rewrite Z.min_r by lia. reflexivity.
  - destruct (Z.geb_spec (tv_sec qtap_next) 0); [|lia].
    destruct (Z.geb_spec (tv_sec qsock_next) 0); [|lia].
    rewrite !andb_true_r. cbn [andb].
    destruct (Z.ltb_spec remain_tap remain_sock); reflexivity.
Qed.

Lemma io_timeout_decision_witness :
  (select_timeout (io_timeout_schedule ex_no_deadline ex_no_deadline ex_now ex_locals)
   = None)
  /\ (select_timeout (io_timeout_schedule ex_no_deadline ex_qsock_due ex_now ex_locals)
      = Some {| tv_sec := 0; tv_usec := 10000 |})
  /\ (select_timeout (io_timeout_schedule ex_qtap_due ex_no_deadline ex_now ex_locals)
      = Some {| tv_sec := 0; tv_usec := 30000 |})
  /\ (select_timeout (io_timeout_schedule ex_qtap_due ex_qsock_due ex_now ex_locals)
      = Some {| tv_sec := 0; tv_usec := 10000 |}
      /\ which (io_timeout_schedule ex_qtap_due ex_qsock_due ex_now ex_locals) = 2).
Proof.
  split; [|split; [|split]].
  - apply (io_timeout_decision ex_no_deadline ex_no_deadline ex_now ex_locals);
      reflexivity.
  - apply (io_timeout_decision ex_no_deadline ex_qsock_due ex_now ex_locals);
      [reflexivity|vm_compute; discriminate].
  - apply (io_timeout_decision ex_qtap_due ex_no_deadline ex_now ex_locals);
      [vm_compute; discriminate|reflexivity].
  - apply (io_timeout_decision ex_qtap_due ex_qsock_due ex_now ex_locals);
      vm_compute; discriminate.
Defined.

(** ** The event loop *)

(** reduce the projections of updated states *)
Ltac state_simpl :=
  cbn [Qsock Qtap next_pkt_out g_timeout trigger_seq dupack in_backward_cc
       pkt_count tap2net tap_fd_writes net_fd_writes freed
       with_Qsock with_Qtap with_next_pkt_out with_g_timeout with_trigger_seq
       with_dupack with_in_backward_cc with_pkt_count with_tap2net
       cwrite_tap cwrite_net free disable_qsock disable_qtap] in *.

Lemma to_uint_minus_one : to_uint (-1) = UINT_MAX.
Proof. reflexivity. Qed.

(** What [getACKSeq] yields once converted to [unsigned int] for the
    comparison with [trigger_seq]: the acknowledgement number when the ACK
    flag is set, the largest value otherwise. *)
Lemma getACKSeq_unsigned buffer :
  let tcph := iphdr.ihl buffer 0 * 4 in
  (tcphdr.ack buffer tcph = 1 ->
   to_uint (getACKSeq buffer) = ntohl (tcphdr.ack_seq buffer tcph))
  /\ (tcphdr.ack buffer tcph <> 1 -> to_uint (getACKSeq buffer) = UINT_MAX).
Proof.
  intros tcph. unfold getACKSeq. rewrite iphdrlen_exact. fold tcph. split.
  - intros ->. cbn [Z.eqb Pos.eqb]. rewrite to_uint_to_int.
    apply to_uint_small. apply bswap32_range.
  - intros H. destruct (Z.eqb_spec (tcphdr.ack buffer tcph) 1); [contradiction|].
    reflexivity.
Qed.

Lemma getTCPSeq_unsigned buffer :
  to_uint (getTCPSeq buffer)
  = ntohl (tcphdr.seq buffer (iphdr.ihl buffer 0 * 4)).
Proof.
  unfold getTCPSeq. rewrite iphdrlen_exact, to_uint_to_int.
  apply to_uint_small. apply bswap32_range.
Qed.

(** C9. With [trigger_seq] unset (holding [(unsigned)-1]), a packet read
    from the tap whose TCP sequence number is 2^32 - 1 makes [getTCPSeq]
    return -1, which equals [trigger_seq] once converted: the packet is
    freed, and Qtap is left as it was. *)
Theorem unset_trigger_drops_seq_all_ones (packet : packet_t) (nread : Z)
    (s : main_state) :
  trigger_seq s = to_uint (-1) ->
  ntohl (tcphdr.seq (p_data packet) (iphdr.ihl (p_data packet) 0 * 4))
  = 2 ^ 32 - 1 ->
  let s' := main_FDTAP_IN_RDY packet nread s in
  getTCPSeq (p_data packet) = -1
  /\ Qtap s' = Qtap s
  /\ freed s' = freed s ++ [set_length packet nread]
  /\ net_fd_writes s' = net_fd_writes s.
Proof.
  intros Hunset Hseq s'.
  assert (Hget : getTCPSeq (p_data packet) = -1).
  { unfold getTCPSeq. rewrite iphdrlen_exact, Hseq. reflexivity. }
  split; [exact Hget|].
  subst s'. unfold main_FDTAP_IN_RDY.
  change (p_data (set_length packet nread)) with (p_data packet).
  rewrite Hget.
  destruct (in_backward_cc (with_tap2net (to_ulong (tap2net s + 1)) s) =? -3);
    state_simpl; rewrite Hunset, Z.eqb_refl; state_simpl;
    destruct ((fullness (Qtap s) >? 20) && (in_backward_cc s =? -1));
    state_simpl; auto.
Qed.

(** C10. While the ACK template is awaited (phase 0, entered from phase -3
    at the top of the block), a packet dequeued from Qsock that is not a pure
    ACK leaves the block without a call of [cwrite], of [enqueue_packet] or of
    [free]: it has left Qsock, nothing was written to the tap, and no variable
    holds it any more. *)
Theorem ack_wait_loses_non_pure_ack (s : main_state) (packet : packet_t)
    (q : pktqueue_t) :
  in_backward_cc s = 0 \/ in_backward_cc s = -3 ->
  dequeue_packet (Qsock s) = (Some packet, q) ->
  CheckPureTCPAck (p_data packet) <> 1 ->
  let s' := main_FDTAP_OUT_OK s in
  tap_fd_writes s' = tap_fd_writes s
  /\ net_fd_writes s' = net_fd_writes s
  /\ Qsock s' = q
  /\ Qtap s' = Qtap s
  /\ freed s' = freed s
  /\ dupack s' = dupack s
  /\ in_backward_cc s' = 0
  /\ (queue_inv (Qsock s) -> queued (Qsock s) = packet :: queued (Qsock s')).
Proof.
  intros Hphase Hdeq Hnot s'.
  assert (Hs' : s' = with_Qsock q (if in_backward_cc s =? -3
                                   then with_in_backward_cc 0 s else s)).
  { subst s'. unfold main_FDTAP_OUT_OK.
    destruct Hphase as [Hp|Hp]; rewrite Hp; cbn [Z.eqb Pos.eqb]; state_simpl;
      rewrite ?Hp; cbn [Z.gtb Z.compare]; rewrite Hdeq; state_simpl;
      rewrite ?Hp; cbn [Z.eqb];
      destruct (Z.eqb_spec (CheckPureTCPAck (p_data packet)) 1);
      try contradiction; reflexivity. }
  rewrite Hs'.
  destruct Hphase as [Hp|Hp]; rewrite Hp; cbn [Z.eqb Pos.eqb]; state_simpl;
    repeat split; auto; intros Hinv;
    (destruct (Z.eq_dec (front (Qsock s)) (rear (Qsock s))) as [E|Hne];
     [rewrite (dequeue_packet_empty _ E) in Hdeq; discriminate|];
     destruct (dequeue_packet_nonempty _ Hinv Hne) as (p' & q' & Hd & _ & Hq & _);
     rewrite Hdeq in Hd; injection Hd as <- <-; exact Hq).
Qed.

Lemma cwrite_tap_written buf n s :
  cwrite_tap buf n s = tap_written [{| w_buf := buf; w_n := n |}] s.
Proof. reflexivity. Qed.

Lemma tap_written_nil s : tap_written [] s = s.
Proof. destruct s. unfold tap_written. cbn. now rewrite app_nil_r. Qed.

Lemma tap_written_app ws1 ws2 s :
  tap_written ws2 (tap_written ws1 s) = tap_written (ws1 ++ ws2) s.
Proof. unfold tap_written. cbn. now rewrite app_assoc. Qed.

(** The loop of the burst: one [cwrite] of a fabricated packet for each [i]
    from its initial value up to [pkt_count - 1]. *)
Lemma main_dupack_for_spec packet fuel :
  forall i s,
    0 <= i -> pkt_count s <= 65535 ->
    (Z.to_nat (pkt_count s - i) <= fuel)%nat ->
    main_dupack_for fuel i packet s
    = tap_written
        (map (fun k =>
                {| w_buf := create_dupack (p_data (dupack s))
                              (dupack_plus (in_backward_cc s) (pkt_count s) k)
                              (getTimestampVal (p_data packet));
                   w_n := p_length (dupack s) |})
             (seqZ i (pkt_count s - i)))
        s.
Proof.
  induction fuel as [|fuel IH]; intros i s Hi Hmax Hfuel.
  - cbn [main_dupack_for]. replace (pkt_count s - i) with (- (i - pkt_count s)) by lia.
    rewrite seqZ_nil by lia. cbn [map]. now rewrite tap_written_nil.
  - cbn [main_dupack_for]. destruct (Z.ltb_spec i (pkt_count s)) as [Hlt|Hge].
    + rewrite (to_int_small (i + 1)) by (unfold INT_MIN, INT_MAX; lia).
      rewrite cwrite_tap_written, IH; cbn [pkt_count dupack in_backward_cc tap_written];
        try lia.
      rewrite tap_written_app. f_equal.
      rewrite (seqZ_cons i) by lia. cbn [map app].
      replace (Z.succ i) with (i + 1) by lia.
      replace (Z.pred (pkt_count s - i)) with (pkt_count s - (i + 1)) by lia.
      reflexivity.
    + rewrite seqZ_nil by lia. cbn [map]. now rewrite tap_written_nil.
Qed.

(** The block [if (j & FDTAP_OUT_OK)] in the ACTIVE phase when Qsock yields
    a packet. *)
Lemma main_FDTAP_OUT_OK_active s packet q :
  1 <= in_backward_cc s ->
  0 <= pkt_count s <= 65535 ->
  dequeue_packet (Qsock s) = (Some packet, q) ->
  main_FDTAP_OUT_OK s
  = if (to_uint (getACKSeq (p_data packet)) >=? trigger_seq s)
       && negb (trigger_seq s =? to_uint (-1))
    then free (dupack s)
           (with_pkt_count 0
              (with_in_backward_cc (-1)
                 (with_trigger_seq (to_uint (-1))
                    (cwrite_tap (p_data packet) (p_length packet)
                       (with_Qsock q s)))))
    else with_in_backward_cc (to_int (in_backward_cc s + 1))
           (tap_written
              (map (fun k =>
                      {| w_buf := create_dupack (p_data (dupack s))
                                    (dupack_plus (in_backward_cc s) (pkt_count s) k)
                                    (getTimestampVal (p_data packet));
                         w_n := p_length (dupack s) |})
                   (seqZ 0 (pkt_count s)))
              (with_Qsock q s)).
Proof.
  intros Hact Hcnt Hdeq. unfold main_FDTAP_OUT_OK.
  destruct (Z.eqb_spec (in_backward_cc s) (-3)); [lia|].
  destruct (Z.gtb_spec (in_backward_cc s) (-1)); [|lia].
  rewrite Hdeq. state_simpl.
  destruct (Z.eqb_spec (in_backward_cc s) 0); [lia|].
  destruct ((to_uint (getACKSeq (p_data packet)) >=? trigger_seq s)
            && negb (trigger_seq s =? to_uint (-1))); [reflexivity|].
  rewrite main_dupack_for_spec; state_simpl; try lia.
  rewrite Z.sub_0_r. reflexivity.
Qed.

(** The test that ends an episode, as the code has it.  In the ACTIVE
    phase, when Qsock yields a packet: if what [getACKSeq] returns for it, converted to [unsigned int]
    (so the acknowledgement number of a packet with the ACK flag, and
    2^32 - 1 for any packet without it), is at least [trigger_seq], and
    [trigger_seq] is not 2^32 - 1, then the packet is written to the tap as
    it is, the template is freed, [trigger_seq] is reset to its unset
    value, [pkt_count] to 0 and the phase to -1 (IDLE); in every other case
    the phase stays ACTIVE with [trigger_seq] as it was and nothing freed. *)
Theorem episode_termination (s : main_state) (packet : packet_t)
    (q : pktqueue_t) :
  1 <= in_backward_cc s <= INT_MAX ->
  0 <= pkt_count s <= 65535 ->
  dequeue_packet (Qsock s) = (Some packet, q) ->
  let s' := main_FDTAP_OUT_OK s in
  let ends := trigger_seq s <= to_uint (getACKSeq (p_data packet))
              /\ trigger_seq s <> UINT_MAX in
  (ends ->
   tap_fd_writes s'
   = tap_fd_writes s ++ [{| w_buf := p_data packet; w_n := p_length packet |}]
   /\ freed s' = freed s ++ [dupack s]
   /\ trigger_seq s' = UINT_MAX
   /\ pkt_count s' = 0
   /\ in_backward_cc s' = -1
   /\ Qsock s' = q)
  /\ (~ ends ->
      in_backward_cc s' <> -1
      /\ (in_backward_cc s < INT_MAX -> in_backward_cc s' = in_backward_cc s + 1)
      /\ trigger_seq s' = trigger_seq s
      /\ pkt_count s' = pkt_count s
      /\ freed s' = freed s
      /\ Qsock s' = q).
Proof.
  intros Hact Hcnt Hdeq s' ends. subst s'.
  rewrite (main_FDTAP_OUT_OK_active s packet q) by (assumption || lia).
  rewrite to_uint_minus_one. subst ends.
  destruct (Z.geb_spec (to_uint (getACKSeq (p_data packet))) (trigger_seq s));
    destruct (Z.eqb_spec (trigger_seq s) UINT_MAX); cbn [andb negb];
    (split; [intros [H1 H2]; try lia; try contradiction;
             state_simpl; repeat split; reflexivity
            |intros Hn; try (exfalso; apply Hn; split; [lia|assumption])]);
    state_simpl; unfold tap_written; state_simpl;
    (repeat split; try reflexivity;
     [pose proof (to_int_range (in_backward_cc s + 1));
      unfold INT_MIN, INT_MAX in *;
      destruct (Z.eq_dec (in_backward_cc s) 2147483647) as [->|];
      [vm_compute; discriminate|rewrite to_int_small; unfold INT_MIN, INT_MAX; lia]
     |intros Hlt; apply to_int_small; unfold INT_MIN, INT_MAX in *; lia]).
Qed.

Lemma episode_termination_witness :
  in_backward_cc (main_FDTAP_OUT_OK ex_end_ready) = -1
  /\ trigger_seq (main_FDTAP_OUT_OK ex_end_ready) = UINT_MAX
  /\ freed (main_FDTAP_OUT_OK ex_end_ready)
     = freed ex_end_ready ++ [dupack ex_end_ready].
Proof.
  assert (H1 : 1 <= in_backward_cc ex_end_ready <= INT_MAX)
    by (vm_compute; split; discriminate).
  assert (H2 : 0 <= pkt_count ex_end_ready <= 65535)
    by (vm_compute; split; discriminate).
  assert (H3 : dequeue_packet (Qsock ex_end_ready)
               = (Some (ex_pure_ack 4101 78),
                  snd (dequeue_packet (Qsock ex_end_ready))))
    by (vm_compute; reflexivity).
  assert (H4 : trigger_seq ex_end_ready
               <= to_uint (getACKSeq (p_data (ex_pure_ack 4101 78)))
               /\ trigger_seq ex_end_ready <> UINT_MAX)
    by (vm_compute; split; discriminate).
  pose proof (proj1 (episode_termination ex_end_ready _ _ H1 H2 H3) H4) as H.
  cbv zeta in H. destruct H as (_ & Hf & Ht & _ & Hp & _).
  split; [exact Hp|split; [exact Ht|exact Hf]].
Defined.

(** C2 (evaluation at the failing input).  In [ex_syn_ready] the phase is
    ACTIVE (round 1) with [trigger_seq] 1020 and [pkt_count] 2, and the packet
    that Qsock yields is a SYN: its ACK flag is clear, its acknowledgement
    field is 0, and [getACKSeq] returns -1 for it, the value that its comment
    reserves for a packet that is not an ACK.  The block
    [if (j & FDTAP_OUT_OK)] compares this -1 with the [unsigned int]
    [trigger_seq], finds 2^32 - 1 >= 1020 and ends the episode: the SYN is
    written to the tap, the template freed, [trigger_seq] and [pkt_count]
    reset and the phase set to -1, although no packet with an acknowledgement
    number of 1020 or more has arrived. *)
Theorem non_ack_packet_ends_episode :
  (in_backward_cc ex_syn_ready = 1
   /\ trigger_seq ex_syn_ready = 1020
   /\ pkt_count ex_syn_ready = 2
   /\ fst (dequeue_packet (Qsock ex_syn_ready)) = Some ex_syn)
  /\ (tcphdr.ack (p_data ex_syn) (iphdr.ihl (p_data ex_syn) 0 * 4) = 0
      /\ ntohl (tcphdr.ack_seq (p_data ex_syn) (iphdr.ihl (p_data ex_syn) 0 * 4)) = 0
      /\ getACKSeq (p_data ex_syn) = -1
      /\ to_uint (getACKSeq (p_data ex_syn)) = 4294967295
      /\ ~ acknowledges_at_least (p_data ex_syn) (trigger_seq ex_syn_ready))
  /\ (in_backward_cc (main_FDTAP_OUT_OK ex_syn_ready) = -1
      /\ trigger_seq (main_FDTAP_OUT_OK ex_syn_ready) = UINT_MAX
      /\ pkt_count (main_FDTAP_OUT_OK ex_syn_ready) = 0
      /\ tap_fd_writes (main_FDTAP_OUT_OK ex_syn_ready)
         = tap_fd_writes ex_syn_ready ++ [verbatim ex_syn]
      /\ freed (main_FDTAP_OUT_OK ex_syn_ready)
         = freed ex_syn_ready ++ [dupack ex_syn_ready]).
Proof.
  split; [|split].
  - vm_compute. repeat split; reflexivity.
  - split; [vm_compute; reflexivity|]. split; [vm_compute; reflexivity|].
    split; [vm_compute; reflexivity|]. split; [vm_compute; reflexivity|].
    intros [Hack _]. vm_compute in Hack. discriminate.
  - vm_compute. repeat split; reflexivity.
Qed.

(** C3. A packet read from the tap whose TCP sequence number equals
    [trigger_seq] is freed and Qtap is left as it was.  Once the block
    [if (j & FDTAP_OUT_OK)] has ended the episode, [trigger_seq] is unset,
    and a packet from the tap with that same sequence number is handed to
    [enqueue_packet]: Qtap is what [enqueue_packet] makes of it, which for a
    queue that is not full is Qtap with the packet appended. *)
Theorem retransmission_suppression (s : main_state) (packet ack : packet_t)
    (nread : Z) (q : pktqueue_t) :
  trigger_seq s <> UINT_MAX ->
  ntohl (tcphdr.seq (p_data packet) (iphdr.ihl (p_data packet) 0 * 4))
  = trigger_seq s ->
  let packet' := set_length packet nread in
  (Qtap (main_FDTAP_IN_RDY packet nread s) = Qtap s
   /\ freed (main_FDTAP_IN_RDY packet nread s) = freed s ++ [packet'])
  /\ (1 <= in_backward_cc s <= INT_MAX ->
      0 <= pkt_count s <= 65535 ->
      dequeue_packet (Qsock s) = (Some ack, q) ->
      trigger_seq s <= to_uint (getACKSeq (p_data ack)) ->
      let s' := main_FDTAP_OUT_OK s in
      trigger_seq s' = UINT_MAX
      /\ in_backward_cc s' = -1
      /\ Qtap (main_FDTAP_IN_RDY packet nread s')
         = snd (enqueue_packet (Qtap s) packet')
      /\ (queue_inv (Qtap s) -> ~ is_full (Qtap s) ->
          queued (Qtap (main_FDTAP_IN_RDY packet nread s'))
          = queued (Qtap s) ++ [packet'])).
Proof.
  intros Hset Hseq packet'.
  assert (Hget : to_uint (getTCPSeq (p_data packet')) = trigger_seq s)
    by (subst packet'; cbn [p_data set_length]; now rewrite getTCPSeq_unsigned).
  split.
  - unfold main_FDTAP_IN_RDY. fold packet'.
    destruct (in_backward_cc (with_tap2net (to_ulong (tap2net s + 1)) s) =? -3);
      state_simpl; rewrite Hget, Z.eqb_refl; state_simpl;
      destruct ((fullness (Qtap s) >? 20) && (in_backward_cc s =? -1));
      state_simpl; auto.
  - intros Hact Hcnt Hdeq Hack s'.
    assert (Hs' : s' = free (dupack s)
                         (with_pkt_count 0
                            (with_in_backward_cc (-1)
                               (with_trigger_seq (to_uint (-1))
                                  (cwrite_tap (p_data ack) (p_length ack)
                                     (with_Qsock q s)))))).
    { subst s'. rewrite (main_FDTAP_OUT_OK_active s ack q) by (assumption || lia).
      rewrite to_uint_minus_one.
      destruct (Z.geb_spec (to_uint (getACKSeq (p_data ack))) (trigger_seq s)); [|lia].
      destruct (Z.eqb_spec (trigger_seq s) UINT_MAX); [contradiction|].
      reflexivity. }
    assert (Htrig : trigger_seq s' = UINT_MAX) by (rewrite Hs'; reflexivity).
    assert (Hphase : in_backward_cc s' = -1) by (rewrite Hs'; reflexivity).
    assert (HQtap : Qtap s' = Qtap s) by (rewrite Hs'; reflexivity).
    clear Hs'.
    assert (Hq : Qtap (main_FDTAP_IN_RDY packet nread s')
                 = snd (enqueue_packet (Qtap s) packet')).
    { unfold main_FDTAP_IN_RDY. fold packet'. state_simpl.
      rewrite Hphase. cbn [Z.eqb Pos.eqb]. state_simpl.
      rewrite Hget, Htrig, HQtap.
      destruct (Z.eqb_spec (trigger_seq s) UINT_MAX); [contradiction|].
      destruct (enqueue_packet (Qtap s) packet') as [r q'] eqn:Henq.
      cbn [snd]. state_simpl.
      destruct (r =? 0); state_simpl;
        destruct ((fullness q' >? 20) && (in_backward_cc s' =? -1));
        state_simpl; reflexivity. }
    repeat split; try assumption.
    intros Hinv Hroom. rewrite Hq.
    destruct (enqueue_packet_room (Qtap s) packet' Hinv Hroom)
      as (q' & -> & _ & Hqq & _).
    exact Hqq.
Qed.

Lemma retransmission_suppression_witness :
  Qtap (main_FDTAP_IN_RDY (ex_data 1020) 52 ex_end_ready) = Qtap ex_end_ready
  /\ queued (Qtap (main_FDTAP_IN_RDY (ex_data 1020) 52
                     (main_FDTAP_OUT_OK ex_end_ready)))
     = queued (Qtap ex_end_ready) ++ [ex_data 1020].
Proof.
  assert (H1 : trigger_seq ex_end_ready <> UINT_MAX) by (vm_compute; discriminate).
  assert (H2 : ntohl (tcphdr.seq (p_data (ex_data 1020))
                        (iphdr.ihl (p_data (ex_data 1020)) 0 * 4))
               = trigger_seq ex_end_ready) by (vm_compute; reflexivity).
  assert (H3 : 1 <= in_backward_cc ex_end_ready <= INT_MAX)
    by (vm_compute; split; discriminate).
  assert (H4 : 0 <= pkt_count ex_end_ready <= 65535)
    by (vm_compute; split; discriminate).
  assert (H5 : dequeue_packet (Qsock ex_end_ready)
               = (Some (ex_pure_ack 4101 78),
                  snd (dequeue_packet (Qsock ex_end_ready))))
    by (vm_compute; reflexivity).
  assert (H6 : trigger_seq ex_end_ready
               <= to_uint (getACKSeq (p_data (ex_pure_ack 4101 78))))
    by (vm_compute; discriminate).
  assert (H7 : queue_inv (Qtap ex_end_ready)).
  { split.
    - vm_compute. split; discriminate.
    - vm_compute. reflexivity.
    - vm_compute. split; [discriminate|reflexivity].
    - vm_compute. split; [discriminate|reflexivity].
    - vm_compute. reflexivity.
    - vm_compute. reflexivity. }
  assert (H8 : ~ is_full (Qtap ex_end_ready)) by (vm_compute; discriminate).
  pose proof (retransmission_suppression ex_end_ready (ex_data 1020)
                (ex_pure_ack 4101 78) 52
                (snd (dequeue_packet (Qsock ex_end_ready))) H1 H2) as H.
  cbv zeta in H. destruct H as [[Ha _] Hb].
  destruct (Hb H3 H4 H5 H6) as (_ & _ & _ & Hc).
  split; [exact Ha|]. exact (Hc H7 H8).
Defined.

(** The expression for [plus] does not overflow as long as
    [in_backward_cc * pkt_count] fits in an [int]; it is then
    [(round - 1) * pkt_count + i + 1]. *)
Lemma dupack_plus_exact round n i :
  1 <= round -> 0 <= n <= 65535 -> 0 <= i < n -> round * n <= INT_MAX ->
  dupack_plus round n i = round * n - n + i + 1
  /\ round * n - n + i + 1 = (round - 1) * n + i + 1.
Proof.
  intros Hr Hn Hi Hfit. unfold dupack_plus, INT_MAX in *. split; [|lia].
  assert (0 <= round * n) by nia.
  assert (0 <= round * n - n) by nia.
  rewrite (to_int_small (round * n)) by (unfold INT_MIN, INT_MAX; lia).
  rewrite (to_int_small (round * n - n)) by (unfold INT_MIN, INT_MAX; lia).
  rewrite (to_int_small (round * n - n + i)) by (unfold INT_MIN, INT_MAX; lia).
  apply to_int_small. unfold INT_MIN, INT_MAX. lia.
Qed.

(** Over the rounds of an episode and over the packets of a round the
    values of [plus] increase strictly. *)
Lemma dupack_plus_increasing n r1 i1 r2 i2 :
  0 <= n <= 65535 -> 1 <= r1 -> 0 <= i1 < n -> 0 <= i2 < n ->
  r1 < r2 \/ (r1 = r2 /\ i1 < i2) -> r2 * n <= INT_MAX ->
  dupack_plus r1 n i1 < dupack_plus r2 n i2.
Proof.
  intros Hn Hr1 Hi1 Hi2 Hlt Hfit.
  assert (r1 * n <= r2 * n) by nia.
  destruct (dupack_plus_exact r1 n i1) as [-> _]; try lia.
  destruct (dupack_plus_exact r2 n i2) as [-> _]; try lia.
  nia.
Qed.

Lemma getTimestampVal_range buffer : 0 <= getTimestampVal buffer <= UINT_MAX.
Proof. unfold getTimestampVal, ntohl. apply bswap32_range. Qed.

(** What [create_dupack] guarantees for every template, time stamp and
    [plus]. *)
Lemma create_dupack_spec pkt plus timestamp :
  let d := create_dupack pkt plus timestamp in
  length d = Z.to_nat (iphdr.sizeof + tcphdr.sizeof + tshdr.sizeof)
  /\ iphdr.saddr d 0 = iphdr.saddr pkt 0
  /\ iphdr.daddr d 0 = iphdr.daddr pkt 0
  /\ tcphdr.source d iphdr.sizeof = tcphdr.source pkt iphdr.sizeof
  /\ tcphdr.dest d iphdr.sizeof = tcphdr.dest pkt iphdr.sizeof
  /\ tcphdr.ack_seq d iphdr.sizeof = tcphdr.ack_seq pkt iphdr.sizeof
  /\ ntohs (iphdr.id d 0) = (ntohs (iphdr.id pkt 0) + plus) mod 65536
  /\ ntohl (tshdr.sts d (iphdr.sizeof + tcphdr.sizeof)) = to_uint timestamp
  /\ csum d iphdr.sizeof = 0
  /\ csum (tcp_checked_bytes_at d IPPROTO_TCP iphdr.sizeof
             (tcphdr.sizeof + tshdr.sizeof))
          (pseudo_header.sizeof + tcphdr.sizeof + tshdr.sizeof) = 0
  /\ (iphdr.ihl pkt 0 = 5 ->
      getACKSeq d = getACKSeq pkt
      /\ getTimestampVal d = to_uint timestamp
      /\ ip_checksum_ok d
      /\ (ntohs (iphdr.tot_len pkt 0) = 52 -> iphdr.protocol pkt 0 = 6 ->
          tcp_checksum_ok d)).
Proof.
  intros d. pose proof (create_dupack_copied pkt plus timestamp) as Hcopy.
  cbv zeta in Hcopy. fold d in Hcopy.
  destruct Hcopy as (Hihl & _ & Htot & Hproto & Hsaddr & Hdaddr & Hsrc & Hdst
                     & _ & Hack & _ & Hflags & _).
  split; [apply create_dupack_length|].
  split; [exact Hsaddr|]. split; [exact Hdaddr|]. split; [exact Hsrc|].
  split; [exact Hdst|]. split; [exact Hack|].
  split; [apply create_dupack_id|]. split; [apply create_dupack_sts|].
  split; [apply create_dupack_ip_checksum|].
  split; [apply create_dupack_tcp_checksum|].
  intros H5. split; [|split; [|split]].
  - unfold getACKSeq. rewrite !iphdrlen_exact, Hihl, H5. change (5 * 4) with 20.
    unfold tcphdr.ack. change (20 + 13) with 33. rewrite Hflags.
    change iphdr.sizeof with 20 in Hack. now rewrite Hack.
  - unfold getTimestampVal. rewrite iphdrlen_exact, Hihl, H5.
    apply create_dupack_sts.
  - unfold ip_checksum_ok. rewrite Hihl, H5. apply create_dupack_ip_checksum.
  - intros H52 H6. unfold tcp_checksum_ok, tcp_segment_length.
    rewrite Hihl, Htot, Hproto, H5, H52, H6.
    apply create_dupack_tcp_checksum.
Qed.

(** What a burst writes, for any template.  In the ACTIVE phase, when the
    packet dequeued from Qsock has an acknowledgement number below
    [trigger_seq], the block
    [if (j & FDTAP_OUT_OK)] calls [cwrite] on the tap exactly [pkt_count]
    times.  The buffer of the [i]-th call is
    [create_dupack(dupack->data, plus, TSval of the dequeued packet)] with
    [plus = round * pkt_count - pkt_count + i + 1], which is
    [(round - 1) * pkt_count + i + 1] and increases strictly over the rounds
    and over the packets of a round (the [int] arithmetic of the code being
    exact as long as [round * pkt_count] fits in an [int]).  Every fabricated
    buffer has the 52 bytes of the three structures, the addresses, ports and
    acknowledgement number of the template, the [id] of the template plus
    [plus] modulo 65536 and the time stamp supplied, and [csum] is zero over
    its first 20 bytes and over the pseudo header and 32-byte segment that
    the code lays out; for a template of that layout (IHL 5, total length 52,
    protocol 6) these are the ranges that the packet itself declares.  Every
    call passes [dupack->length] as the number of bytes to write, whatever
    the size of the buffer. *)
Theorem dupack_burst (s : main_state) (packet : packet_t) (q : pktqueue_t) :
  1 <= in_backward_cc s ->
  0 <= pkt_count s <= 65535 ->
  in_backward_cc s * pkt_count s <= INT_MAX ->
  dequeue_packet (Qsock s) = (Some packet, q) ->
  to_uint (getACKSeq (p_data packet)) < trigger_seq s ->
  let s' := main_FDTAP_OUT_OK s in
  let round := in_backward_cc s in
  let n := pkt_count s in
  let template := p_data (dupack s) in
  let tsval := getTimestampVal (p_data packet) in
  let plus i := round * n - n + i + 1 in
  let fabricated i := create_dupack template (plus i) tsval in
  tap_fd_writes s'
  = tap_fd_writes s
    ++ map (fun i => {| w_buf := fabricated i; w_n := p_length (dupack s) |})
           (seqZ 0 n)
  /\ length (seqZ 0 n) = Z.to_nat n
  /\ in_backward_cc s' = to_int (round + 1)
  /\ Qsock s' = q
  /\ (forall i, 0 <= i < n ->
        dupack_plus round n i = plus i /\ plus i = (round - 1) * n + i + 1)
  /\ (forall r1 i1 r2 i2,
        1 <= r1 -> 0 <= i1 < n -> 0 <= i2 < n ->
        r1 < r2 \/ (r1 = r2 /\ i1 < i2) -> r2 * n <= INT_MAX ->
        dupack_plus r1 n i1 < dupack_plus r2 n i2)
  /\ (forall i,
        let d := fabricated i in
        length d = Z.to_nat (iphdr.sizeof + tcphdr.sizeof + tshdr.sizeof)
        /\ iphdr.saddr d 0 = iphdr.saddr template 0
        /\ iphdr.daddr d 0 = iphdr.daddr template 0
        /\ tcphdr.source d iphdr.sizeof = tcphdr.source template iphdr.sizeof
        /\ tcphdr.dest d iphdr.sizeof = tcphdr.dest template iphdr.sizeof
        /\ tcphdr.ack_seq d iphdr.sizeof = tcphdr.ack_seq template iphdr.sizeof
        /\ ntohs (iphdr.id d 0) = (ntohs (iphdr.id template 0) + plus i) mod 65536
        /\ ntohl (tshdr.sts d (iphdr.sizeof + tcphdr.sizeof)) = tsval
        /\ csum d iphdr.sizeof = 0
        /\ csum (tcp_checked_bytes_at d IPPROTO_TCP iphdr.sizeof
                   (tcphdr.sizeof + tshdr.sizeof))
                (pseudo_header.sizeof + tcphdr.sizeof + tshdr.sizeof) = 0
        /\ (iphdr.ihl template 0 = 5 ->
            getACKSeq d = getACKSeq template
            /\ getTimestampVal d = tsval
            /\ ip_checksum_ok d
            /\ (ntohs (iphdr.tot_len template 0) = 52 ->
                iphdr.protocol template 0 = 6 ->
                tcp_checksum_ok d))).
Proof.
  intros Hact Hcnt Hfit Hdeq Hbelow s' round n template tsval plus fabricated.
  assert (Hts : to_uint tsval = tsval)
    by (apply to_uint_small, getTimestampVal_range).
  assert (Hs' : s' = with_in_backward_cc (to_int (round + 1))
                       (tap_written
                          (map (fun k =>
                                  {| w_buf := create_dupack template
                                                (dupack_plus round n k) tsval;
                                     w_n := p_length (dupack s) |})
                               (seqZ 0 n))
                          (with_Qsock q s))).
  { subst s'. rewrite (main_FDTAP_OUT_OK_active s packet q) by assumption.
    destruct (Z.geb_spec (to_uint (getACKSeq (p_data packet))) (trigger_seq s));
      [lia|]. reflexivity. }
  split; [|split; [|split; [|split; [|split; [|split]]]]].
  - rewrite Hs'. cbn [tap_fd_writes with_in_backward_cc tap_written with_Qsock].
    match goal with
    | |- ?l ++ ?x = ?l ++ ?y => assert (Hmap : x = y); [|now rewrite Hmap]
    end.
    apply map_ext_in. intros i Hi. apply list_elem_of_In, elem_of_seqZ in Hi.
    subst fabricated plus. cbv beta.
    destruct (dupack_plus_exact round n i) as [-> _]; try assumption; try lia.
    reflexivity.
  - apply length_seqZ.
  - rewrite Hs'. reflexivity.
  - rewrite Hs'. reflexivity.
  - intros i Hi. now apply dupack_plus_exact.
  - intros r1 i1 r2 i2. now apply dupack_plus_increasing.
  - intros i d. pose proof (create_dupack_spec template (plus i) tsval) as H.
    cbv zeta in H. fold (fabricated i) in H. fold d in H.
    rewrite Hts in H. exact H.
Qed.

Lemma dupack_burst_witness :
  tap_fd_writes (main_FDTAP_OUT_OK ex_burst_ready)
  = tap_fd_writes ex_burst_ready
    ++ map (fun i =>
              {| w_buf := create_dupack (p_data (dupack ex_burst_ready))
                            (in_backward_cc ex_burst_ready * pkt_count ex_burst_ready
                             - pkt_count ex_burst_ready + i + 1)
                            (getTimestampVal (p_data (ex_pure_ack 600 77)));
                 w_n := p_length (dupack ex_burst_ready) |})
           (seqZ 0 (pkt_count ex_burst_ready)).
Proof.
  assert (H1 : 1 <= in_backward_cc ex_burst_ready) by (vm_compute; discriminate).
  assert (H2 : 0 <= pkt_count ex_burst_ready <= 65535)
    by (vm_compute; split; discriminate).
  assert (H3 : in_backward_cc ex_burst_ready * pkt_count ex_burst_ready <= INT_MAX)
    by (vm_compute; discriminate).
  assert (H4 : dequeue_packet (Qsock ex_burst_ready)
               = (Some (ex_pure_ack 600 77),
                  snd (dequeue_packet (Qsock ex_burst_ready))))
    by (vm_compute; reflexivity).
  assert (H5 : to_uint (getACKSeq (p_data (ex_pure_ack 600 77)))
               < trigger_seq ex_burst_ready) by (vm_compute; reflexivity).
  exact (proj1 (dupack_burst ex_burst_ready (ex_pure_ack 600 77)
                  (snd (dequeue_packet (Qsock ex_burst_ready)))
                  H1 H2 H3 H4 H5)).
Defined.

(** C1 (evaluation at the failing input).  In [ex_short_ready] the phase is
    ACTIVE (round 1) with [pkt_count] 2 and [trigger_seq] 1020, the template
    is a pure ACK of 40 bytes, without the time stamp option, which
    [CheckPureTCPAck] has accepted, and Qsock yields an acknowledgement for
    600.  The block [if (j & FDTAP_OUT_OK)] fabricates two buffers of 52
    bytes and calls [cwrite] with 40, the length of the template, for each:
    the twelve bytes that hold the time stamp are not written.  Each buffer
    declares a total length of 40 and a header of 20 bytes as the template
    does; its IPv4 header verifies, but [create_dupack] has computed the TCP
    checksum for a segment of 32 bytes, and for the segment of 20 bytes that
    the packet declares it does not verify, neither as RFC 793 defines it nor
    by [csum].  From the 52-byte template of [ex_burst_ready] the same
    function makes a packet whose checksums do verify. *)
Theorem dupack_burst_from_short_template :
  (in_backward_cc ex_short_ready = 1
   /\ pkt_count ex_short_ready = 2
   /\ trigger_seq ex_short_ready = 1020
   /\ dupack ex_short_ready = ex_short_ack 500
   /\ CheckPureTCPAck (p_data (ex_short_ack 500)) = 1
   /\ p_length (ex_short_ack 500) = 40
   /\ fst (dequeue_packet (Qsock ex_short_ready)) = Some (ex_short_ack 600)
   /\ to_uint (getACKSeq (p_data (ex_short_ack 600))) = 600
   /\ getTimestampVal (p_data (ex_short_ack 600)) = 0)
  /\ tap_fd_writes (main_FDTAP_OUT_OK ex_short_ready)
     = tap_fd_writes ex_short_ready
       ++ [ {| w_buf := create_dupack (p_data (ex_short_ack 500)) 1 0; w_n := 40 |};
            {| w_buf := create_dupack (p_data (ex_short_ack 500)) 2 0; w_n := 40 |} ]
  /\ (length (create_dupack (p_data (ex_short_ack 500)) 1 0) = 52%nat
      /\ total_length_field (create_dupack (p_data (ex_short_ack 500)) 1 0) = 40
      /\ header_length (create_dupack (p_data (ex_short_ack 500)) 1 0) = 20
      /\ rfc791_header_verifies (create_dupack (p_data (ex_short_ack 500)) 1 0)
      /\ ntohs (tcphdr.check (create_dupack (p_data (ex_short_ack 500)) 1 0) 20)
         = 37807
      /\ ones_sum (be_words (rfc793_checked_bytes
                               (create_dupack (p_data (ex_short_ack 500)) 1 0)))
         = 65523
      /\ ~ rfc793_verifies (create_dupack (p_data (ex_short_ack 500)) 1 0)
      /\ ~ tcp_checksum_ok (create_dupack (p_data (ex_short_ack 500)) 1 0))
  /\ (length (create_dupack (p_data (ex_short_ack 500)) 2 0) = 52%nat
      /\ total_length_field (create_dupack (p_data (ex_short_ack 500)) 2 0) = 40
      /\ ~ rfc793_verifies (create_dupack (p_data (ex_short_ack 500)) 2 0)
      /\ ~ tcp_checksum_ok (create_dupack (p_data (ex_short_ack 500)) 2 0))
  /\ (dupack ex_burst_ready = ex_pure_ack 500 2
      /\ total_length_field (create_dupack (p_data (ex_pure_ack 500 2)) 1 77) = 52
      /\ rfc791_header_verifies (create_dupack (p_data (ex_pure_ack 500 2)) 1 77)
      /\ rfc793_verifies (create_dupack (p_data (ex_pure_ack 500 2)) 1 77)).
Proof.
  split; [|split; [|split; [|split]]].
  - vm_compute. repeat split; reflexivity.
  - vm_compute. reflexivity.
  - split; [vm_compute; reflexivity|]. split; [vm_compute; reflexivity|].
    split; [vm_compute; reflexivity|]. split; [vm_compute; reflexivity|].
    split; [vm_compute; reflexivity|]. split; [vm_compute; reflexivity|].
    split; intros H; vm_compute in H; discriminate.
  - split; [vm_compute; reflexivity|]. split; [vm_compute; reflexivity|].
    split; intros H; vm_compute in H; discriminate.
  - vm_compute. repeat split; reflexivity.
Qed.

Lemma unset_trigger_drops_seq_all_ones_witness :
  Qtap (main_FDTAP_IN_RDY (ex_data 4294967295) 52 ex_start) = Qtap ex_start.
Proof.
  assert (H1 : trigger_seq ex_start = to_uint (-1)) by reflexivity.
  assert (H2 : ntohl (tcphdr.seq (p_data (ex_data 4294967295))
                        (iphdr.ihl (p_data (ex_data 4294967295)) 0 * 4))
               = 2 ^ 32 - 1) by (vm_compute; reflexivity).
  pose proof (unset_trigger_drops_seq_all_ones (ex_data 4294967295) 52 ex_start
                H1 H2) as H.
  cbv zeta in H. destruct H as (_ & H & _). exact H.
Defined.

Lemma ack_wait_loses_non_pure_ack_witness :
  tap_fd_writes (main_FDTAP_OUT_OK ex_wait_ready) = tap_fd_writes ex_wait_ready
  /\ freed (main_FDTAP_OUT_OK ex_wait_ready) = freed ex_wait_ready
  /\ in_backward_cc (main_FDTAP_OUT_OK ex_wait_ready) = 0.
Proof.
  assert (H1 : in_backward_cc ex_wait_ready = 0 \/ in_backward_cc ex_wait_ready = -3)
    by (right; vm_compute; reflexivity).
  assert (H2 : dequeue_packet (Qsock ex_wait_ready)
               = (Some (ex_data 7), snd (dequeue_packet (Qsock ex_wait_ready))))
    by (vm_compute; reflexivity).
  assert (H3 : CheckPureTCPAck (p_data (ex_data 7)) <> 1)
    by (vm_compute; discriminate).
  pose proof (ack_wait_loses_non_pure_ack ex_wait_ready (ex_data 7)
                (snd (dequeue_packet (Qsock ex_wait_ready))) H1 H2 H3) as H.
  cbv zeta in H. destruct H as (Ha & _ & _ & _ & Hb & _ & Hc & _).
  split; [exact Ha|split; [exact Hb|exact Hc]].
Defined.

(** * Further properties of the code *)

(** ** [csum] *)

(** [csum] over any number of bytes up to 131070: the folded sum of the
    whole 16-bit words, to which an odd last byte is added as it is. *)
Lemma csum_words buf nbytes :
  0 <= nbytes <= 131070 ->
  csum buf nbytes
  = csum_fold (sum16 buf 0 (Z.to_nat (nbytes / 2))
               + (if nbytes mod 2 =? 1 then load8 buf (nbytes - 1) else 0)).
Proof.
  intros Hn. unfold csum.
  assert (Hdiv : 0 <= nbytes / 2 <= 65535) by (Z.div_mod_to_equations; lia).
  assert (Hmod : nbytes mod 2 = 0 \/ nbytes mod 2 = 1)
    by (Z.div_mod_to_equations; lia).
  assert (Hoff : 0 + 2 * (nbytes / 2) = nbytes - nbytes mod 2)
    by (Z.div_mod_to_equations; lia).
  rewrite csum_while_spec; try (unfold INT_MAX; lia).
  rewrite Z.add_0_l, Hoff.
  pose proof (sum16_range buf 0 (Z.to_nat (nbytes / 2))) as Hs.
  set (S0 := sum16 buf 0 (Z.to_nat (nbytes / 2))) in *.
  pose proof (load8_range buf (nbytes - 1)) as Hb.
  assert (Hsum : (if nbytes mod 2 =? 1
                  then to_long (S0 + load8 buf (nbytes - nbytes mod 2)) else S0)
                 = S0 + (if nbytes mod 2 =? 1 then load8 buf (nbytes - 1) else 0)).
  { destruct Hmod as [-> | ->]; cbn [Z.eqb Pos.eqb]; [lia|].
    apply to_long_small. change (2 ^ 63) with 9223372036854775808. lia. }
  rewrite Hsum.
  set (S1 := S0 + (if nbytes mod 2 =? 1 then load8 buf (nbytes - 1) else 0)).
  assert (HS1 : 0 <= S1 < 4294967296)
    by (subst S1; destruct (nbytes mod 2 =? 1); lia).
  unfold csum_fold. rewrite to_ushort_wrap_signed.
  set (X := Z.shiftr S1 16 + Z.land S1 65535).
  assert (HX : 0 <= X < 131072).
  { subst X. rewrite Z.shiftr_div_pow2 by lia.
    change (Z.land S1 65535) with (Z.land S1 (Z.ones 16)).
    rewrite Z.land_ones by lia. change (2 ^ 16) with 65536.
    Z.div_mod_to_equations. lia. }
  assert (HX' : 0 <= Z.shiftr X 16 <= 1).
  { rewrite Z.shiftr_div_pow2 by lia. change (2 ^ 16) with 65536.
    Z.div_mod_to_equations. lia. }
  rewrite (to_long_small X) by (change (2 ^ 63) with 9223372036854775808; lia).
  rewrite to_long_small by (change (2 ^ 63) with 9223372036854775808; lia).
  reflexivity.
Qed.

(** X1. [csum] looks at the first [nbytes] bytes of the buffer only: two
    buffers that agree there have the same checksum. *)
Theorem csum_reads_nbytes (buf1 buf2 : list byte) (nbytes : Z) :
  0 <= nbytes <= 131070 ->
  (forall i, 0 <= i < nbytes -> load8 buf1 i = load8 buf2 i) ->
  csum buf1 nbytes = csum buf2 nbytes.
Proof.
  intros Hn H. rewrite !csum_words by assumption.
  assert (Hdiv : 0 <= nbytes / 2) by (Z.div_mod_to_equations; lia).
  assert (Hle : 2 * (nbytes / 2) <= nbytes) by (Z.div_mod_to_equations; lia).
  f_equal. f_equal.
  - apply sum16_ext. intros i Hi. apply H. lia.
  - destruct (Z.eqb_spec (nbytes mod 2) 1); [|reflexivity].
    apply H. Z.div_mod_to_equations. lia.
Qed.

Lemma csum_reads_nbytes_witness :
  csum (bytes_of [69; 0; 0; 52; 1; 2]) 4 = csum (bytes_of [69; 0; 0; 52; 9; 9; 9]) 4.
Proof.
  apply csum_reads_nbytes; [lia|].
  apply (in_range_cases _ 4%nat). apply below_cases. cbn [seq].
  repeat (constructor; [reflexivity|]). constructor.
Defined.

(** X2. An odd last byte counts as the low byte of a word whose high byte is
    zero: the checksum of an odd number of bytes is the checksum of one byte
    more over any buffer that holds the same bytes followed by a zero. *)
Theorem csum_odd_is_zero_padded (buf padded : list byte) (nbytes : Z) :
  0 <= nbytes <= 131068 -> nbytes mod 2 = 1 ->
  (forall i, 0 <= i < nbytes -> load8 padded i = load8 buf i) ->
  load8 padded nbytes = 0 ->
  csum buf nbytes = csum padded (nbytes + 1).
Proof.
  intros Hn Hodd Hsame Hzero. rewrite !csum_words by lia.
  assert (Hdiv : 0 <= nbytes / 2) by (Z.div_mod_to_equations; lia).
  assert (Hlast : 2 * (nbytes / 2) = nbytes - 1) by (Z.div_mod_to_equations; lia).
  assert (Hdiv' : (nbytes + 1) / 2 = nbytes / 2 + 1) by (Z.div_mod_to_equations; lia).
  assert (Hmod' : (nbytes + 1) mod 2 = 0) by (Z.div_mod_to_equations; lia).
  rewrite Hodd, Hmod', Hdiv'. cbn [Z.eqb Pos.eqb]. rewrite Z.add_0_r.
  replace (Z.to_nat (nbytes / 2 + 1)) with (Z.to_nat (nbytes / 2) + 1)%nat by lia.
  rewrite sum16_split. cbn [sum16]. rewrite Z.add_0_r. f_equal. f_equal.
  - apply sum16_ext. intros i Hi. symmetry. apply Hsame. lia.
  - rewrite Z2Nat.id by lia. rewrite Z.add_0_l, Hlast. unfold load16.
    replace (nbytes - 1 + 1) with nbytes by lia.
    rewrite Hzero, Hsame by lia. lia.
Qed.

Lemma csum_odd_is_zero_padded_witness :
  csum (bytes_of [1; 2; 3]) 3 = csum (bytes_of [1; 2; 3; 0]) 4.
Proof.
  apply csum_odd_is_zero_padded; [lia|reflexivity| |reflexivity].
  apply (in_range_cases _ 3%nat). apply below_cases. cbn [seq].
  repeat (constructor; [reflexivity|]). constructor.
Defined.

(** X3. Over no bytes at all ([nbytes] zero or negative) the loop does not
    run and [csum] returns 0xFFFF. *)
Theorem csum_of_nothing (buf : list byte) (nbytes : Z) :
  nbytes <= 0 -> csum buf nbytes = 65535.
Proof.
  intros Hn. unfold csum.
  replace (Z.to_nat nbytes) with 0%nat by lia. cbn [csum_while].
  destruct (Z.eqb_spec nbytes 1); [lia|]. reflexivity.
Qed.

Lemma csum_of_nothing_witness : csum (bytes_of [1; 2; 3]) 0 = 65535.
Proof. apply csum_of_nothing. lia. Defined.

(** The checksum is zero exactly for a non-zero sum that is a multiple of
    65535. *)
Lemma csum_fold_zero_iff S0 :
  0 <= S0 < 2 ^ 32 -> (csum_fold S0 = 0 <-> S0 mod 65535 = 0 /\ S0 <> 0).
Proof.
  intros HS. destruct (csum_fold_spec S0 HS) as (f & k & -> & Hf & Hk & HS0 & Hz).
  split.
  - intros E. assert (f = 65535) by lia. subst f. split; [|lia].
    rewrite HS0. replace (65535 * k + 65535) with ((k + 1) * 65535) by lia.
    apply Z_mod_mult.
  - intros [Hm Hne].
    assert (Hfm : f mod 65535 = 0).
    { rewrite HS0 in Hm. rewrite Z.add_comm, Z.mul_comm, Z_mod_plus_full in Hm.
      exact Hm. }
    destruct (Z.eq_dec f 0) as [E|E]; [specialize (Hz E); contradiction|].
    destruct (Z.eq_dec f 65535) as [E'|E']; [lia|].
    rewrite Z.mod_small in Hfm; lia.
Qed.

(** X4. Error detection: in a range of words whose checksum verifies (is
    zero), replacing one word by a different value makes the checksum
    non-zero, unless the word changes between 0x0000 and 0xFFFF, the two
    representations of zero in one's complement. *)
Theorem csum_detects_changed_word (buf : list byte) (nbytes j w : Z) :
  0 <= nbytes <= 131070 -> nbytes mod 2 = 0 ->
  0 <= j -> 2 * j + 2 <= nbytes ->
  (Z.to_nat nbytes <= length buf)%nat ->
  0 <= w <= 65535 ->
  csum buf nbytes = 0 ->
  w <> load16 buf (2 * j) ->
  ~ (w = 0 /\ load16 buf (2 * j) = 65535) ->
  ~ (w = 65535 /\ load16 buf (2 * j) = 0) ->
  csum (store16 buf (2 * j) w) nbytes <> 0.
Proof.
  intros Hn Heven Hj Hjn Hlen Hw Hok Hne H1 H2.
  assert (Hk : 0 <= nbytes / 2 <= 65535) by (Z.div_mod_to_equations; lia).
  assert (Hjk : j < nbytes / 2) by (Z.div_mod_to_equations; lia).
  rewrite csum_even in * by assumption.
  set (k := Z.to_nat (nbytes / 2)) in *.
  pose proof (sum16_range buf 0 k) as Hs.
  pose proof (load16_range buf (2 * j)) as Hold.
  replace (2 * j) with (0 + 2 * Z.of_nat (Z.to_nat j)) by lia.
  rewrite sum16_store16_inside by lia.
  replace (0 + 2 * Z.of_nat (Z.to_nat j)) with (2 * j) by lia.
  rewrite (Z.mod_small w) by lia.
  set (S0 := sum16 buf 0 k) in *. set (old := load16 buf (2 * j)) in *.
  assert (Hinside : old <= S0).
  { subst S0 old. clear - Hj Hjk. subst k.
    replace (Z.to_nat (nbytes / 2))
      with (Z.to_nat j + (1 + (Z.to_nat (nbytes / 2) - Z.to_nat j - 1)))%nat by lia.
    rewrite sum16_split, (sum16_split _ 1). cbn [sum16].
    replace (0 + 2 * Z.of_nat (Z.to_nat j)) with (2 * j) by lia.
    pose proof (sum16_range buf 0 (Z.to_nat j)).
    pose proof (sum16_range buf (2 * j + 2 * Z.of_nat 1)
                  (Z.to_nat (nbytes / 2) - Z.to_nat j - 1)).
    lia. }
  apply csum_fold_zero_iff in Hok; [|change (2 ^ 32) with 4294967296; lia].
  destruct Hok as [Hm _]. intros E.
  apply csum_fold_zero_iff in E; [|change (2 ^ 32) with 4294967296; lia].
  destruct E as [Hm' _].
  apply Z.mod_divide in Hm; [|lia]. apply Z.mod_divide in Hm'; [|lia].
  destruct Hm as [a Ha]. destruct Hm' as [b Hb].
  assert (Hd : w - old = (b - a) * 65535) by lia.
  assert (b - a = 0 \/ b - a = 1 \/ b - a = -1) by nia.
  lia.
Qed.

Lemma csum_detects_changed_word_witness :
  csum (store16 (create_dupack (p_data ex_ack) 1 7) (2 * 2) 513) 20 <> 0.
Proof.
  apply csum_detects_changed_word.
  - lia.
  - reflexivity.
  - lia.
  - lia.
  - vm_compute. lia.
  - lia.
  - vm_compute. reflexivity.
  - vm_compute. discriminate.
  - vm_compute. intros [H _]. discriminate.
  - vm_compute. intros [H _]. discriminate.
Defined.

(** ** The field parsers *)

Lemma ntohl_load32 buf off :
  ntohl (load32 buf off)
  = load8 buf off * 16777216 + load8 buf (off + 1) * 65536
    + load8 buf (off + 2) * 256 + load8 buf (off + 2 + 1).
Proof.
  unfold ntohl, bswap32, load32, load16.
  pose proof (load8_range buf off). pose proof (load8_range buf (off + 1)).
  pose proof (load8_range buf (off + 2)).
  pose proof (load8_range buf (off + 2 + 1)).
  set (b0 := load8 buf off) in *. set (b1 := load8 buf (off + 1)) in *.
  set (b2 := load8 buf (off + 2)) in *. set (b3 := load8 buf (off + 2 + 1)) in *.
  replace ((b0 + 256 * b1 + 65536 * (b2 + 256 * b3)) mod 65536)
    with (b0 + 256 * b1) by (Z.div_mod_to_equations; lia).
  replace (((b0 + 256 * b1 + 65536 * (b2 + 256 * b3)) / 65536) mod 65536)
    with (b2 + 256 * b3) by (Z.div_mod_to_equations; lia).
  unfold bswap16.
  replace ((b0 + 256 * b1) mod 256) with b0 by (Z.div_mod_to_equations; lia).
  replace (((b0 + 256 * b1) / 256) mod 256) with b1 by (Z.div_mod_to_equations; lia).
  replace ((b2 + 256 * b3) mod 256) with b2 by (Z.div_mod_to_equations; lia).
  replace (((b2 + 256 * b3) / 256) mod 256) with b3 by (Z.div_mod_to_equations; lia).
  lia.
Qed.

(** X5. [getTCPSeq] returns the four bytes at offset 4 of the TCP header,
    most significant first, as an [int]: a sequence number from 2^31 on comes
    back negative, less 2^32. *)
Theorem getTCPSeq_value (buffer : list byte) :
  let tcph := iphdr.ihl buffer 0 * 4 in
  let seq := load8 buffer (tcph + 4) * 16777216 + load8 buffer (tcph + 5) * 65536
             + load8 buffer (tcph + 6) * 256 + load8 buffer (tcph + 7) in
  0 <= seq < 2 ^ 32
  /\ getTCPSeq buffer = (if seq <? 2 ^ 31 then seq else seq - 2 ^ 32).
Proof.
  intros tcph seq. unfold getTCPSeq. rewrite iphdrlen_exact. fold tcph.
  unfold tcphdr.seq. rewrite ntohl_load32.
  replace (tcph + 4 + 1) with (tcph + 5) by lia.
  replace (tcph + 4 + 2) with (tcph + 6) by lia.
  replace (tcph + 6 + 1) with (tcph + 7) by lia. fold seq.
  pose proof (load8_range buffer (tcph + 4)). pose proof (load8_range buffer (tcph + 5)).
  pose proof (load8_range buffer (tcph + 6)). pose proof (load8_range buffer (tcph + 7)).
  change (2 ^ 32) with 4294967296. change (2 ^ 31) with 2147483648.
  assert (Hr : 0 <= seq < 4294967296) by (subst seq; lia).
  split; [exact Hr|].
  unfold to_int, wrap_signed. change (2 ^ (32 - 1)) with 2147483648.
  change (2 ^ 32) with 4294967296.
  destruct (Z.ltb_spec seq 2147483648).
  - rewrite Z.mod_small; lia.
  - rewrite <- (Z_mod_plus_full _ (-1)). rewrite Z.mod_small; lia.
Qed.

(** X6. The value -1 of [getACKSeq] is ambiguous: it is returned for
    a packet without the ACK flag, and also for an acknowledgement of
    2^32 - 1; for no other packet. *)
Theorem getACKSeq_minus_one_iff (buffer : list byte) :
  let tcph := iphdr.ihl buffer 0 * 4 in
  getACKSeq buffer = -1
  <-> tcphdr.ack buffer tcph <> 1
      \/ ntohl (tcphdr.ack_seq buffer tcph) = 2 ^ 32 - 1.
Proof.
  intros tcph. unfold getACKSeq. rewrite iphdrlen_exact. fold tcph.
  pose proof (bswap32_range (tcphdr.ack_seq buffer tcph)) as Hr.
  unfold ntohl. set (x := bswap32 (tcphdr.ack_seq buffer tcph)) in *.
  change (2 ^ 32 - 1) with 4294967295.
  destruct (Z.eqb_spec (tcphdr.ack buffer tcph) 1) as [E|E]; [|tauto].
  unfold to_int, wrap_signed. change (2 ^ (32 - 1)) with 2147483648.
  change (2 ^ 32) with 4294967296. split.
  - intros H. right. Z.div_mod_to_equations. lia.
  - intros [H|H]; [contradiction|]. rewrite H. reflexivity.
Qed.

(** ** [create_dupack] *)

Lemma byte_val_inj b1 b2 : byte_val b1 = byte_val b2 -> b1 = b2.
Proof.
  unfold byte_val. intros H. apply N2Z.inj in H.
  pose proof (Byte.of_to_N b1) as H1. rewrite H in H1.
  rewrite Byte.of_to_N in H1. now injection H1.
Qed.

Lemma create_dupack_prefix pkt plus timestamp :
  create_dupack pkt plus timestamp = create_dupack (bytes_at pkt 0 52) plus timestamp.
Proof.
  unfold create_dupack. cbv zeta.
  unfold iphdr.sizeof, tcphdr.sizeof, tshdr.sizeof, pseudo_header.sizeof.
  change (20 + 20 + 12) with 52. change (20 + 20) with 40.
  change (12 + 20 + 12) with 44. change (12 + 20) with 32. change (20 + 12) with 32.
  change (memcpy (zeroed 52) 0 (bytes_at pkt 0 52) 0 20)
    with (memcpy (zeroed 52) 0 pkt 0 20).
  change (iphdr.id (bytes_at pkt 0 52) 0) with (iphdr.id pkt 0).
  set (dip := iphdr.set_check _ 0 (csum _ 52)).
  change (memcpy dip 20 (bytes_at pkt 0 52) 20 20) with (memcpy dip 20 pkt 20 20).
  set (dtcp := memcpy dip 20 pkt 20 20).
  change (memcpy dtcp 40 (bytes_at pkt 0 52) 40 12) with (memcpy dtcp 40 pkt 40 12).
  reflexivity.
Qed.

(** X7. [create_dupack] reads the first 52 bytes of the template and
    nothing else: templates that agree there give the same packet, whatever
    follows (further TCP options, a payload). *)
Theorem create_dupack_reads_52_bytes (pkt1 pkt2 : list byte) (plus timestamp : Z) :
  (forall i, 0 <= i < 52 -> load8 pkt1 i = load8 pkt2 i) ->
  create_dupack pkt1 plus timestamp = create_dupack pkt2 plus timestamp.
Proof.
  intros H. rewrite (create_dupack_prefix pkt1), (create_dupack_prefix pkt2).
  f_equal. unfold bytes_at. apply map_ext_in. intros k Hk. apply in_seq in Hk.
  apply byte_val_inj. specialize (H (Z.of_nat k)).
  unfold load8 in H. rewrite Nat2Z.id in H. apply H. lia.
Qed.

Lemma create_dupack_reads_52_bytes_witness :
  create_dupack (p_data ex_ack) 3 7
  = create_dupack (p_data ex_ack ++ bytes_of [1; 2; 3]) 3 7.
Proof.
  apply create_dupack_reads_52_bytes.
  apply (in_range_cases _ 52%nat). apply below_cases. cbn [seq].
  repeat (constructor; [reflexivity|]). constructor.
Defined.

(** X8. The fabricated packet depends on [plus] modulo 65536 only: two
    values of [plus] that differ by a multiple of 65536 give the same
    packet, IP identification included. *)
Theorem create_dupack_plus_mod_65536 (pkt : list byte) (plus1 plus2 timestamp : Z) :
  plus1 mod 65536 = plus2 mod 65536 ->
  create_dupack pkt plus1 timestamp = create_dupack pkt plus2 timestamp.
Proof.
  intros H.
  assert (E : forall x,
             to_ushort (to_int (x + to_int plus1))
             = to_ushort (to_int (x + to_int plus2))).
  { intros x. rewrite !(Z.add_comm x), !to_int_add_l, !to_ushort_to_int.
    unfold to_ushort, wrap_unsigned. change (2 ^ 16) with 65536.
    rewrite (Zplus_mod plus1), (Zplus_mod plus2), H. reflexivity. }
  unfold create_dupack. cbv zeta. rewrite E. reflexivity.
Qed.

Lemma create_dupack_plus_mod_65536_witness :
  create_dupack (p_data ex_ack) 1 7 = create_dupack (p_data ex_ack) 65537 7.
Proof. apply create_dupack_plus_mod_65536. reflexivity. Defined.

(** X9. For a template without IP options the fabricated packet passes
    [CheckPureTCPAck] exactly when the template does. *)
Theorem create_dupack_pure_ack (pkt : list byte) (plus timestamp : Z) :
  iphdr.ihl pkt 0 = 5 ->
  CheckPureTCPAck (create_dupack pkt plus timestamp) = CheckPureTCPAck pkt.
Proof.
  intros H5. pose proof (create_dupack_copied pkt plus timestamp) as Hcopy.
  cbv zeta in Hcopy.
  destruct Hcopy as (Hihl & _ & Htot & Hproto & _ & _ & _ & _ & _ & _ & Hdoff
                     & Hflags & _).
  unfold CheckPureTCPAck. rewrite !iphdrlen_exact, Hihl, Htot, Hproto, H5.
  change (5 * 4) with 20.
  unfold tcphdr.ack, tcphdr.urg, tcphdr.psh, tcphdr.rst, tcphdr.syn, tcphdr.fin,
    tcphdr.doff.
  change (20 + 13) with 33. change (20 + 12) with 32.
  rewrite Hflags, Hdoff. reflexivity.
Qed.

Lemma create_dupack_pure_ack_witness :
  CheckPureTCPAck (create_dupack (p_data ex_ack) 3 7) = CheckPureTCPAck (p_data ex_ack).
Proof. apply create_dupack_pure_ack. reflexivity. Defined.

(** ** The queue: overflow *)

Lemma queue_calls_run_reached heap queuesize name calls :
  1 <= queuesize <= INT_MAX ->
  queue_inv (l_queue (queue_calls_run calls (queue_init heap queuesize name)))
  /\ buffer_size (l_queue (queue_calls_run calls (queue_init heap queuesize name)))
     = queuesize.
Proof.
  intros Hc.
  destruct (queue_calls_run_inv calls
              {| l_queue := queue_init heap queuesize name;
                 l_accepted := []; l_returned := [] |}
              (queue_init_inv heap queuesize name Hc) eq_refl)
    as (Hinv & _ & Hsz).
  split; [exact Hinv|exact Hsz].
Qed.

Lemma enqueue_packet_result p pkt :
  queue_inv p ->
  (fst (enqueue_packet p pkt) = 0 <-> fullness p = buffer_size p - 1).
Proof.
  intros Hinv. rewrite <- (queue_inv_is_full_iff p Hinv).
  destruct (classic_full p) as [Hfull|Hroom].
  - rewrite (enqueue_packet_full p pkt Hinv Hfull). tauto.
  - destruct (enqueue_packet_room p pkt Hinv Hroom) as (q & -> & _).
    cbn [fst]. split; [discriminate|tauto].
Qed.

(** X10. From [queue_init], after any calls, [enqueue_packet] returns 0
    (overflow) exactly when the queue holds [buffer_size - 1] packets: one
    slot of the array is never used, and a queue of size 1 accepts nothing. *)
Theorem enqueue_overflows_at_size_minus_one (heap : nat -> packet_t)
    (queuesize : Z) (name : string) (calls : list queue_call) (pkt : packet_t) :
  1 <= queuesize <= INT_MAX ->
  let q := l_queue (queue_calls_run calls (queue_init heap queuesize name)) in
  (fst (enqueue_packet q pkt) = 0 <-> fullness q = queuesize - 1)
  /\ (queuesize = 1 -> enqueue_packet q pkt = (0, q)).
Proof.
  intros Hc q. destruct (queue_calls_run_reached heap queuesize name calls Hc)
    as [Hinv Hsz]. fold q in Hinv, Hsz.
  pose proof (enqueue_packet_result q pkt Hinv) as Hres. rewrite Hsz in Hres.
  split; [exact Hres|]. intros H1.
  apply enqueue_packet_full; [exact Hinv|].
  apply (queue_inv_is_full_iff q Hinv).
  pose proof (queue_inv_fullness_range q Hinv). lia.
Qed.

Lemma enqueue_overflows_at_size_minus_one_witness :
  fst (enqueue_packet
         (l_queue (queue_calls_run [Enqueue ex_pkt_A; Enqueue ex_pkt_B]
                     (queue_init ex_heap 3 "Q")))
         ex_pkt_C) = 0
  <-> fullness (l_queue (queue_calls_run [Enqueue ex_pkt_A; Enqueue ex_pkt_B]
                           (queue_init ex_heap 3 "Q"))) = 3 - 1.
Proof.
  assert (H : 1 <= 3 <= INT_MAX) by (unfold INT_MAX; lia).
  exact (proj1 (enqueue_overflows_at_size_minus_one ex_heap 3 "Q"
                  [Enqueue ex_pkt_A; Enqueue ex_pkt_B] ex_pkt_C H)).
Defined.

Lemma enqueue_all_accepted pkts :
  forall l, queue_inv (l_queue l) ->
    l_accepted (fold_left queue_call_run (map Enqueue pkts) l)
    = l_accepted l
      ++ take (Z.to_nat (buffer_size (l_queue l) - 1 - fullness (l_queue l))) pkts.
Proof.
  induction pkts as [|pkt pkts IH]; intros l Hinv.
  - cbn [map fold_left]. now rewrite take_nil, app_nil_r.
  - cbn [map fold_left].
    pose proof (queue_inv_fullness_range _ Hinv) as Hrange.
    destruct (classic_full (l_queue l)) as [Hfull|Hroom].
    + pose proof (proj1 (queue_inv_is_full_iff _ Hinv) Hfull) as Hf.
      unfold queue_call_run at 2. rewrite (enqueue_packet_full _ pkt Hinv Hfull).
      cbn [Z.eqb]. rewrite IH by exact Hinv. cbn [l_queue l_accepted].
      replace (Z.to_nat (buffer_size (l_queue l) - 1 - fullness (l_queue l)))
        with 0%nat by lia.
      reflexivity.
    + destruct (enqueue_packet_room _ pkt Hinv Hroom) as (q & Henq & Hq & Hqq & Hsz).
      assert (Hf : fullness (l_queue l) < buffer_size (l_queue l) - 1).
      { destruct (Z.eq_dec (fullness (l_queue l)) (buffer_size (l_queue l) - 1)) as [E|];
          [|lia].
        exfalso. apply Hroom, (queue_inv_is_full_iff _ Hinv), E. }
      assert (Hfq : fullness q = fullness (l_queue l) + 1).
      { pose proof (queued_length q) as H1. rewrite Hqq, length_app, queued_length in H1.
        cbn [length] in H1. pose proof (queue_inv_fullness_range q Hq). lia. }
      unfold queue_call_run at 2. rewrite Henq. cbn [Z.eqb Pos.eqb].
      rewrite IH by exact Hq. cbn [l_queue l_accepted]. rewrite Hsz, Hfq.
      replace (Z.to_nat (buffer_size (l_queue l) - 1 - fullness (l_queue l)))
        with (S (Z.to_nat (buffer_size (l_queue l) - 1 - (fullness (l_queue l) + 1))))
        by lia.
      cbn [take]. now rewrite <- app_assoc.
Qed.

(** X11. Tail drop: of a list of packets offered to a fresh queue one after
    the other, the first [queuesize - 1] are accepted and all later ones
    refused. *)
Theorem enqueue_accepts_first_size_minus_one (heap : nat -> packet_t)
    (queuesize : Z) (name : string) (pkts : list packet_t) :
  1 <= queuesize <= INT_MAX ->
  l_accepted (queue_calls_run (map Enqueue pkts) (queue_init heap queuesize name))
  = take (Z.to_nat (queuesize - 1)) pkts.
Proof.
  intros Hc. unfold queue_calls_run.
  rewrite enqueue_all_accepted by (apply queue_init_inv; exact Hc).
  cbn [l_accepted l_queue queue_init buffer_size fullness app].
  now rewrite Z.sub_0_r.
Qed.

Lemma enqueue_accepts_first_size_minus_one_witness :
  l_accepted (queue_calls_run (map Enqueue [ex_pkt_A; ex_pkt_B; ex_pkt_C])
                (queue_init ex_heap 3 "Q"))
  = take (Z.to_nat (3 - 1)) [ex_pkt_A; ex_pkt_B; ex_pkt_C].
Proof.
  apply enqueue_accepts_first_size_minus_one. unfold INT_MAX. lia.
Defined.

(** ** The effect of each block of the loop on the queues and the logs *)

Lemma main_FDTAP_IN_RDY_view packet nread s :
  let s' := main_FDTAP_IN_RDY packet nread s in
  Qsock s' = Qsock s /\ net_fd_writes s' = net_fd_writes s
  /\ tap_fd_writes s' = tap_fd_writes s /\ dupack s' = dupack s
  /\ (Qtap s' = Qtap s
      \/ Qtap s' = snd (enqueue_packet (Qtap s) (set_length packet nread))).
Proof.
  unfold main_FDTAP_IN_RDY. cbv zeta.
  destruct (in_backward_cc (with_tap2net (to_ulong (tap2net s + 1)) s) =? -3);
    state_simpl;
    (destruct (to_uint (getTCPSeq (p_data (set_length packet nread))) =? trigger_seq s);
     state_simpl;
     [|destruct (enqueue_packet (Qtap s) (set_length packet nread)) as [r q];
       state_simpl; destruct (r =? 0); state_simpl]);
    match goal with
    | |- context [if ?b then _ else _] => destruct b
    end; state_simpl; cbn [snd]; auto 10.
Qed.

Lemma main_FDSOCK_IN_RDY_view packet nread s :
  let s' := main_FDSOCK_IN_RDY packet nread s in
  Qtap s' = Qtap s /\ net_fd_writes s' = net_fd_writes s
  /\ tap_fd_writes s' = tap_fd_writes s
  /\ trigger_seq s' = trigger_seq s /\ dupack s' = dupack s
  /\ in_backward_cc s' = in_backward_cc s /\ pkt_count s' = pkt_count s
  /\ Qsock s' = snd (enqueue_packet (Qsock s) (set_length packet nread)).
Proof.
  unfold main_FDSOCK_IN_RDY. cbv zeta.
  destruct (enqueue_packet (Qsock s) (set_length packet nread)) as [r q].
  destruct (r =? 0); state_simpl; cbn [snd]; auto 10.
Qed.

Lemma main_dupack_for_written packet fuel :
  forall i s, exists ws, main_dupack_for fuel i packet s = tap_written ws s.
Proof.
  induction fuel as [|fuel IH]; intros i s.
  - exists []. now rewrite tap_written_nil.
  - cbn [main_dupack_for]. destruct (i <? pkt_count s).
    + cbv zeta. rewrite cwrite_tap_written.
      edestruct IH as [ws ->]. rewrite tap_written_app. eauto.
    + exists []. now rewrite tap_written_nil.
Qed.

Lemma main_FDTAP_OUT_OK_view s :
  let s' := main_FDTAP_OUT_OK s in
  Qtap s' = Qtap s /\ net_fd_writes s' = net_fd_writes s
  /\ Qsock s' = snd (dequeue_packet (Qsock s)).
Proof.
  unfold main_FDTAP_OUT_OK. cbv zeta.
  destruct (in_backward_cc s =? -3); state_simpl;
    match goal with
    | |- context [if ?b then _ else _] => destruct b
    end;
    destruct (dequeue_packet (Qsock s)) as [[packet|] q]; state_simpl; cbn [snd];
    auto;
    repeat match goal with
    | |- context [main_dupack_for ?f ?i ?p ?s0] =>
        let ws := fresh "ws" in let E := fresh "E" in
        destruct (main_dupack_for_written p f i s0) as [ws E]; rewrite E;
        unfold tap_written; state_simpl
    | |- context [if ?b then _ else _] => destruct b; state_simpl
    end; auto.
Qed.

Lemma main_FDSOCK_OUT_OK_view s :
  let s' := main_FDSOCK_OUT_OK s in
  Qsock s' = Qsock s /\ tap_fd_writes s' = tap_fd_writes s
  /\ trigger_seq s' = trigger_seq s /\ dupack s' = dupack s
  /\ in_backward_cc s' = in_backward_cc s /\ pkt_count s' = pkt_count s
  /\ Qtap s' = snd (dequeue_packet (Qtap s))
  /\ net_fd_writes s'
     = net_fd_writes s ++ match fst (dequeue_packet (Qtap s)) with
                          | Some p => frame p
                          | None => []
                          end.
Proof.
  unfold main_FDSOCK_OUT_OK. cbv zeta.
  destruct (dequeue_packet (Qtap s)) as [[packet|] q]; state_simpl; cbn [fst snd].
  - rewrite <- app_assoc. unfold frame. cbn [app]. auto 10.
  - rewrite app_nil_r. auto 10.
Qed.

(** ** The two queues of [main] *)


Lemma main_queue_inv_init heap name : main_queue_inv (queue_init heap 100 name).
Proof.
  split.
  - apply queue_init_inv. unfold INT_MAX. lia.
  - reflexivity.
  - apply Forall_nil_2.
Qed.


Lemma main_queue_inv_enqueue q pkt :
  main_queue_inv q -> 0 <= p_length pkt <= 65535 ->
  main_queue_inv (snd (enqueue_packet q pkt))
  /\ (snd (enqueue_packet q pkt) = q
      \/ queued (snd (enqueue_packet q pkt)) = queued q ++ [pkt]).
Proof.
  intros [Hinv Hsz Hlen] Hp.
  destruct (classic_full q) as [Hfull|Hroom].
  - rewrite (enqueue_packet_full q pkt Hinv Hfull). cbn [snd].
    split; [now split|now left].
  - destruct (enqueue_packet_room q pkt Hinv Hroom) as (q' & -> & Hq' & Hqq & Hsz').
    cbn [snd]. split; [|now right]. split.
    + exact Hq'.
    + now rewrite Hsz'.
    + rewrite Hqq. apply Forall_app. split; [exact Hlen|].
      apply Forall_cons. split; [exact Hp|apply Forall_nil_2].
Qed.


Lemma set_length_range packet nread :
  0 <= p_length (set_length packet nread) <= 65535.
Proof. cbn [set_length p_length]. apply to_ushort_range. Qed.

(** ** The flags that [io_timeout] returns *)

Lemma io_timeout_flags e d timeout0 :
  let j := fst (fst (io_timeout e d timeout0)) in
  let s := io_timeout_schedule (qtap_next_pkt_out d) (qsock_next_pkt_out d)
             (e_start_tv e)
             {| use_null_timeout := use_null_timeout (e_locals e);
                timeout := timeout0;
                which := which (e_locals e) |} in
  flag_set j FDTAP_IN_RDY = e_tap_readable e
  /\ flag_set j FDSOCK_IN_RDY = e_sock_readable e
  /\ flag_set j FDSOCK_OUT_OK
     = (e_srv e =? 0) && (which s =? 1) && e_sock_writable e
  /\ flag_set j FDTAP_OUT_OK
     = (e_srv e =? 0) && (which s =? 2) && e_tap_writable e
  /\ flag_set j FDSOCK_OUT_OVERRUN
     = (e_srv e =? 0) && (which s =? 1) && negb (e_sock_writable e)
  /\ flag_set j FDTAP_OUT_OVERRUN
     = (e_srv e =? 0) && (which s =? 2) && negb (e_tap_writable e).
Proof.
  cbv zeta. unfold io_timeout. cbv zeta.
  set (s := io_timeout_schedule _ _ _ _).
  destruct (e_tap_readable e), (e_sock_readable e), (e_srv e =? 0);
    destruct (Z.eqb_spec (which s) 1) as [E1|E1];
    destruct (Z.eqb_spec (which s) 2) as [E2|E2];
    try (exfalso; lia);
    destruct (e_sock_writable e), (e_tap_writable e);
    cbn [fst snd andb negb]; repeat split; reflexivity.
Qed.

(** X12. Whatever [select] answers, one call of [io_timeout] reports the tap
    (the socket) ready for input exactly when [select] left it in the read
    set, sets no output flag unless the first [select] returned 0, and sets
    at most one of the four output flags. *)
Theorem io_timeout_one_output (e : io_env) (d : deadlines) (timeout0 : timeval) :
  let j := fst (fst (io_timeout e d timeout0)) in
  flag_set j FDTAP_IN_RDY = e_tap_readable e
  /\ flag_set j FDSOCK_IN_RDY = e_sock_readable e
  /\ Z.b2z (flag_set j FDTAP_OUT_OK) + Z.b2z (flag_set j FDSOCK_OUT_OK)
     + Z.b2z (flag_set j FDTAP_OUT_OVERRUN) + Z.b2z (flag_set j FDSOCK_OUT_OVERRUN)
     <= (if e_srv e =? 0 then 1 else 0).
Proof.
  intros j.
  destruct (io_timeout_flags e d timeout0) as (H1 & H2 & H3 & H4 & H5 & H6).
  fold j in H1, H2, H3, H4, H5, H6.
  rewrite H1, H2, H3, H4, H5, H6. split; [reflexivity|]. split; [reflexivity|].
  set (s := io_timeout_schedule _ _ _ _).
  destruct (e_srv e =? 0);
    destruct (Z.eqb_spec (which s) 1) as [E1|E1];
    destruct (Z.eqb_spec (which s) 2) as [E2|E2];
    try (exfalso; lia);
    destruct (e_sock_writable e), (e_tap_writable e); cbn; lia.
Qed.




(** ** Invariants of the loop *)







(** ** The variables of the episode *)








(** ** From the tap to the socket *)



(** ** From the socket to the tap while no episode runs *)

Lemma main_FDTAP_IN_RDY_idle packet nread s :
  in_backward_cc s = -1 ->
  let s' := main_FDTAP_IN_RDY packet nread s in
  (exists l, freed s' = freed s ++ l)
  /\ pkt_count s' = pkt_count s
  /\ dupack s' = dupack s
  /\ (if fullness (Qtap s') >? 20
      then in_backward_cc s' = -2
           /\ trigger_seq s' = to_uint (getTCPSeq (p_data packet))
      else in_backward_cc s' = -1 /\ trigger_seq s' = trigger_seq s).
Proof.
  intros Hidle. unfold main_FDTAP_IN_RDY. cbv zeta. state_simpl.
  rewrite Hidle. cbn [Z.eqb Pos.eqb]. state_simpl.
  destruct (to_uint (getTCPSeq (p_data (set_length packet nread))) =? trigger_seq s);
    state_simpl;
    [|destruct (enqueue_packet (Qtap s) (set_length packet nread)) as [r q];
      state_simpl; destruct (r =? 0); state_simpl];
    rewrite ?Hidle; cbn [Z.eqb Pos.eqb]; rewrite andb_true_r;
    match goal with
    | |- context [if ?b then _ else _] => destruct b eqn:Hb
    end; state_simpl; rewrite ?Hb;
    (split; [first [now exists [] ; rewrite app_nil_r | eauto]|]); auto.
Qed.




Lemma queued_fullness q :
  queue_inv q -> fullness q = Z.of_nat (length (queued q)).
Proof.
  intros Hinv. rewrite queued_length.
  pose proof (queue_inv_fullness_range q Hinv). lia.
Qed.




(** ** The start of an episode *)

Lemma main_FDTAP_IN_RDY_enqueues packet nread s :
  to_uint (getTCPSeq (p_data packet)) <> trigger_seq s ->
  Qtap (main_FDTAP_IN_RDY packet nread s)
  = snd (enqueue_packet (Qtap s) (set_length packet nread)).
Proof.
  intros Hne. unfold main_FDTAP_IN_RDY. cbv zeta.
  destruct (in_backward_cc (with_tap2net (to_ulong (tap2net s + 1)) s) =? -3);
    state_simpl;
    (destruct (Z.eqb_spec (to_uint (getTCPSeq (p_data (set_length packet nread))))
                (trigger_seq s)) as [E|_]; [now cbn [set_length p_data] in E|]);
    destruct (enqueue_packet (Qtap s) (set_length packet nread)) as [r q];
    state_simpl; destruct (r =? 0); state_simpl;
    match goal with
    | |- context [if ?b then _ else _] => destruct b
    end; reflexivity.
Qed.

Lemma main_events_run_snoc es e s :
  main_events_run (es ++ [e]) s = main_event_run (main_events_run es s) e.
Proof. unfold main_events_run. now rewrite fold_left_app. Qed.

Lemma tap_reads_below_threshold (ps : list (packet_t * Z)) s0 :
  main_queue_inv (Qtap s0) -> queued (Qtap s0) = [] ->
  in_backward_cc s0 = -1 -> trigger_seq s0 = UINT_MAX ->
  Forall (fun pn => to_uint (getTCPSeq (p_data (fst pn))) <> UINT_MAX) ps ->
  (length ps <= 20)%nat ->
  let s := main_events_run (map (fun pn => TapIn (fst pn) (snd pn)) ps) s0 in
  main_queue_inv (Qtap s)
  /\ queued (Qtap s) = map (fun pn => set_length (fst pn) (snd pn)) ps
  /\ in_backward_cc s = -1 /\ trigger_seq s = UINT_MAX.
Proof.
  intros Hq0 Hempty Hcc0 Htr0. cbv zeta.
  induction ps as [|[p n] ps IH] using rev_ind; intros Hall Hlen.
  - cbn [map main_events_run fold_left]. auto.
  - apply Forall_app in Hall as [Hall Hp]. apply Forall_cons in Hp as [Hp _].
    rewrite length_app in Hlen. cbn [length] in Hlen. cbn [fst] in Hp.
    destruct (IH Hall ltac:(lia)) as (Hq & Hqq & Hcc & Htr).
    rewrite map_app. cbn [map fst snd]. rewrite main_events_run_snoc.
    cbn [main_event_run].
    set (s := main_events_run _ s0) in *.
    assert (HQ := main_FDTAP_IN_RDY_enqueues p n s ltac:(now rewrite Htr)).
    destruct (main_queue_inv_enqueue (Qtap s) (set_length p n) Hq
                (set_length_range p n)) as [Hq' Hcase].
    assert (Hroom : ~ is_full (Qtap s)).
    { intros Hfull. apply (queue_inv_is_full_iff _ (mq_inv _ Hq)) in Hfull.
      rewrite (mq_size _ Hq), (queued_fullness _ (mq_inv _ Hq)), Hqq in Hfull.
      rewrite length_map in Hfull. lia. }
    destruct (enqueue_packet_room (Qtap s) (set_length p n) (mq_inv _ Hq) Hroom)
      as (q' & Eq' & _ & Hqq' & _).
    rewrite Eq' in HQ, Hq'. cbn [snd] in HQ, Hq'.
    destruct (main_FDTAP_IN_RDY_idle p n s Hcc) as (_ & _ & _ & Harm).
    rewrite HQ in Harm |- *.
    assert (Hf : (fullness q' >? 20) = false).
    { rewrite (queued_fullness _ (mq_inv _ Hq')), Hqq', Hqq.
      rewrite length_app, length_map. cbn [length].
      rewrite Z.gtb_ltb. apply Z.ltb_ge. lia. }
    rewrite Hf in Harm. destruct Harm as [Hcc' Htr'].
    split; [exact Hq'|]. split; [now rewrite Hqq', Hqq, map_app|].
    split; [exact Hcc'|]. now rewrite Htr'.
Qed.

(** X18. From the start of [main], with nothing sent meanwhile, the first
    twenty packets read from the tap are queued and leave the mechanism
    idle; the twenty-first is queued too and arms it, with its own sequence
    number as the trigger (the sequence numbers being other than
    0xFFFFFFFF, which the unset trigger would match). *)
Theorem twenty_first_tap_packet_arms (ps : list (packet_t * Z))
    (last : packet_t) (nread : Z)
    (heap_sock heap_tap : nat -> packet_t) (d0 : deadlines) (tv0 : timeval)
    (dupack0 : packet_t) :
  length ps = 20%nat ->
  Forall (fun pn => to_uint (getTCPSeq (p_data (fst pn))) <> UINT_MAX)
         (ps ++ [(last, nread)]) ->
  let s20 := main_events_run (map (fun pn => TapIn (fst pn) (snd pn)) ps)
               (main_init heap_sock heap_tap d0 tv0 dupack0) in
  let s21 := main_FDTAP_IN_RDY last nread s20 in
  (in_backward_cc s20 = -1 /\ trigger_seq s20 = UINT_MAX
   /\ queued (Qtap s20) = map (fun pn => set_length (fst pn) (snd pn)) ps)
  /\ in_backward_cc s21 = -2
  /\ trigger_seq s21 = to_uint (getTCPSeq (p_data last))
  /\ queued (Qtap s21)
     = map (fun pn => set_length (fst pn) (snd pn)) ps ++ [set_length last nread].
Proof.
  intros Hlen Hall s20 s21.
  apply Forall_app in Hall as [Hall Hp]. apply Forall_cons in Hp as [Hp _].
  cbn [fst] in Hp.
  destruct (tap_reads_below_threshold ps
              (main_init heap_sock heap_tap d0 tv0 dupack0)
              (main_queue_inv_init heap_tap "Qtap") eq_refl eq_refl eq_refl
              Hall ltac:(lia)) as (Hq & Hqq & Hcc & Htr).
  fold s20 in Hq, Hqq, Hcc, Htr.
  split; [auto|].
  assert (HQ := main_FDTAP_IN_RDY_enqueues last nread s20 ltac:(now rewrite Htr)).
  assert (Hroom : ~ is_full (Qtap s20)).
  { intros Hfull. apply (queue_inv_is_full_iff _ (mq_inv _ Hq)) in Hfull.
    rewrite (mq_size _ Hq), (queued_fullness _ (mq_inv _ Hq)), Hqq in Hfull.
    rewrite length_map in Hfull. lia. }
  destruct (enqueue_packet_room (Qtap s20) (set_length last nread) (mq_inv _ Hq) Hroom)
    as (q' & Eq' & Hq' & Hqq' & _).
  rewrite Eq' in HQ. cbn [snd] in HQ.
  destruct (main_FDTAP_IN_RDY_idle last nread s20 Hcc) as (_ & _ & _ & Harm).
  fold s21 in HQ, Harm. rewrite HQ in Harm |- *.
  assert (Hf : (fullness q' >? 20) = true).
  { rewrite (queued_fullness _ Hq'), Hqq', Hqq.
    rewrite length_app, length_map. cbn [length].
    rewrite Z.gtb_ltb. apply Z.ltb_lt. lia. }
  rewrite Hf in Harm. destruct Harm as [Hcc' Htr'].
  split; [exact Hcc'|]. split; [exact Htr'|]. now rewrite Hqq', Hqq.
Qed.

Lemma twenty_first_tap_packet_arms_witness :
  in_backward_cc (main_FDTAP_IN_RDY (ex_data 1020) 52 ex_twenty) = -2
  /\ trigger_seq (main_FDTAP_IN_RDY (ex_data 1020) 52 ex_twenty) = 1020.
Proof.
  assert (H1 : length (map (fun k => (ex_data (1000 + k), 52)) (seqZ 0 20)) = 20%nat)
    by reflexivity.
  assert (H2 : Forall (fun pn => to_uint (getTCPSeq (p_data (fst pn))) <> UINT_MAX)
                 (map (fun k => (ex_data (1000 + k), 52)) (seqZ 0 20)
                  ++ [(ex_data 1020, 52)])).
  { apply Forall_forall. intros pn Hin.
    apply list_elem_of_In, in_app_iff in Hin.
    vm_compute in Hin.
    destruct Hin as [Hin|Hin];
      repeat (destruct Hin as [<-|Hin]; [vm_compute; discriminate|]);
      destruct Hin. }
  pose proof (twenty_first_tap_packet_arms
                (map (fun k => (ex_data (1000 + k), 52)) (seqZ 0 20))
                (ex_data 1020) 52 ex_heap ex_heap
                {| qtap_next_pkt_out := tv_zero; qsock_next_pkt_out := tv_zero |}
                tv_zero ex_junk H1 H2) as H.
  cbv zeta in H. destruct H as (_ & Ha & Hb & _).
  split; [exact Ha|].
  transitivity (to_uint (getTCPSeq (p_data (ex_data 1020)))); [exact Hb|reflexivity].
Defined.

(** ** Counting the packets in flight *)

Lemma main_FDTAP_IN_RDY_counting packet nread s :
  in_backward_cc s = -3 ->
  let s' := main_FDTAP_IN_RDY packet nread s in
  in_backward_cc s' = -3
  /\ pkt_count s' = to_ushort (pkt_count s + 1)
  /\ trigger_seq s' = trigger_seq s.
Proof.
  intros Hcc. unfold main_FDTAP_IN_RDY. cbv zeta. state_simpl.
  rewrite Hcc. cbn [Z.eqb Pos.eqb]. state_simpl.
  destruct (to_uint (getTCPSeq (p_data (set_length packet nread))) =? trigger_seq s);
    state_simpl;
    [|destruct (enqueue_packet (Qtap s) (set_length packet nread)) as [r q];
      state_simpl; destruct (r =? 0); state_simpl];
    rewrite ?Hcc; cbn [Z.eqb Pos.eqb]; rewrite andb_false_r; state_simpl; auto.
Qed.

Lemma to_ushort_succ x k : to_ushort (to_ushort (x + k) + 1) = to_ushort (x + (k + 1)).
Proof.
  unfold to_ushort, wrap_unsigned. rewrite Zplus_mod_idemp_l. f_equal. lia.
Qed.

(** X19. While the mechanism counts ([in_backward_cc] is -3), every packet
    read from the tap adds one to [pkt_count], whether it is queued, refused
    by a full queue or dropped as the retransmission; the count is kept
    modulo 65536, and neither the phase nor the trigger changes. *)
Theorem counting_counts_every_tap_read (ps : list (packet_t * Z)) (s : main_state) :
  in_backward_cc s = -3 ->
  0 <= pkt_count s <= 65535 ->
  let s' := main_events_run (map (fun pn => TapIn (fst pn) (snd pn)) ps) s in
  in_backward_cc s' = -3
  /\ pkt_count s' = (pkt_count s + Z.of_nat (length ps)) mod 65536
  /\ trigger_seq s' = trigger_seq s.
Proof.
  intros Hcc Hct. cbv zeta.
  change (fun x => x mod 65536) with to_ushort.
  assert (H : in_backward_cc
                (main_events_run (map (fun pn => TapIn (fst pn) (snd pn)) ps) s) = -3
              /\ pkt_count
                   (main_events_run (map (fun pn => TapIn (fst pn) (snd pn)) ps) s)
                 = to_ushort (pkt_count s + Z.of_nat (length ps))
              /\ trigger_seq
                   (main_events_run (map (fun pn => TapIn (fst pn) (snd pn)) ps) s)
                 = trigger_seq s); [|exact H].
  induction ps as [|[p n] ps IH] using rev_ind.
  - cbn [map main_events_run fold_left length Z.of_nat].
    rewrite Z.add_0_r, to_ushort_small by exact Hct. auto.
  - destruct IH as (Hcc' & Hct' & Htr').
    rewrite map_app. cbn [map fst snd]. rewrite main_events_run_snoc.
    cbn [main_event_run].
    destruct (main_FDTAP_IN_RDY_counting p n _ Hcc') as (-> & -> & ->).
    rewrite Hct', Htr', to_ushort_succ, length_app. cbn [length].
    repeat split. f_equal. lia.
Qed.

Lemma counting_counts_every_tap_read_witness :
  pkt_count (main_events_run [TapIn (ex_data 1021) 52; TapIn (ex_data 1020) 52]
               ex_wait_ready) = 2.
Proof.
  assert (H1 : in_backward_cc ex_wait_ready = -3) by (vm_compute; reflexivity).
  assert (H2 : 0 <= pkt_count ex_wait_ready <= 65535)
    by (vm_compute; split; discriminate).
  pose proof (counting_counts_every_tap_read
                [(ex_data 1021, 52); (ex_data 1020, 52)] ex_wait_ready H1 H2) as H.
  cbv zeta in H. destruct H as (_ & Hb & _).
  transitivity ((pkt_count ex_wait_ready + Z.of_nat 2) mod 65536);
    [exact Hb|vm_compute; reflexivity].
Defined.

(** ** Where the writes to the tap and the freed packets come from *)









(** ** One output for each iteration *)

(** X21. One iteration of the loop of [main] writes to the tap or to the
    socket, never to both: [io_timeout] never reports both outputs due, and
    the two input blocks write nothing. *)
Theorem main_iteration_one_output (i : iteration_input) (s : main_state) :
  let s' := main_iteration i s in
  tap_fd_writes s' = tap_fd_writes s \/ net_fd_writes s' = net_fd_writes s.
Proof.
  unfold main_iteration.
  pose proof (io_timeout_flags (in_io i) (next_pkt_out s) (g_timeout s)) as Hf.
  destruct (io_timeout (in_io i) (next_pkt_out s) (g_timeout s)) as [[j d] tv].
  cbv zeta in Hf. cbn [fst] in Hf. destruct Hf as (_ & _ & H3 & H4 & _).
  set (s1 := with_g_timeout tv (with_next_pkt_out d s)).
  assert (H1 : tap_fd_writes s1 = tap_fd_writes s
               /\ net_fd_writes s1 = net_fd_writes s) by (split; reflexivity).
  revert H1. generalize s1. clear s1. intros s1 H1.
  assert (H2 : forall s2 : main_state,
             tap_fd_writes s2 = tap_fd_writes s /\ net_fd_writes s2 = net_fd_writes s ->
             let s3 := if flag_set j FDTAP_IN_RDY
                       then main_FDTAP_IN_RDY (in_tap_packet i) (in_tap_nread i) s2
                       else s2 in
             tap_fd_writes s3 = tap_fd_writes s /\ net_fd_writes s3 = net_fd_writes s).
  { intros s2 [Ha Hb]. cbv zeta. destruct (flag_set j FDTAP_IN_RDY); [|now split].
    destruct (main_FDTAP_IN_RDY_view (in_tap_packet i) (in_tap_nread i) s2)
      as (_ & -> & -> & _). now split. }
  specialize (H2 s1 H1). cbv zeta in H2 |- *. revert H2.
  generalize (if flag_set j FDTAP_IN_RDY
              then main_FDTAP_IN_RDY (in_tap_packet i) (in_tap_nread i) s1 else s1).
  intros s2 H2.
  assert (H5 : let s3 := if flag_set j FDSOCK_IN_RDY
                         then main_FDSOCK_IN_RDY (in_sock_packet i) (in_sock_nread i) s2
                         else s2 in
               tap_fd_writes s3 = tap_fd_writes s /\ net_fd_writes s3 = net_fd_writes s).
  { cbv zeta. destruct (flag_set j FDSOCK_IN_RDY); [|exact H2].
    destruct (main_FDSOCK_IN_RDY_view (in_sock_packet i) (in_sock_nread i) s2)
      as (_ & -> & -> & _). exact H2. }
  cbv zeta in H5. revert H5.
  generalize (if flag_set j FDSOCK_IN_RDY
              then main_FDSOCK_IN_RDY (in_sock_packet i) (in_sock_nread i) s2 else s2).
  intros s3 [Ha Hb].
  set (sch := io_timeout_schedule _ _ _ _) in H3, H4.
  destruct (flag_set j FDTAP_OUT_OK) eqn:Etap, (flag_set j FDSOCK_OUT_OK) eqn:Esock.
  - exfalso. symmetry in H3, H4.
    apply andb_prop in H3 as [H3 _]. apply andb_prop in H3 as [_ H3].
    apply andb_prop in H4 as [H4 _]. apply andb_prop in H4 as [_ H4].
    apply Z.eqb_eq in H3, H4. lia.
  - right. destruct (main_FDTAP_OUT_OK_view s3) as (_ & -> & _). exact Hb.
  - left. destruct (main_FDSOCK_OUT_OK_view s3) as (_ & -> & _). exact Ha.
  - now left.
Qed.

(** ** Reading a given number of bytes *)

Lemma read_n_while_done answers buf off n :
  read_n_while answers buf off 0 n = Some (Returned (n, buf), answers).
Proof. destruct answers; reflexivity. Qed.

Lemma read_n_while_chunks chunks :
  forall tail buf off left n,
    Forall (fun c => c <> []) chunks ->
    Z.of_nat (length (concat chunks)) <= left <= INT_MAX ->
    0 <= off ->
    read_n_while (map ReadBytes chunks ++ tail) buf off left n
    = read_n_while tail
        (list_inserts (Z.to_nat off) (concat chunks) buf)
        (off + Z.of_nat (length (concat chunks)))
        (left - Z.of_nat (length (concat chunks))) n.
Proof.
  induction chunks as [|c chunks IH]; intros tail buf off left n Hne Hlen Hoff.
  - cbn [map app concat length Z.of_nat list_inserts].
    now rewrite Z.add_0_r, Z.sub_0_r.
  - apply Forall_cons in Hne as [Hc Hne].
    cbn [concat] in *. rewrite length_app in Hlen. rewrite length_app.
    assert (Hpos : (0 < length c)%nat) by (destruct c; [congruence|cbn; lia]).
    cbn [map app read_n_while].
    replace (left >? 0) with true by (symmetry; apply Z.gtb_lt; lia).
    unfold cread. cbv zeta. rewrite take_ge by lia.
    replace (Z.of_nat (length c) =? 0) with false
      by (symmetry; apply Z.eqb_neq; lia).
    rewrite to_int_small by (unfold INT_MIN, INT_MAX in *; lia).
    rewrite IH; [|exact Hne|unfold INT_MAX in *; lia|lia].
    rewrite list_inserts_app_l. f_equal; [|lia..].
    f_equal. lia.
Qed.

Lemma read_n_collects_n_bytes_aux chunks rest buf n :
  Forall (fun c => c <> []) chunks ->
  Z.of_nat (length (concat chunks)) = n ->
  n <= INT_MAX ->
  n <= Z.of_nat (length buf) ->
  read_n (map ReadBytes chunks ++ rest) buf n
  = Some (Returned (n, concat chunks ++ drop (Z.to_nat n) buf), rest).
Proof.
  intros Hne Hlen Hmax Hbuf. unfold read_n.
  rewrite read_n_while_chunks by (try exact Hne; lia).
  rewrite Hlen, Z.sub_diag, read_n_while_done.
  change (Z.to_nat 0) with 0%nat.
  rewrite <- (take_drop (Z.to_nat n) buf) at 1.
  rewrite list_inserts_0_r by (rewrite length_take; lia).
  reflexivity.
Qed.

(** X22. [read_n] returns [n] once the successive calls of [read] have
    delivered [n] bytes in whatever non-empty portions, leaves these bytes in
    this order at the start of the buffer, and calls [read] no more often
    than that. *)
Theorem read_n_collects_n_bytes (chunks : list (list byte))
    (rest : list read_answer) (buf : list byte) (n : Z) :
  Forall (fun c => c <> []) chunks ->
  Z.of_nat (length (concat chunks)) = n ->
  n <= INT_MAX ->
  n <= Z.of_nat (length buf) ->
  read_n (map ReadBytes chunks ++ rest) buf n
  = Some (Returned (n, concat chunks ++ drop (Z.to_nat n) buf), rest).
Proof. apply read_n_collects_n_bytes_aux. Qed.

Lemma read_n_collects_n_bytes_witness :
  read_n [ReadBytes [x00; x34]; ReadBytes [x45]; ReadBytes [x46]]
         (replicate 4 x00) 3
  = Some (Returned (3, [x00; x34; x45; x00]), [ReadBytes [x46]]).
Proof.
  apply (read_n_collects_n_bytes [[x00; x34]; [x45]] [ReadBytes [x46]]
           (replicate 4 x00) 3).
  - repeat constructor; discriminate.
  - reflexivity.
  - unfold INT_MAX. lia.
  - cbn. lia.
Defined.

(** X23. When the end of the file comes before [n] bytes have been
    delivered, [read_n] returns 0, not the number of bytes read so far, which
    stay in the buffer; when [read] fails at that point, the process
    exits. *)
Theorem read_n_stops_early (chunks : list (list byte))
    (rest : list read_answer) (buf : list byte) (n : Z) :
  Forall (fun c => c <> []) chunks ->
  Z.of_nat (length (concat chunks)) < n <= INT_MAX ->
  read_n (map ReadBytes chunks ++ ReadBytes [] :: rest) buf n
  = Some (Returned (0, list_inserts 0 (concat chunks) buf), rest)
  /\ read_n (map ReadBytes chunks ++ ReadError :: rest) buf n
     = Some (Exited, rest).
Proof.
  intros Hne Hlen. unfold read_n.
  rewrite !read_n_while_chunks by (try exact Hne; lia).
  cbn [read_n_while].
  replace (n - Z.of_nat (length (concat chunks)) >? 0) with true
    by (symmetry; apply Z.gtb_lt; lia).
  unfold cread. cbv zeta. rewrite take_nil.
  cbn [length Z.of_nat Z.eqb list_inserts]. split; reflexivity.
Qed.

Lemma read_n_stops_early_witness :
  read_n [ReadBytes [x00; x34]; ReadBytes []; ReadBytes [x46]] (replicate 4 x00) 3
  = Some (Returned (0, [x00; x34; x00; x00]), [ReadBytes [x46]]).
Proof.
  apply (read_n_stops_early [[x00; x34]] [ReadBytes [x46]] (replicate 4 x00) 3).
  - repeat constructor; discriminate.
  - cbn. unfold INT_MAX. lia.
Defined.

Lemma read_n_while_result answers :
  forall buf off left n r buf' rest,
    read_n_while answers buf off left n = Some (Returned (r, buf'), rest) ->
    (r = n \/ r = 0) /\ length buf' = length buf.
Proof.
  induction answers as [|answer answers IH]; intros buf off left n r buf' rest H.
  - cbn [read_n_while] in H. destruct (left >? 0); [discriminate|].
    injection H as <- <- <-. auto.
  - cbn [read_n_while] in H. destruct (left >? 0).
    + destruct answer as [|bytes]; [discriminate|].
      unfold cread in H. cbv zeta in H.
      destruct (Z.of_nat (length (take (Z.to_nat left) bytes)) =? 0).
      * injection H as <- <- <-. rewrite length_inserts. auto.
      * apply IH in H. now rewrite length_inserts in H.
    + injection H as <- <- <-. auto.
Qed.

(** X24. Whenever [read_n] returns, it returns [n] or 0, whatever [read]
    delivered, and the buffer has kept its size. *)
Theorem read_n_returns_n_or_0 (answers : list read_answer) (buf : list byte)
    (n r : Z) (buf' : list byte) (rest : list read_answer) :
  read_n answers buf n = Some (Returned (r, buf'), rest) ->
  (r = n \/ r = 0) /\ length buf' = length buf.
Proof. apply read_n_while_result. Qed.

Lemma read_n_returns_n_or_0_witness :
  (3 = 3 \/ 3 = 0) /\ length [x00; x34; x45; x00] = length (replicate 4 x00).
Proof.
  apply (read_n_returns_n_or_0
           [ReadBytes [x00; x34]; ReadBytes [x45]; ReadBytes [x46]]
           (replicate 4 x00) 3 3 [x00; x34; x45; x00] [ReadBytes [x46]]).
  reflexivity.
Defined.

(** ** A frame from one end of the tunnel to the other *)

Lemma plength_bytes_decode len :
  length (plength_bytes len) = 2%nat
  /\ ntohs (load16 (plength_bytes len) 0) = to_ushort len.
Proof.
  unfold plength_bytes. split.
  - now rewrite store16_length.
  - rewrite load16_store16_eq by first [lia | vm_compute; lia].
    unfold htons, ntohs.
    pose proof (bswap16_range (to_ushort len)).
    rewrite Z.mod_small by lia.
    apply bswap16_involutive, to_ushort_range.
Qed.

(** X25. What the block FDSOCK_OUT_OK of one end writes for a packet, the
    block FDSOCK_IN_RDY of the other end reads back: when the bytes of the
    two calls of [cwrite] arrive, in whatever non-empty portions, the two
    calls of [read_n] use up exactly these, and leave in [packet->data] the
    bytes of the packet and in [nread] its length. *)
Theorem frame_round_trip (p : packet_t) (chunks1 chunks2 : list (list byte))
    (rest : list read_answer) (plength0 data0 : list byte) :
  0 <= p_length p <= 65535 ->
  p_length p <= Z.of_nat (length (p_data p)) ->
  p_length p <= Z.of_nat (length data0) ->
  length plength0 = 2%nat ->
  Forall (fun c => c <> []) chunks1 -> Forall (fun c => c <> []) chunks2 ->
  concat chunks1 = written_bytes {| w_buf := plength_bytes (p_length p); w_n := 2 |} ->
  concat chunks2 = written_bytes {| w_buf := p_data p; w_n := p_length p |} ->
  frame p = [ {| w_buf := plength_bytes (p_length p); w_n := 2 |};
              {| w_buf := p_data p; w_n := p_length p |} ]
  /\ main_read_frame (map ReadBytes chunks1 ++ map ReadBytes chunks2 ++ rest)
       plength0 data0
     = Some (Returned (p_length p,
                       take (Z.to_nat (p_length p)) (p_data p)
                       ++ drop (Z.to_nat (p_length p)) data0),
             rest).
Proof.
  intros Hlen Hdata Hdata0 Hpl Hne1 Hne2 Hc1 Hc2.
  split; [reflexivity|].
  destruct (plength_bytes_decode (p_length p)) as [Hl2 Hdec].
  unfold written_bytes in Hc1, Hc2. cbn [w_buf w_n] in Hc1, Hc2.
  rewrite take_ge in Hc1 by (rewrite Hl2; lia).
  unfold main_read_frame.
  rewrite (read_n_collects_n_bytes_aux chunks1 _ plength0 2 Hne1).
  - rewrite Hc1. rewrite drop_ge by lia. rewrite app_nil_r, Hdec.
    rewrite to_ushort_small by exact Hlen.
    rewrite (read_n_collects_n_bytes_aux chunks2 rest data0 (p_length p) Hne2).
    + now rewrite Hc2.
    + rewrite Hc2, length_take. lia.
    + unfold INT_MAX. lia.
    + exact Hdata0.
  - now rewrite Hc1, Hl2.
  - unfold INT_MAX. lia.
  - lia.
Qed.

Lemma frame_round_trip_witness :
  main_read_frame
    (map ReadBytes [[x00]; [x34]] ++ map ReadBytes [p_data (ex_pure_ack 1000 7)] ++ [])
    (replicate 2 x00) (replicate 60 x00)
  = Some (Returned (p_length (ex_pure_ack 1000 7),
                    take (Z.to_nat (p_length (ex_pure_ack 1000 7)))
                         (p_data (ex_pure_ack 1000 7))
                    ++ drop (Z.to_nat (p_length (ex_pure_ack 1000 7)))
                            (replicate 60 x00)),
          []).
Proof.
  assert (H1 : 0 <= p_length (ex_pure_ack 1000 7) <= 65535)
    by (vm_compute; split; discriminate).
  assert (H2 : p_length (ex_pure_ack 1000 7)
               <= Z.of_nat (length (p_data (ex_pure_ack 1000 7))))
    by (vm_compute; discriminate).
  assert (H3 : p_length (ex_pure_ack 1000 7) <= Z.of_nat (length (replicate 60 x00)))
    by (vm_compute; discriminate).
  assert (H4 : length (replicate 2 x00) = 2%nat) by reflexivity.
  assert (H5 : Forall (fun c : list byte => c <> []) [[x00]; [x34]])
    by (repeat constructor; discriminate).
  assert (H6 : Forall (fun c : list byte => c <> []) [p_data (ex_pure_ack 1000 7)])
    by (repeat constructor; vm_compute; discriminate).
  assert (H7 : concat [[x00]; [x34]]
               = written_bytes {| w_buf := plength_bytes (p_length (ex_pure_ack 1000 7));
                                  w_n := 2 |}) by (vm_compute; reflexivity).
  assert (H8 : concat [p_data (ex_pure_ack 1000 7)]
               = written_bytes {| w_buf := p_data (ex_pure_ack 1000 7);
                                  w_n := p_length (ex_pure_ack 1000 7) |})
    by (vm_compute; reflexivity).
  exact (proj2 (frame_round_trip (ex_pure_ack 1000 7) [[x00]; [x34]]
                  [p_data (ex_pure_ack 1000 7)] [] (replicate 2 x00)
                  (replicate 60 x00) H1 H2 H3 H4 H5 H6 H7 H8)).
Defined.

(** ** The queue: emptiness *)

(** X26. For a queue reached from [queue_init], [isempty] returns 1 exactly
    when the queue holds no packet, which is exactly when [fullness] is 0 and
    when [dequeue_packet] returns NULL and leaves the queue as it is;
    otherwise [isempty] returns 0. *)
Theorem isempty_iff_nothing_queued (heap : nat -> packet_t) (queuesize : Z)
    (name : string) (calls : list queue_call) :
  1 <= queuesize <= INT_MAX ->
  let q := l_queue (queue_calls_run calls (queue_init heap queuesize name)) in
  (isempty q = 1 \/ isempty q = 0)
  /\ (isempty q = 1 <-> queued q = [])
  /\ (isempty q = 1 <-> fullness q = 0)
  /\ (isempty q = 1 <-> dequeue_packet q = (None, q)).
Proof.
  intros Hc q.
  destruct (queue_calls_run_reached heap queuesize name calls Hc) as [Hinv _].
  fold q in Hinv.
  pose proof (queue_inv_empty_iff q Hinv) as Hempty.
  pose proof (queued_length q) as Hlen.
  pose proof (queue_inv_fullness_range q Hinv) as Hrange.
  unfold isempty. destruct (Z.eqb_spec (front q) (rear q)) as [E|E].
  - split; [now left|]. split; [|split].
    + split; [intros _|reflexivity].
      apply length_zero_iff_nil. rewrite Hlen. apply Hempty in E. lia.
    + split; [intros _; now apply Hempty|reflexivity].
    + split; [intros _; now apply dequeue_packet_empty|reflexivity].
  - split; [now right|]. split; [|split].
    + split; [discriminate|]. intros Hq. exfalso. apply E, Hempty.
      rewrite Hq in Hlen. cbn [length] in Hlen. lia.
    + split; [discriminate|]. intros Hf. exfalso. now apply E, Hempty.
    + split; [discriminate|]. intros Hd. exfalso.
      destruct (dequeue_packet_nonempty q Hinv E) as (pkt & q' & Hd' & _).
      congruence.
Qed.

Lemma isempty_iff_nothing_queued_witness :
  isempty (l_queue (queue_calls_run [Enqueue ex_pkt_A; Dequeue]
                      (queue_init ex_heap 3 "Q"))) = 1
  <-> queued (l_queue (queue_calls_run [Enqueue ex_pkt_A; Dequeue]
                         (queue_init ex_heap 3 "Q"))) = [].
Proof.
  assert (H : 1 <= 3 <= INT_MAX) by (unfold INT_MAX; lia).
  exact (proj1 (proj2 (isempty_iff_nothing_queued ex_heap 3 "Q"
                         [Enqueue ex_pkt_A; Dequeue] H))).
Defined.

(** ** The smoothed fullness *)

Lemma enqueue_packet_sfullness p pkt :
  queue_inv p -> ~ is_full p ->
  fullness (snd (enqueue_packet p pkt)) = fullness p + 1
  /\ sfullness (snd (enqueue_packet p pkt)) = ewma a (sfullness p) (fullness p + 1)
  /\ fst (enqueue_packet p pkt) = 1.
Proof.
  intros Hinv Hroom.
  pose proof (queue_inv_fullness_range p Hinv) as Hrange.
  pose proof Hinv as [Hc Harr Hfr Hre Hf Hb].
  assert (Hlt : fullness p < buffer_size p - 1).
  { destruct (Z.eq_dec (fullness p) (buffer_size p - 1)) as [E|]; [|lia].
    exfalso. apply Hroom. apply (queue_inv_is_full_iff p Hinv), E. }
  unfold is_full in Hroom.
  unfold enqueue_packet. rewrite next_index by assumption.
  destruct (Z.eqb_spec ((rear p + 1) mod buffer_size p) (front p)) as [E|_];
    [contradiction|].
  cbv zeta. cbn [fst snd fullness sfullness].
  rewrite to_int_small by (unfold INT_MIN, INT_MAX in *; lia). auto.
Qed.

Lemma smoothed_after_enqueues pkts :
  forall l, queue_inv (l_queue l) ->
    (Z.to_nat (fullness (l_queue l)) + length pkts
     <= Z.to_nat (buffer_size (l_queue l) - 1))%nat ->
    sfullness (l_queue l) = smoothed (Z.to_nat (fullness (l_queue l))) ->
    sfullness (l_queue (fold_left queue_call_run (map Enqueue pkts) l))
    = smoothed (Z.to_nat (fullness (l_queue l)) + length pkts).
Proof.
  induction pkts as [|pkt pkts IH]; intros l Hinv Hlen Hs.
  - cbn [map fold_left length]. now rewrite Nat.add_0_r.
  - cbn [map fold_left length] in *.
    pose proof (queue_inv_fullness_range _ Hinv) as Hrange.
    assert (Hroom : ~ is_full (l_queue l)).
    { intros Hfull. apply (queue_inv_is_full_iff _ Hinv) in Hfull. lia. }
    destruct (enqueue_packet_room _ pkt Hinv Hroom) as (q & Henq & Hq & _ & Hsz).
    destruct (enqueue_packet_sfullness _ pkt Hinv Hroom) as (Hf & Hsf & _).
    rewrite Henq in Hf, Hsf. cbn [snd] in Hf, Hsf.
    unfold queue_call_run at 2. rewrite Henq. cbn [Z.eqb Pos.eqb].
    rewrite IH; cbn [l_queue].
    + f_equal. rewrite Hf. lia.
    + exact Hq.
    + rewrite Hsz, Hf. lia.
    + rewrite Hsf, Hf, Hs.
      replace (Z.to_nat (fullness (l_queue l) + 1))
        with (S (Z.to_nat (fullness (l_queue l)))) by lia.
      cbn [smoothed]. f_equal. lia.
Qed.

Lemma smoothed_closed_form :
  forallb (fun k => bool_decide
                      (smoothed k
                       = binary_normalize Float32.prec Float32.emax
                           ((Z.of_nat k - 1) * 2 ^ Z.of_nat k + 1) (- Z.of_nat k)
                           false))
          (seq 0 100) = true.
Proof. vm_compute. reflexivity. Qed.

(** X27. [ewma] with the weight 0.5 of the code makes [sfullness] lag one
    packet behind: after [k] packets, at most 99, have been enqueued into a
    fresh queue of size 100, [sfullness] is the [float] nearest to
    [k - 1 + 2^-k]. *)
Theorem sfullness_after_enqueues (heap : nat -> packet_t) (name : string)
    (pkts : list packet_t) :
  (length pkts <= 99)%nat ->
  let k := Z.of_nat (length pkts) in
  sfullness (l_queue (queue_calls_run (map Enqueue pkts) (queue_init heap 100 name)))
  = binary_normalize Float32.prec Float32.emax ((k - 1) * 2 ^ k + 1) (- k) false.
Proof.
  intros Hlen k. unfold queue_calls_run.
  rewrite smoothed_after_enqueues.
  - cbn [l_queue queue_init fullness]. change (Z.to_nat 0) with 0%nat.
    cbn [Nat.add].
    pose proof smoothed_closed_form as H.
    rewrite forallb_forall in H.
    specialize (H (length pkts) ltac:(apply in_seq; lia)).
    apply bool_decide_eq_true in H. exact H.
  - apply queue_init_inv. unfold INT_MAX. lia.
  - cbn [l_queue queue_init fullness buffer_size]. lia.
  - reflexivity.
Qed.

Lemma sfullness_after_enqueues_witness :
  sfullness (l_queue (queue_calls_run (map Enqueue [ex_pkt_A; ex_pkt_B])
                        (queue_init ex_heap 100 "Q")))
  = binary_normalize Float32.prec Float32.emax 5 (-2) false.
Proof.
  apply (sfullness_after_enqueues ex_heap "Q" [ex_pkt_A; ex_pkt_B]).
  cbn. lia.
Defined.

(** X28. [getTimestampVal] returns the four bytes at offset 24 of the TCP
    header, most significant first, whatever the data offset, the option
    kind and the option length say and however long the datagram is. *)
Theorem getTimestampVal_value (buffer : list byte) :
  let tcph := iphdr.ihl buffer 0 * 4 in
  getTimestampVal buffer
  = load8 buffer (tcph + 24) * 16777216 + load8 buffer (tcph + 25) * 65536
    + load8 buffer (tcph + 26) * 256 + load8 buffer (tcph + 27).
Proof.
  intros tcph. unfold getTimestampVal. cbv zeta. rewrite iphdrlen_exact. fold tcph.
  unfold tshdr.sts, tcphdr.sizeof. rewrite ntohl_load32.
  replace (tcph + 20 + 4) with (tcph + 24) by lia.
  replace (tcph + 24 + 1) with (tcph + 25) by lia.
  replace (tcph + 24 + 2) with (tcph + 26) by lia.
  replace (tcph + 26 + 1) with (tcph + 27) by lia.
  reflexivity.
Qed.
